(** * Realtime session core of the chat client (src/chat/chatpage.jsx)

    A shallow embedding of the message reconciler, the notification
    router and the call signalling handlers of [ChatPage], and the
    properties the specification states about them.  Further sections
    cover the room list, the conversation channel, the ICE server
    configuration, the helpers of the message bubble and the checks of the
    sign-up and login forms.

    Conventions of the embedding.
    - Payloads that arrive over the socket or from the REST layer are JSON
      values; they are modelled by [jsval].  Numbers are the integers
      (rendered in decimal by [js_String]); functions do not occur in JSON, so
      [typeof x.toJSON === "function"] is always false.
    - Strings are byte strings that hold the UTF-8 encoding of the text.
      [trim] strips the white space and the line terminators of ECMAScript
      in that encoding, and the lengths and cuts of the previews and of
      the forms count UTF-16 code units ([utf16_length], [take_units]).
    - React state setters are applied at once.  A call signalling handler
      is taken as one step, its [await] resuming before any other handler
      runs.  The handlers of the conversation state that wait for a request
      ([fetchMessages], [handleClearActiveConversation],
      [handleDeleteMessage]) are split at the [await]: what they read
      before it comes from the state they were called in, what they set
      after it is applied to the state the answer finds.
    - Objects held in the message list carry the address they were allocated
      at ([mref]); the code never mutates a message in place, so an address
      together with the value stands for the reference. *)

From stdpp Require Import base option list strings gmap pretty.
From Stdlib Require Import ZArith Lia.

#[local] Open Scope string_scope.
#[local] Open Scope list_scope.
#[local] Open Scope nat_scope.
#[local] Set Warnings "-register-all".

(** ** JavaScript values *)

Module JS.

Inductive jsval :=
| JUndefined
| JNull
| JBool (b : bool)
| JNum (n : Z)
| JStr (s : string)
| JArr (items : list jsval)
| JObj (fields : list (string * jsval)).

(** A plain object: its own properties, first binding of a key wins. *)
Abbreviation obj := (list (string * jsval)).

(** [Boolean(v)]: the falsy values are undefined, null, false, 0 and "". *)
Definition truthy (v : jsval) : bool :=
  match v with
  | JUndefined | JNull => false
  | JBool b => b
  | JNum n => negb (n =? 0)%Z
  | JStr s => negb (String.eqb s "")
  | JArr _ | JObj _ => true
  end.

(** [a || b] *)
Definition or_else (a b : jsval) : jsval := if truthy a then a else b.

(** [typeof v === "object"] (null included, as in JavaScript) *)
Definition is_object (v : jsval) : bool :=
  match v with JNull | JArr _ | JObj _ => true | _ => false end.

(** [Array.isArray(v)] *)
Definition is_array (v : jsval) : bool :=
  match v with JArr _ => true | _ => false end.

Fixpoint assoc (k : string) (fs : obj) : jsval :=
  match fs with
  | [] => JUndefined
  | (k', v) :: rest => if String.eqb k k' then v else assoc k rest
  end.

(** [v.k] and [v?.k] for a named (non-index) property [k]: only plain
    objects have own named properties in this model. *)
Definition get (k : string) (v : jsval) : jsval :=
  match v with JObj fs => assoc k fs | _ => JUndefined end.

(** [{ ...o, k: v }]: a key the object has keeps its place and takes the
    new value, a key it does not have comes last. *)
Fixpoint set_field (k : string) (v : jsval) (fs : obj) : obj :=
  match fs with
  | [] => [(k, v)]
  | (k', v') :: rest =>
      if String.eqb k' k then (k, v) :: filter (λ p, p.1 ≠ k) rest
      else (k', v') :: set_field k v rest
  end.

Fixpoint join (sep : string) (parts : list string) : string :=
  match parts with
  | [] => ""
  | [p] => p
  | p :: rest => p +:+ sep +:+ join sep rest
  end.

(** [String(v)], which is also [v.toString()] for a value that has one *)
Fixpoint js_String (v : jsval) : string :=
  match v with
  | JUndefined => "undefined"
  | JNull => "null"
  | JBool true => "true"
  | JBool false => "false"
  | JNum n => pretty n
  | JStr s => s
  | JArr items =>
      join "," (map (λ x, match x with
                          | JUndefined | JNull => ""
                          | _ => js_String x
                          end) items)
  | JObj _ => "[object Object]"
  end.

(** [a === b] for operands that come from different payloads: primitives
    compare by value, and two objects or arrays are never the same
    reference. *)
Definition strict_eq (a b : jsval) : bool :=
  match a, b with
  | JUndefined, JUndefined => true
  | JNull, JNull => true
  | JBool x, JBool y => Bool.eqb x y
  | JNum x, JNum y => (x =? y)%Z
  | JStr x, JStr y => String.eqb x y
  | _, _ => false
  end.

(** [v.length]: the length of an array or a string, the own property of
    that name of a plain object. *)
Definition length_of (v : jsval) : jsval :=
  match v with
  | JArr items => JNum (Z.of_nat (length items))
  | JStr s => JNum (Z.of_nat (String.length s))
  | JObj fields => assoc "length" fields
  | _ => JUndefined
  end.

(** [v[i]] for an index [i]: an item of an array, a character of a string,
    the own property named by the decimal of [i] of a plain object. *)
Definition index (v : jsval) (i : nat) : jsval :=
  match v with
  | JArr items => default JUndefined (items !! i)
  | JStr s => match String.get i s with
              | Some c => JStr (String.String c "")
              | None => JUndefined
              end
  | JObj fields => assoc (pretty i) fields
  | _ => JUndefined
  end.

(** The white space and the line terminators of ECMAScript, which are what
    [trim] strips, in the UTF-8 encoding the strings are held in.  One
    byte: U+0009 to U+000D and U+0020. *)
Definition is_space (c : Ascii.ascii) : bool :=
  let n := Ascii.nat_of_ascii c in
  (n =? 32) || ((9 <=? n) && (n <=? 13)).

(** Two bytes: U+00A0 (C2 A0). *)
Definition is_space2 (a b : Ascii.ascii) : bool :=
  (Ascii.nat_of_ascii a =? 194) && (Ascii.nat_of_ascii b =? 160).

(** Three bytes: U+1680 (E1 9A 80), U+2000 to U+200A (E2 80 80 to 8A),
    U+2028 and U+2029 (E2 80 A8, A9), U+202F (E2 80 AF), U+205F (E2 81 9F),
    U+3000 (E3 80 80) and U+FEFF (EF BB BF). *)
Definition is_space3 (a b c : Ascii.ascii) : bool :=
  let a := Ascii.nat_of_ascii a in
  let b := Ascii.nat_of_ascii b in
  let c := Ascii.nat_of_ascii c in
  ((a =? 225) && (b =? 154) && (c =? 128))
  || ((a =? 226) && (b =? 128)
      && (((128 <=? c) && (c <=? 138)) || (c =? 168) || (c =? 169) || (c =? 175)))
  || ((a =? 226) && (b =? 129) && (c =? 159))
  || ((a =? 227) && (b =? 128) && (c =? 128))
  || ((a =? 239) && (b =? 187) && (c =? 191)).

(** Drop the characters of one, two or three bytes at the head of the list
    for as long as [w1], [w2] or [w3] takes them. *)
Fixpoint drop_leading (w1 : Ascii.ascii → bool) (w2 : Ascii.ascii → Ascii.ascii → bool)
    (w3 : Ascii.ascii → Ascii.ascii → Ascii.ascii → bool) (l : list Ascii.ascii)
  : list Ascii.ascii :=
  match l with
  | a :: r1 =>
      if w1 a then drop_leading w1 w2 w3 r1
      else
        match r1 with
        | b :: r2 =>
            if w2 a b then drop_leading w1 w2 w3 r2
            else
              match r2 with
              | c :: r3 => if w3 a b c then drop_leading w1 w2 w3 r3 else l
              | [] => l
              end
        | [] => l
        end
  | [] => []
  end.

(** White space at the head of the bytes of a string, and at the head of
    the bytes read backwards. *)
Definition drop_spaces (l : list Ascii.ascii) : list Ascii.ascii :=
  drop_leading is_space is_space2 is_space3 l.

Definition drop_spaces_backwards (l : list Ascii.ascii) : list Ascii.ascii :=
  drop_leading is_space (λ b a, is_space2 a b) (λ c b a, is_space3 a b c) l.

(** [s.trimStart()] *)
Definition trim_start (s : string) : string :=
  String.string_of_list_ascii (drop_spaces (String.list_ascii_of_string s)).

(** [s.trimEnd()] *)
Definition trim_end (s : string) : string :=
  String.string_of_list_ascii
    (rev (drop_spaces_backwards (rev (String.list_ascii_of_string s)))).

(** [s.trim()] *)
Definition trim (s : string) : string := trim_end (trim_start s).

(** [s.slice(-n)]: the last [n] characters. *)
Definition slice_last (n : nat) (s : string) : string :=
  String.substring (String.length s - n) n s.

End JS.

Import JS.

(** ** Message normalisation and the reconciler (chatpage.jsx, lines 145-416) *)

Definition toId (value : jsval) : string :=
  if negb (truthy value) then ""
  else match value with
       | JStr s => s
       | _ =>
           if is_object value && truthy (get "_id" value)
           then js_String (get "_id" value)
           else
             let serialized := js_String value in
             if negb (String.eqb serialized "")
                && negb (String.eqb serialized "[object Object]")
             then serialized
             else ""
       end.

Definition buildRoomNotificationKey (roomId : string) : string := "room:" +:+ roomId.

Definition buildDmNotificationKey (userId : string) : string := "dm:" +:+ userId.

Record Reaction := { user : string; emoji : jsval }.

Definition normalizeReaction (reaction : jsval) : Reaction :=
  {| user := toId (get "user" reaction);
     emoji := or_else (get "emoji" reaction) (JStr "") |}.

Definition normalizeReplyPreview (replyToMessage : jsval) : jsval :=
  if negb (truthy replyToMessage) || negb (is_object replyToMessage) then JNull
  else JObj [ ("_id", JStr (toId replyToMessage));
              ("senderUserId", or_else (get "senderUserId" replyToMessage) JNull);
              ("messageContent",
                JStr (js_String (or_else (get "messageContent" replyToMessage) (JStr ""))));
              ("createdAt", or_else (get "createdAt" replyToMessage) (JStr "")) ].

(** The number of turns of [for (index = 0; index < previous.length; ...)].
    The loop is entered only after the two lengths were found identical,
    and the next list of the one caller is an array: the length is then a
    number.  For [undefined] the test [index < previous.length] is false. *)
Definition loop_bound (v : jsval) : nat :=
  match length_of v with JNum n => Z.to_nat n | _ => 0 end.

Definition areReactionsEqual (previous next : jsval) : bool :=
  let previous := match previous with JUndefined => JArr [] | _ => previous end in
  let next := match next with JUndefined => JArr [] | _ => next end in
  if negb (strict_eq (length_of previous) (length_of next)) then false
  else
    forallb (λ i,
        let left := normalizeReaction (index previous i) in
        let right := normalizeReaction (index next i) in
        negb (negb (String.eqb (user left) (user right))
              || negb (strict_eq (emoji left) (emoji right))))
      (seq 0 (loop_bound previous)).

Definition shouldReuseMessage (previousMessage : option obj) (nextMessage : obj) : bool :=
  match previousMessage with
  | None => false
  | Some previousMessage =>
      let previousReply := normalizeReplyPreview (assoc "replyTo" previousMessage) in
      let nextReply := normalizeReplyPreview (assoc "replyTo" nextMessage) in
      let isReplyEqual :=
        (negb (truthy previousReply) && negb (truthy nextReply))
        || (truthy previousReply
            && truthy nextReply
            && strict_eq (get "_id" previousReply) (get "_id" nextReply)
            && strict_eq (get "messageContent" previousReply) (get "messageContent" nextReply)
            && String.eqb (toId (get "senderUserId" previousReply))
                          (toId (get "senderUserId" nextReply))
            && String.eqb (js_String (get "createdAt" previousReply))
                          (js_String (get "createdAt" nextReply))) in
      String.eqb (js_String (assoc "_id" previousMessage)) (js_String (assoc "_id" nextMessage))
      && strict_eq (assoc "messageContent" previousMessage) (assoc "messageContent" nextMessage)
      && strict_eq (assoc "messageType" previousMessage) (assoc "messageType" nextMessage)
      && strict_eq (assoc "readStatus" previousMessage) (assoc "readStatus" nextMessage)
      && String.eqb (js_String (assoc "createdAt" previousMessage))
                    (js_String (assoc "createdAt" nextMessage))
      && String.eqb (js_String (assoc "updatedAt" previousMessage))
                    (js_String (assoc "updatedAt" nextMessage))
      && String.eqb (toId (assoc "senderUserId" previousMessage))
                    (toId (assoc "senderUserId" nextMessage))
      && areReactionsEqual (or_else (assoc "reactions" previousMessage) (JArr []))
                           (or_else (assoc "reactions" nextMessage) (JArr []))
      && isReplyEqual
  end.

(** A message object of the in-memory list, with the address it lives at. *)
Record mref := { addr : nat; val : obj }.

(** [String(message._id)], the key the list is indexed by. *)
Definition msg_id (m : obj) : string := js_String (assoc "_id" m).

(** [{ ...message, reactions: ..., replyTo: ... }], the object both the
    reconciler and the live append build from a payload. *)
Definition normalizeMessage (message : obj) : obj :=
  set_field "replyTo" (normalizeReplyPreview (assoc "replyTo" message))
    (set_field "reactions"
       (if is_array (assoc "reactions" message) then assoc "reactions" message else JArr [])
       message).

(** [new Map(previousMessages.map((message) => [String(message._id), message]))]:
    a later entry of the list overwrites an earlier one with the same key. *)
Definition previousById (previousMessages : list mref) : gmap string mref :=
  foldl (λ acc message, <[msg_id (val message) := message]> acc) ∅ previousMessages.

(** The callback of [incomingMessages.map(...)]; its object literal is
    allocated at address [next].  [shouldReuseMessage(undefined, _)] is
    false, so a miss of the index yields the new object. *)
Definition reconcileOne (byId : gmap string mref) (next : nat) (message : obj) : mref :=
  let normalizedMessage := {| addr := next; val := normalizeMessage message |} in
  let existing := byId !! msg_id (val normalizedMessage) in
  if shouldReuseMessage (val <$> existing) (val normalizedMessage)
  then default normalizedMessage existing
  else normalizedMessage.

(** [incomingMessages.map(...)]: turn [i] allocates at [next + i]. *)
Fixpoint reconcile_from (byId : gmap string mref) (next : nat) (incomingMessages : list obj)
  : list mref :=
  match incomingMessages with
  | [] => []
  | message :: rest => reconcileOne byId next message :: reconcile_from byId (S next) rest
  end.

Definition reconcileMessages (next : nat) (previousMessages : list mref)
    (incomingMessages : list obj) : list mref :=
  reconcile_from (previousById previousMessages) next incomingMessages.

(** ** Conversation state: message list, unread counters, processed-event cache *)

Module Chat.

(** The part of the component state the message handlers read and write.
    [nextAddr] is the allocator of message objects.  The processed-event
    cache is a JavaScript [Set]: it iterates in insertion order, so it is
    kept as the list of its members, oldest first. *)
Record State := {
  messages : list mref;
  replyToMessage : jsval;
  unreadCounts : gmap string nat;
  selectedRoom : jsval;
  selectedUser : jsval;
  currentUserId : string;
  activeNotificationKeyRef : string;
  processedRealtimeMessageIds : list string;
  nextAddr : nat
}.

Definition initial (userId : string) : State :=
  {| messages := [];
     replyToMessage := JNull;
     unreadCounts := ∅;
     selectedRoom := JNull;
     selectedUser := JNull;
     currentUserId := userId;
     activeNotificationKeyRef := "";
     processedRealtimeMessageIds := [];
     nextAddr := 0 |}.

Definition setMessages (f : list mref → list mref) (s : State) : State :=
  {| messages := f (messages s);
     replyToMessage := replyToMessage s;
     unreadCounts := unreadCounts s;
     selectedRoom := selectedRoom s;
     selectedUser := selectedUser s;
     currentUserId := currentUserId s;
     activeNotificationKeyRef := activeNotificationKeyRef s;
     processedRealtimeMessageIds := processedRealtimeMessageIds s;
     nextAddr := nextAddr s |}.

Definition setReplyToMessage (f : jsval → jsval) (s : State) : State :=
  {| messages := messages s;
     replyToMessage := f (replyToMessage s);
     unreadCounts := unreadCounts s;
     selectedRoom := selectedRoom s;
     selectedUser := selectedUser s;
     currentUserId := currentUserId s;
     activeNotificationKeyRef := activeNotificationKeyRef s;
     processedRealtimeMessageIds := processedRealtimeMessageIds s;
     nextAddr := nextAddr s |}.

Definition setUnreadCounts (f : gmap string nat → gmap string nat) (s : State) : State :=
  {| messages := messages s;
     replyToMessage := replyToMessage s;
     unreadCounts := f (unreadCounts s);
     selectedRoom := selectedRoom s;
     selectedUser := selectedUser s;
     currentUserId := currentUserId s;
     activeNotificationKeyRef := activeNotificationKeyRef s;
     processedRealtimeMessageIds := processedRealtimeMessageIds s;
     nextAddr := nextAddr s |}.

Definition setSelection (room user : jsval) (s : State) : State :=
  {| messages := messages s;
     replyToMessage := replyToMessage s;
     unreadCounts := unreadCounts s;
     selectedRoom := room;
     selectedUser := user;
     currentUserId := currentUserId s;
     activeNotificationKeyRef := activeNotificationKeyRef s;
     processedRealtimeMessageIds := processedRealtimeMessageIds s;
     nextAddr := nextAddr s |}.

Definition setCurrentUserId (userId : string) (s : State) : State :=
  {| messages := messages s;
     replyToMessage := replyToMessage s;
     unreadCounts := unreadCounts s;
     selectedRoom := selectedRoom s;
     selectedUser := selectedUser s;
     currentUserId := userId;
     activeNotificationKeyRef := activeNotificationKeyRef s;
     processedRealtimeMessageIds := processedRealtimeMessageIds s;
     nextAddr := nextAddr s |}.

Definition setActiveNotificationKeyRef (key : string) (s : State) : State :=
  {| messages := messages s;
     replyToMessage := replyToMessage s;
     unreadCounts := unreadCounts s;
     selectedRoom := selectedRoom s;
     selectedUser := selectedUser s;
     currentUserId := currentUserId s;
     activeNotificationKeyRef := key;
     processedRealtimeMessageIds := processedRealtimeMessageIds s;
     nextAddr := nextAddr s |}.

Definition setProcessed (f : list string → list string) (s : State) : State :=
  {| messages := messages s;
     replyToMessage := replyToMessage s;
     unreadCounts := unreadCounts s;
     selectedRoom := selectedRoom s;
     selectedUser := selectedUser s;
     currentUserId := currentUserId s;
     activeNotificationKeyRef := activeNotificationKeyRef s;
     processedRealtimeMessageIds := f (processedRealtimeMessageIds s);
     nextAddr := nextAddr s |}.

Definition allocate (n : nat) (s : State) : State :=
  {| messages := messages s;
     replyToMessage := replyToMessage s;
     unreadCounts := unreadCounts s;
     selectedRoom := selectedRoom s;
     selectedUser := selectedUser s;
     currentUserId := currentUserId s;
     activeNotificationKeyRef := activeNotificationKeyRef s;
     processedRealtimeMessageIds := processedRealtimeMessageIds s;
     nextAddr := nextAddr s + n |}.

(** [useMemo] of lines 671-681 *)
Definition activeNotificationKey (s : State) : string :=
  if truthy (get "_id" (selectedRoom s))
  then buildRoomNotificationKey (js_String (get "_id" (selectedRoom s)))
  else if truthy (get "_id" (selectedUser s))
  then buildDmNotificationKey (js_String (get "_id" (selectedUser s)))
  else "".

(** [!previous[notificationKey]]: the entry is missing or is 0. *)
Definition clearUnreadForKey (notificationKey : string) (s : State) : State :=
  if String.eqb notificationKey "" then s
  else
    setUnreadCounts (λ previous,
        match previous !! notificationKey with
        | None | Some 0 => previous
        | Some _ => delete notificationKey previous
        end) s.

Definition getMessageNotificationKey (s : State) (message : jsval) : string :=
  let senderId := toId (get "senderUserId" message) in
  let targetId := toId (get "receiverUserIdOrRoomId" message) in
  let selfUserId := currentUserId s in
  if String.eqb senderId "" || String.eqb targetId "" || String.eqb selfUserId ""
     || String.eqb senderId selfUserId
  then ""
  else if String.eqb targetId selfUserId
  then buildDmNotificationKey senderId
  else buildRoomNotificationKey targetId.

(** [previous.some((existing) => String(existing._id) === String(message._id))] *)
Definition hasMessage (id : string) (previous : list mref) : bool :=
  existsb (λ existing, String.eqb (msg_id (val existing)) id) previous.

(** [appendRealtimeMessage]; only a plain object has an [_id], so any other
    payload leaves at the first guard. *)
Definition appendRealtimeMessage (message : jsval) (s : State) : State :=
  match message with
  | JObj fields =>
      if negb (truthy (assoc "_id" fields)) then s
      else if hasMessage (msg_id fields) (messages s) then s
      else
        allocate 1
          (setMessages (λ previous,
               previous ++ [ {| addr := nextAddr s; val := normalizeMessage fields |} ]) s)
  | _ => s
  end.

(** The updater shared by [onReactionUpdated] and [handleReactToMessage];
    the copy of the message at position [i] is allocated at [next + i]. *)
Fixpoint replaceReactions (next : nat) (messageId : string) (reactions : jsval)
    (previous : list mref) : list mref :=
  match previous with
  | [] => []
  | message :: rest =>
      (if String.eqb (msg_id (val message)) messageId
       then {| addr := next; val := set_field "reactions" reactions (val message) |}
       else message) :: replaceReactions (S next) messageId reactions rest
  end.

Definition applyReactions (messageId : string) (reactions : jsval) (s : State) : State :=
  allocate (length (messages s))
    (setMessages (replaceReactions (nextAddr s) messageId reactions) s).

Definition onReactionUpdated (payload : jsval) (s : State) : State :=
  if negb (truthy (get "messageId" payload)) || negb (is_array (get "reactions" payload))
  then s
  else applyReactions (js_String (get "messageId" payload)) (get "reactions" payload) s.

(** [handleReactToMessage], once the request has answered with
    [updatedReactions] *)
Definition handleReactToMessage (messageId updatedReactions : jsval) (s : State) : State :=
  applyReactions (js_String messageId) (or_else updatedReactions (JArr [])) s.

(** The [.filter(...).map(...)] updater shared by [onMessageDeleted] and
    [handleDeleteMessage]. *)
Fixpoint dropReplyTo (next : nat) (deletedMessageId : string) (previous : list mref)
  : list mref :=
  match previous with
  | [] => []
  | message :: rest =>
      (let replyId := toId (assoc "replyTo" (val message)) in
       if negb (String.eqb replyId "") && String.eqb replyId deletedMessageId
       then {| addr := next; val := set_field "replyTo" JNull (val message) |}
       else message) :: dropReplyTo (S next) deletedMessageId rest
  end.

Definition applyDeletion (deletedMessageId : string) (s : State) : State :=
  let kept :=
    filter (λ message, msg_id (val message) ≠ deletedMessageId) (messages s) in
  setReplyToMessage (λ previous,
      if truthy previous && String.eqb (js_String (get "_id" previous)) deletedMessageId
      then JNull else previous)
    (allocate (length kept)
       (setMessages (λ _, dropReplyTo (nextAddr s) deletedMessageId kept) s)).

Definition onMessageDeleted (payload : jsval) (s : State) : State :=
  let deletedMessageId :=
    if truthy (get "messageId" payload) then js_String (get "messageId" payload) else "" in
  if String.eqb deletedMessageId "" then s else applyDeletion deletedMessageId s.

(** [payload?.receiverUserIdOrRoomId ? String(payload.receiverUserIdOrRoomId) : ""] *)
Definition clearedTarget (payload : jsval) : string :=
  if truthy (get "receiverUserIdOrRoomId" payload)
  then js_String (get "receiverUserIdOrRoomId" payload) else "".

Definition onConversationCleared (payload : jsval) (s : State) : State :=
  let conversationTargetId := clearedTarget payload in
  if String.eqb conversationTargetId "" then s
  else
    let dmNotificationKey := buildDmNotificationKey conversationTargetId in
    let roomNotificationKey := buildRoomNotificationKey conversationTargetId in
    let s := clearUnreadForKey dmNotificationKey s in
    let s := clearUnreadForKey roomNotificationKey s in
    let isActiveConversation :=
      String.eqb (activeNotificationKeyRef s) dmNotificationKey
      || String.eqb (activeNotificationKeyRef s) roomNotificationKey in
    if isActiveConversation
    then setReplyToMessage (λ _, JNull) (setMessages (λ _, []) s)
    else s.

(** [processedRealtimeMessageIds.add(messageId)] followed by the eviction
    of [values().next().value], the oldest member. *)
Definition remember (messageId : string) (processed : list string) : list string :=
  let processed := processed ++ [messageId] in
  if 500 <? length processed then tail processed else processed.

(** [payload?.data || payload?.message || payload] *)
Definition pushedMessage (payload : jsval) : jsval :=
  or_else (get "data" payload) (or_else (get "message" payload) payload).

(** [incomingMessage?._id ? String(incomingMessage._id) : ""] *)
Definition pushedMessageId (payload : jsval) : string :=
  if truthy (get "_id" (pushedMessage payload))
  then js_String (get "_id" (pushedMessage payload)) else "".

(** [onNewMessage]; the alert tone and the system notification it raises
    leave the state alone and are not part of the model. *)
Definition onNewMessage (payload : jsval) (s : State) : State :=
  let incomingMessage := pushedMessage payload in
  let messageId := pushedMessageId payload in
  if String.eqb messageId "" then s
  else if bool_decide (messageId ∈ processedRealtimeMessageIds s) then s
  else
    let s := setProcessed (remember messageId) s in
    let notificationKey := getMessageNotificationKey s incomingMessage in
    if String.eqb notificationKey "" then s
    else if String.eqb notificationKey (activeNotificationKeyRef s)
    then appendRealtimeMessage incomingMessage s
    else
      setUnreadCounts (λ previous,
          <[notificationKey := default 0 (previous !! notificationKey) + 1]> previous) s.

(** [fetchMessages] up to its [await]: a request is sent when a room is
    selected, or a user is selected and the current user is known.  The
    test reads the selection the callback was created for. *)
Definition fetches (s : State) : bool :=
  truthy (get "_id" (selectedRoom s))
  || (truthy (get "_id" (selectedUser s)) && negb (String.eqb (currentUserId s) "")).

(** [fetchMessages] from its [await] on, when the request answers with
    [response] ([None] when [response.data] is missing): both branches
    install the same updater, and it runs on the state of that moment,
    whatever is selected by then.  The endpoint answers with a list of
    message objects (spec, section 6). *)
Definition fetchMessages (response : option (list obj)) (s : State) : State :=
  allocate (length (default [] response))
    (setMessages (λ previous,
         reconcileMessages (nextAddr s) previous (default [] response)) s).

(** The effects that depend on the selection, run after a step that
    assigned [selectedRoom] or [selectedUser]: the key effect (lines
    699-702, only when the key changed), the polling effect (lines
    1638-1642; the fetch it starts answers in a later step) and the reply
    effect (lines 1659-1661, only when one of the two ids changed). *)
Definition commitSelection (before s : State) : State :=
  let key := activeNotificationKey s in
  let s1 :=
    if String.eqb key (activeNotificationKey before) then s
    else clearUnreadForKey key (setActiveNotificationKeyRef key s) in
  let s2 :=
    if negb (truthy (selectedRoom s)) && negb (truthy (selectedUser s))
    then setMessages (λ _, []) s1 else s1 in
  if strict_eq (get "_id" (selectedRoom before)) (get "_id" (selectedRoom s))
     && strict_eq (get "_id" (selectedUser before)) (get "_id" (selectedUser s))
  then s2
  else setReplyToMessage (λ _, JNull) s2.

(** Any assignment of the selection: a click on a room or a user, the back
    button, a refreshed room or profile. *)
Definition select (room user : jsval) (s : State) : State :=
  commitSelection s (setSelection room user s).

Definition removeRoomFromUi (roomId : jsval) (s : State) : State :=
  if negb (truthy roomId) then s
  else
    let normalizedRoomId := js_String roomId in
    let roomNotificationKey := buildRoomNotificationKey normalizedRoomId in
    let deselect :=
      truthy (selectedRoom s)
      && String.eqb (js_String (get "_id" (selectedRoom s))) normalizedRoomId in
    let s1 := if deselect then setSelection JNull (selectedUser s) s else s in
    let s2 :=
      setUnreadCounts (λ previous,
          match previous !! roomNotificationKey with
          | None | Some 0 => previous
          | Some _ => delete roomNotificationKey previous
          end) s1 in
    if deselect then commitSelection s s2 else s2.

(** [handleClearActiveConversation]: the target and the guard are read
    from [atCall], the state the handler was called in; the setters run
    once the request has succeeded, on the state [s] of that moment. *)
Definition handleClearActiveConversation (atCall s : State) : State :=
  let conversationTargetId :=
    or_else (get "_id" (selectedRoom atCall)) (get "_id" (selectedUser atCall)) in
  if negb (truthy conversationTargetId) || String.eqb (currentUserId atCall) "" then s
  else
    clearUnreadForKey (buildDmNotificationKey (js_String conversationTargetId))
      (clearUnreadForKey (buildRoomNotificationKey (js_String conversationTargetId))
         (setReplyToMessage (λ _, JNull) (setMessages (λ _, []) s))).

(** [handleDeleteMessage]: the guard reads the current user of [atCall],
    the state the handler was called in; the setters run once the request
    has succeeded, on the state [s] of that moment. *)
Definition handleDeleteMessage (atCall : State) (message : jsval) (s : State) : State :=
  let messageId := if truthy (get "_id" message) then js_String (get "_id" message) else "" in
  if String.eqb messageId "" || String.eqb (currentUserId atCall) "" then s
  else applyDeletion messageId s.

(** The cleanup of the socket effect: [processedRealtimeMessageIds.clear()] *)
Definition disconnect (s : State) : State := setProcessed (λ _, []) s.

(** The [storage] listener (lines 632-651) assigns [currentUserId]; when the
    id changed, the socket effect is cleaned up and the polling effect runs
    again. *)
Definition syncAuthSession (userId : string) (s : State) : State :=
  if String.eqb userId (currentUserId s) then s
  else
    let s := disconnect (setCurrentUserId userId s) in
    if negb (truthy (selectedRoom s)) && negb (truthy (selectedUser s))
    then setMessages (λ _, []) s else s.

(** One step of the conversation state.  [accept] says which snapshots the
    message endpoint may answer with.  The steps are all the places that
    assign the message list, the reply composer, the unread counters, the
    key reference or the processed-event cache; the room list and the
    emits of [conversation:join] and [conversation:leave] are left out.
    A handler that waits for a request has read its guard in the state it
    was called in, [atCall], and its setters run in the state the answer
    finds; the relation lets [atCall] be any state. *)
Inductive step (accept : list obj → Prop) : State → State → Prop :=
| step_new_message payload s : step accept s (onNewMessage payload s)
| step_reaction_updated payload s : step accept s (onReactionUpdated payload s)
| step_message_deleted payload s : step accept s (onMessageDeleted payload s)
| step_conversation_cleared payload s : step accept s (onConversationCleared payload s)
| step_room_removed roomId s : step accept s (removeRoomFromUi roomId s)
| step_fetch atCall response s :
    fetches atCall = true → accept (default [] response) →
    step accept s (fetchMessages response s)
| step_select room user s : step accept s (select room user s)
| step_clear_unread key s : step accept s (clearUnreadForKey key s)
| step_react messageId reactions s :
    step accept s (handleReactToMessage messageId reactions s)
| step_delete atCall message s : step accept s (handleDeleteMessage atCall message s)
| step_clear_active atCall s : step accept s (handleClearActiveConversation atCall s)
| step_disconnect s : step accept s (disconnect s)
| step_session userId s : step accept s (syncAuthSession userId s)
| step_reply reply s : step accept s (setReplyToMessage (λ _, reply) s).

(** The states the component can be in after it mounted for [userId]. *)
Inductive reachable (accept : list obj → Prop) (userId : string) : State → Prop :=
| reachable_initial : reachable accept userId (initial userId)
| reachable_step s s' :
    reachable accept userId s → step accept s s' → reachable accept userId s'.

End Chat.

(** ** Call signalling (chatpage.jsx, lines 73-143, 653-669, 814-888, 1431-1523) *)

Module Call.

Inductive CallStatus := idle | incoming | outgoing | connecting | connected.

Inductive CallType := audio | video.

Record CallState := {
  status : CallStatus;
  callType : CallType;
  peerUserId : string;
  peerName : jsval;
  callId : jsval;
  error : string
}.

Definition INITIAL_CALL_STATE : CallState :=
  {| status := idle; callType := audio; peerUserId := ""; peerName := JStr "";
     callId := JStr ""; error := "" |}.

Record SessionDescription := { type : string; sdp : string }.

Record IceCandidate := {
  candidate : string;
  sdpMid : option string;
  sdpMLineIndex : option Z;
  usernameFragment : option string
}.

(** The connection object, as far as the handlers observe it: the remote
    description and the candidates handed to [addIceCandidate], in call
    order.  A rejected [addIceCandidate] is caught and logged at both call
    sites, so its outcome does not reach the state. *)
Record PeerConnection := {
  remoteDescription : option SessionDescription;
  addIceCandidateCalls : list IceCandidate
}.

Record PendingCall := {
  fromUserId : string;
  pendingCallType : CallType;
  pendingCallId : jsval;
  offer : SessionDescription;
  pendingPeerName : jsval
}.

(** An event handed to [socket.emit]. *)
Inductive Emitted :=
| call_end (toUserId : string) (callId : jsval) (reason : string).

(** What the browser contributes to one handler run: the clock and the
    random digits of [buildCallId], whether [new RTCIceCandidate(init)]
    accepts its argument, and whether [setRemoteDescription] resolves. *)
Record Host := {
  now : Z;
  random : string;
  newRTCIceCandidate : IceCandidate → bool;
  setRemoteDescription : PeerConnection → SessionDescription → bool
}.

(** The references and the React state of the call.  Media streams are
    opaque handles; [emitted] is the log of [socket.emit], the socket being
    connected for as long as the handlers are registered. *)
Record State := {
  callState : CallState;
  localStream : option nat;
  remoteStream : option nat;
  isMicMuted : bool;
  isCameraOff : bool;
  peerConnectionRef : option PeerConnection;
  localStreamRef : option nat;
  remoteStreamRef : option nat;
  pendingIncomingCallRef : option PendingCall;
  queuedIceCandidatesRef : list IceCandidate;
  activeCallPeerIdRef : string;
  activeCallIdRef : jsval;
  activeCallTypeRef : CallType;
  usersRef : list obj;
  emitted : list Emitted
}.

Definition normalizeCallType (callType : jsval) : CallType :=
  if strict_eq callType (JStr "video") then video else audio.

Definition buildCallId (h : Host) (userId : string) : string :=
  userId +:+ "-" +:+ pretty (now h) +:+ "-" +:+ random h.

Definition normalizeSessionDescription (description : jsval) : option SessionDescription :=
  if negb (truthy description) || negb (is_object description) then None
  else
    let type :=
      if strict_eq (get "type" description) (JStr "offer")
         || strict_eq (get "type" description) (JStr "answer")
      then js_String (get "type" description) else "" in
    let sdp := match get "sdp" description with JStr text => text | _ => "" end in
    if String.eqb type "" || String.eqb sdp "" then None
    else Some {| type := type; sdp := sdp |}.

(** An inbound candidate is a JSON value, so it has no [toJSON] method and
    is its own serialisation. *)
Definition normalizeIceCandidatePayload (candidate : jsval) : option IceCandidate :=
  if negb (truthy candidate) then None
  else
    let serializedCandidate := candidate in
    if negb (truthy serializedCandidate) || negb (is_object serializedCandidate) then None
    else
      let candidateValue :=
        trim (js_String (or_else (get "candidate" serializedCandidate) (JStr ""))) in
      if String.eqb candidateValue "" then None
      else
        Some {| candidate := candidateValue;
                sdpMid := match get "sdpMid" serializedCandidate with
                          | JStr mid => Some mid | _ => None end;
                sdpMLineIndex := match get "sdpMLineIndex" serializedCandidate with
                                 | JNum line => Some line | _ => None end;
                usernameFragment := match get "usernameFragment" serializedCandidate with
                                    | JStr fragment => Some fragment | _ => None end |}.

Definition getUserDisplayName (user : jsval) : jsval :=
  if negb (truthy user) then JStr "Unknown"
  else
    or_else (get "displayName" user)
      (or_else (get "username" user)
         (or_else (get "name" user) (or_else (get "email" user) (JStr "Unknown")))).

Definition resolvePeerName (s : State) (peerUserId : string) (fallbackName : jsval) : jsval :=
  if truthy fallbackName then fallbackName
  else
    match find (λ user, String.eqb (msg_id user) peerUserId) (usersRef s) with
    | Some matchedUser => getUserDisplayName (JObj matchedUser)
    | None =>
        if negb (String.eqb peerUserId "")
        then JStr ("User " +:+ slice_last 4 peerUserId)
        else JStr "Unknown"
    end.

(** [socket.emit(...)] *)
Definition emit (e : Emitted) (s : State) : State :=
  {| callState := callState s; localStream := localStream s;
     remoteStream := remoteStream s; isMicMuted := isMicMuted s;
     isCameraOff := isCameraOff s; peerConnectionRef := peerConnectionRef s;
     localStreamRef := localStreamRef s; remoteStreamRef := remoteStreamRef s;
     pendingIncomingCallRef := pendingIncomingCallRef s;
     queuedIceCandidatesRef := queuedIceCandidatesRef s;
     activeCallPeerIdRef := activeCallPeerIdRef s; activeCallIdRef := activeCallIdRef s;
     activeCallTypeRef := activeCallTypeRef s; usersRef := usersRef s;
     emitted := emitted s ++ [e] |}.

Definition setCallState (f : CallState → CallState) (s : State) : State :=
  {| callState := f (callState s); localStream := localStream s;
     remoteStream := remoteStream s; isMicMuted := isMicMuted s;
     isCameraOff := isCameraOff s; peerConnectionRef := peerConnectionRef s;
     localStreamRef := localStreamRef s; remoteStreamRef := remoteStreamRef s;
     pendingIncomingCallRef := pendingIncomingCallRef s;
     queuedIceCandidatesRef := queuedIceCandidatesRef s;
     activeCallPeerIdRef := activeCallPeerIdRef s; activeCallIdRef := activeCallIdRef s;
     activeCallTypeRef := activeCallTypeRef s; usersRef := usersRef s;
     emitted := emitted s |}.

(** Assigns the connection object and the candidate queue. *)
Definition setConnection (pc : option PeerConnection) (queue : list IceCandidate)
    (s : State) : State :=
  {| callState := callState s; localStream := localStream s;
     remoteStream := remoteStream s; isMicMuted := isMicMuted s;
     isCameraOff := isCameraOff s; peerConnectionRef := pc;
     localStreamRef := localStreamRef s; remoteStreamRef := remoteStreamRef s;
     pendingIncomingCallRef := pendingIncomingCallRef s;
     queuedIceCandidatesRef := queue;
     activeCallPeerIdRef := activeCallPeerIdRef s; activeCallIdRef := activeCallIdRef s;
     activeCallTypeRef := activeCallTypeRef s; usersRef := usersRef s;
     emitted := emitted s |}.

(** [resetCallSession]: the connection is closed and the tracks of both
    streams are stopped before the references are dropped. *)
Definition resetCallSession (errorMessage : string) (skipStateUpdate : bool) (s : State)
  : State :=
  {| callState :=
       if skipStateUpdate then callState s
       else {| status := status INITIAL_CALL_STATE;
               callType := callType INITIAL_CALL_STATE;
               peerUserId := peerUserId INITIAL_CALL_STATE;
               peerName := peerName INITIAL_CALL_STATE;
               callId := callId INITIAL_CALL_STATE;
               error := errorMessage |};
     localStream := if skipStateUpdate then localStream s else None;
     remoteStream := if skipStateUpdate then remoteStream s else None;
     isMicMuted := if skipStateUpdate then isMicMuted s else false;
     isCameraOff := if skipStateUpdate then isCameraOff s else false;
     peerConnectionRef := None;
     localStreamRef := None;
     remoteStreamRef := None;
     pendingIncomingCallRef := None;
     queuedIceCandidatesRef := [];
     activeCallPeerIdRef := "";
     activeCallIdRef := JStr "";
     activeCallTypeRef := audio;
     usersRef := usersRef s;
     emitted := emitted s |}.

Definition flushQueuedIceCandidates (s : State) : State :=
  match peerConnectionRef s with
  | Some peerConnection =>
      match remoteDescription peerConnection with
      | Some description =>
          let queuedCandidates := queuedIceCandidatesRef s in
          setConnection
            (Some {| remoteDescription := Some description;
                     addIceCandidateCalls := addIceCandidateCalls peerConnection ++ queuedCandidates |})
            [] s
      | None => s
      end
  | None => s
  end.

Definition endActiveCall (notifyPeer : bool) (reason errorMessage : string)
    (skipStateUpdate : bool) (s : State) : State :=
  let s :=
    if notifyPeer && negb (String.eqb (activeCallPeerIdRef s) "")
    then emit (call_end (activeCallPeerIdRef s)
                 (or_else (activeCallIdRef s) JNull) reason) s
    else s in
  resetCallSession errorMessage skipStateUpdate s.

(** [Boolean(pendingIncomingCallRef.current || activeCallPeerIdRef.current
    || peerConnectionRef.current)] *)
Definition hasActiveCall (s : State) : bool :=
  bool_decide (is_Some (pendingIncomingCallRef s))
  || negb (String.eqb (activeCallPeerIdRef s) "")
  || bool_decide (is_Some (peerConnectionRef s)).

(** [payload?.fromUserId ? String(payload.fromUserId) : ""] *)
Definition offerSender (payload : jsval) : string :=
  if truthy (get "fromUserId" payload) then js_String (get "fromUserId" payload) else "".

(** [payload?.callId || buildCallId(fromUserId)] *)
Definition offerCallId (h : Host) (payload : jsval) : jsval :=
  if truthy (get "callId" payload) then get "callId" payload
  else JStr (buildCallId h (offerSender payload)).

(** [onCallOffer]; the two outer cases are the guard
    [!fromUserId || !normalizedOffer]. *)
Definition onCallOffer (h : Host) (payload : jsval) (s : State) : State :=
  let fromUserId := offerSender payload in
  match normalizeSessionDescription (get "offer" payload) with
  | None => s
  | Some normalizedOffer =>
      if String.eqb fromUserId "" then s
      else
        let incomingCallType := normalizeCallType (get "callType" payload) in
        let incomingCallId := offerCallId h payload in
        let peerName :=
          resolvePeerName s fromUserId (or_else (get "fromUserName" payload) (JStr "")) in
        if hasActiveCall s
        then emit (call_end fromUserId incomingCallId "busy") s
        else
          {| callState :=
               {| status := incoming; callType := incomingCallType;
                  peerUserId := fromUserId; peerName := peerName;
                  callId := incomingCallId; error := "" |};
             localStream := localStream s;
             remoteStream := remoteStream s;
             isMicMuted := isMicMuted s;
             isCameraOff := isCameraOff s;
             peerConnectionRef := peerConnectionRef s;
             localStreamRef := localStreamRef s;
             remoteStreamRef := remoteStreamRef s;
             pendingIncomingCallRef :=
               Some {| fromUserId := fromUserId; pendingCallType := incomingCallType;
                       pendingCallId := incomingCallId; offer := normalizedOffer;
                       pendingPeerName := peerName |};
             queuedIceCandidatesRef := [];
             activeCallPeerIdRef := fromUserId;
             activeCallIdRef := incomingCallId;
             activeCallTypeRef := incomingCallType;
             usersRef := usersRef s;
             emitted := emitted s |}
  end.

(** [{ ...previous, status }] *)
Definition withStatus (status' : CallStatus) (previous : CallState) : CallState :=
  {| status := status'; callType := callType previous;
     peerUserId := peerUserId previous; peerName := peerName previous;
     callId := callId previous; error := error previous |}.

(** [payload?.callId && activeCallIdRef.current &&
    String(payload.callId) !== String(activeCallIdRef.current)] *)
Definition callIdMismatch (payload : jsval) (s : State) : bool :=
  truthy (get "callId" payload)
  && truthy (activeCallIdRef s)
  && negb (String.eqb (js_String (get "callId" payload)) (js_String (activeCallIdRef s))).

Definition onCallAnswer (h : Host) (payload : jsval) (s : State) : State :=
  if callIdMismatch payload s then s
  else
    match peerConnectionRef s, normalizeSessionDescription (get "answer" payload) with
    | Some peerConnection, Some normalizedAnswer =>
        if setRemoteDescription h peerConnection normalizedAnswer
        then
          let s :=
            setConnection
              (Some {| remoteDescription := Some normalizedAnswer;
                       addIceCandidateCalls := addIceCandidateCalls peerConnection |})
              (queuedIceCandidatesRef s) s in
          let s := flushQueuedIceCandidates s in
          setCallState (λ previous,
              match status previous with
              | incoming => previous
              | _ => withStatus connecting previous
              end) s
        else endActiveCall false "ended" "Failed to connect call." false s
    | _, _ => s
    end.

Definition onCallIceCandidate (h : Host) (payload : jsval) (s : State) : State :=
  match normalizeIceCandidatePayload (get "candidate" payload) with
  | None => s
  | Some normalizedCandidate =>
      if callIdMismatch payload s then s
      else if negb (newRTCIceCandidate h normalizedCandidate) then s
      else
        let candidate := normalizedCandidate in
        match peerConnectionRef s with
        | Some peerConnection =>
            match remoteDescription peerConnection with
            | Some description =>
                setConnection
                  (Some {| remoteDescription := Some description;
                           addIceCandidateCalls := addIceCandidateCalls peerConnection ++ [candidate] |})
                  (queuedIceCandidatesRef s) s
            | None =>
                setConnection (peerConnectionRef s) (queuedIceCandidatesRef s ++ [candidate]) s
            end
        | None =>
            setConnection (peerConnectionRef s) (queuedIceCandidatesRef s ++ [candidate]) s
        end
  end.

End Call.

(** ** The specification's reading of a session description *)

(** A description is malformed when its type is not exactly "offer" or
    "answer", or when its sdp is absent or not a non-empty string. *)
Definition malformed_description (description : jsval) : Prop :=
  (get "type" description ≠ JStr "offer" ∧ get "type" description ≠ JStr "answer")
  ∨ ¬ (∃ text, get "sdp" description = JStr text ∧ text ≠ "").

(** ** The specification's reading of the ICE candidate queue *)

(** The handler run over a sequence of inbound call:ice-candidate events,
    in arrival order. *)
Definition receiveIceCandidates (h : Call.Host) (payloads : list jsval) (s : Call.State)
  : Call.State :=
  foldl (λ s payload, Call.onCallIceCandidate h payload s) s payloads.

(** The candidate an event carries, if it carries one: a payload that
    normalises and that the browser's constructor takes. *)
Definition carriedCandidate (h : Call.Host) (payload : jsval) : option Call.IceCandidate :=
  match Call.normalizeIceCandidatePayload (get "candidate" payload) with
  | Some init => if Call.newRTCIceCandidate h init then Some init else None
  | None => None
  end.

(** No remote description is set: there is no connection object yet, or
    its remote description is still null. *)
Definition remoteDescriptionUnset (s : Call.State) : Prop :=
  match Call.peerConnectionRef s with
  | Some pc => Call.remoteDescription pc = None
  | None => True
  end.

(** The event is for the active call. *)
Definition callIdMatches (s : Call.State) (payload : jsval) : Prop :=
  js_String (get "callId" payload) = js_String (Call.activeCallIdRef s).

(** ** The specification's reading of "field-equal" (spec, section 4.2) *)

(** Two field values are identical: the same primitive value. *)
Definition identical (a b : jsval) : Prop := strict_eq a b = true.

(** The indexable elements of a value: the items of an array, the
    characters of a string, the indexed properties of an object that has a
    length. *)
Definition elements (v : jsval) : option (list jsval) :=
  match v with
  | JArr items => Some items
  | JStr s => Some ((λ c, JStr (String.String c "")) <$> String.list_ascii_of_string s)
  | JObj fields =>
      match assoc "length" fields with
      | JNum n =>
          if (0 <=? n)%Z
          then Some ((λ i : nat, assoc (pretty i) fields) <$> seq 0 (Z.to_nat n))
          else None
      | _ => None
      end
  | _ => None
  end.

(** The reaction list of a message, each reaction as its (user, emoji)
    pair; a missing list is the empty list. *)
Definition reaction_list (message : obj) : option (list Reaction) :=
  match elements (or_else (assoc "reactions" message) (JArr [])) with
  | Some items => Some (normalizeReaction <$> items)
  | None => None
  end.

(** Two (user, emoji) pairs are equal. *)
Definition same_reaction (left right : Reaction) : Prop :=
  user left = user right ∧ identical (emoji left) (emoji right).

(** The reply preview of a message: (id, body, sender id, timestamp) of
    the quoted message, or nothing. *)
Definition reply_preview (message : obj) : option (string * string * string * string) :=
  let replyTo := assoc "replyTo" message in
  if truthy replyTo && is_object replyTo
  then Some (toId replyTo,
             js_String (or_else (get "messageContent" replyTo) (JStr "")),
             toId (get "senderUserId" replyTo),
             js_String (or_else (get "createdAt" replyTo) (JStr "")))
  else None.

(** Field equality of two messages: identical id, body, type, read status,
    created and updated timestamps, sender id, reply preview, and reaction
    lists of the same length whose pairs are equal position by position. *)
Record field_equal (previous next : obj) : Prop := {
  same_id : msg_id previous = msg_id next;
  same_body : identical (assoc "messageContent" previous) (assoc "messageContent" next);
  same_type : identical (assoc "messageType" previous) (assoc "messageType" next);
  same_read_status : identical (assoc "readStatus" previous) (assoc "readStatus" next);
  same_created :
    js_String (assoc "createdAt" previous) = js_String (assoc "createdAt" next);
  same_updated :
    js_String (assoc "updatedAt" previous) = js_String (assoc "updatedAt" next);
  same_sender : toId (assoc "senderUserId" previous) = toId (assoc "senderUserId" next);
  same_reply : reply_preview previous = reply_preview next;
  same_reactions :
    ∃ left right,
      reaction_list previous = Some left ∧ reaction_list next = Some right
      ∧ Forall2 same_reaction left right
}.


(** ** The specification's reading of the router (spec, section 4.3) *)

(** The router classifies a pushed message to [key]: the event carries a
    message id, the id is not in the processed-event cache (a repeat is
    discarded before any classification), and the conversation key
    computed from sender, target and current user is [key]. *)
Definition classified (s : Chat.State) (payload : jsval) (key : string) : Prop :=
  Chat.pushedMessageId payload ≠ ""
  ∧ (Chat.pushedMessageId payload ∉ Chat.processedRealtimeMessageIds s)
  ∧ Chat.getMessageNotificationKey s (Chat.pushedMessage payload) = key
  ∧ key ≠ "".

(** ** Invariants of the conversation state *)

(** What the notification router keeps true: the processed-event cache
    holds at most 500 ids; every unread entry is a positive count filed
    under a non-empty key; the key reference follows the selection; and no
    entry is filed under the active key. *)
Record router_invariant (s : Chat.State) : Prop := {
  cache_bounded : length (Chat.processedRealtimeMessageIds s) ≤ 500;
  unread_positive : ∀ key count, Chat.unreadCounts s !! key = Some count → 0 < count;
  unread_named : Chat.unreadCounts s !! "" = None;
  key_in_sync : Chat.activeNotificationKeyRef s = Chat.activeNotificationKey s;
  active_not_unread : Chat.unreadCounts s !! Chat.activeNotificationKeyRef s = None
}.

(** The ids of a list of in-memory messages, in list order. *)
Definition ids_of (l : list mref) : list string := (λ e, msg_id (val e)) <$> l.

(** Every message object in the list was handed out by the allocator. *)
Definition addresses_allocated (s : Chat.State) : Prop :=
  Forall (λ e, addr e < Chat.nextAddr s) (Chat.messages s).

(** A snapshot in which no two messages have the same id. *)
Definition distinct_snapshot (snapshot : list obj) : Prop := NoDup (msg_id <$> snapshot).

(** Any snapshot at all. *)
Definition any_snapshot (snapshot : list obj) : Prop := True.

(** ** The updates of the message list *)

(** Every way a step changes the message list and the allocator: it leaves
    them alone, empties the list, appends one message under a new id,
    replaces reactions, deletes a message, or reconciles a snapshot. *)
Inductive list_update (accept : list obj → Prop)
  : list mref * nat → list mref * nat → Prop :=
| update_none l n : list_update accept (l, n) (l, n)
| update_clear l n : list_update accept (l, n) ([], n)
| update_append l n m :
    Chat.hasMessage (msg_id m) l = false →
    list_update accept (l, n) (l ++ [ {| addr := n; val := normalizeMessage m |} ], n + 1)
| update_reactions l n id reactions :
    list_update accept (l, n) (Chat.replaceReactions n id reactions l, n + length l)
| update_deletion l n id :
    list_update accept (l, n)
      (Chat.dropReplyTo n id (filter (λ e, msg_id (val e) ≠ id) l),
       n + length (filter (λ e, msg_id (val e) ≠ id) l))
| update_reconcile l n snapshot :
    accept snapshot →
    list_update accept (l, n) (reconcileMessages n l snapshot, n + length snapshot).


(** ** Sample inputs *)

Module Sample.
Import Call.

Definition host : Host :=
  {| now := 1700000000000;
     random := "k3x9q2";
     newRTCIceCandidate := λ init,
       bool_decide (is_Some (sdpMid init) ∨ is_Some (sdpMLineIndex init));
     setRemoteDescription := λ _ _, true |}.

Definition idle_session : State :=
  {| callState := INITIAL_CALL_STATE;
     localStream := None; remoteStream := None;
     isMicMuted := false; isCameraOff := false;
     peerConnectionRef := None; localStreamRef := None; remoteStreamRef := None;
     pendingIncomingCallRef := None; queuedIceCandidatesRef := [];
     activeCallPeerIdRef := ""; activeCallIdRef := JStr "";
     activeCallTypeRef := audio; usersRef := []; emitted := [] |}.

(** The caller's side after [handleStartCall] created the connection for
    call "alice-1-abc" to bob and before any answer arrived. *)
Definition outgoing_session : State :=
  {| callState :=
       {| status := outgoing; callType := audio; peerUserId := "bob";
          peerName := JStr "Bob"; callId := JStr "alice-1-abc"; error := "" |};
     localStream := Some 1; remoteStream := None;
     isMicMuted := false; isCameraOff := false;
     peerConnectionRef := Some {| remoteDescription := None; addIceCandidateCalls := [] |};
     localStreamRef := Some 1; remoteStreamRef := None;
     pendingIncomingCallRef := None; queuedIceCandidatesRef := [];
     activeCallPeerIdRef := "bob"; activeCallIdRef := JStr "alice-1-abc";
     activeCallTypeRef := audio; usersRef := []; emitted := [] |}.

(** The caller's side once bob's answer was applied. *)
Definition connecting_session : State :=
  onCallAnswer host
    (JObj [ ("fromUserId", JStr "bob"); ("callId", JStr "alice-1-abc");
            ("answer", JObj [("type", JStr "answer"); ("sdp", JStr "v=0")]) ])
    outgoing_session.

(** A browser whose connection refuses every remote description. *)
Definition refusing_host : Host :=
  {| now := 1700000000000;
     random := "k3x9q2";
     newRTCIceCandidate := λ _, true;
     setRemoteDescription := λ _ _, false |}.

Definition good_offer : jsval :=
  JObj [ ("fromUserId", JStr "carol"); ("callType", JStr "video");
         ("callId", JStr "carol-7-zz"); ("fromUserName", JStr "Carol");
         ("offer", JObj [("type", JStr "offer"); ("sdp", JStr "v=0")]) ].

(** An offer whose description has no sdp. *)
Definition offer_without_sdp : jsval :=
  JObj [ ("fromUserId", JStr "carol"); ("callId", JStr "carol-7-zz");
         ("offer", JObj [("type", JStr "offer")]) ].

(** An offer from dave that names no call id. *)
Definition second_offer : jsval :=
  JObj [ ("fromUserId", JStr "dave");
         ("offer", JObj [("type", JStr "offer"); ("sdp", JStr "v=1")]) ].

Definition good_answer : jsval :=
  JObj [ ("fromUserId", JStr "bob"); ("callId", JStr "alice-1-abc");
         ("answer", JObj [("type", JStr "answer"); ("sdp", JStr "v=0")]) ].

Definition stale_answer : jsval :=
  JObj [ ("fromUserId", JStr "bob"); ("callId", JStr "alice-0-old");
         ("answer", JObj [("type", JStr "answer"); ("sdp", JStr "v=0")]) ].

(** An answer for the active call whose description has an empty sdp. *)
Definition answer_with_empty_sdp : jsval :=
  JObj [ ("fromUserId", JStr "bob"); ("callId", JStr "alice-1-abc");
         ("answer", JObj [("type", JStr "answer"); ("sdp", JStr "")]) ].

Definition ice (line : string) : jsval :=
  JObj [ ("fromUserId", JStr "bob"); ("callId", JStr "alice-1-abc");
         ("candidate", JObj [("candidate", JStr line); ("sdpMid", JStr "0");
                             ("sdpMLineIndex", JNum 0)]) ].

End Sample.

Module SampleChat.
Import Chat.

Definition message (id sender target body : string) : obj :=
  [ ("_id", JStr id); ("senderUserId", JStr sender);
    ("receiverUserIdOrRoomId", JStr target); ("messageContent", JStr body);
    ("messageType", JStr "text"); ("readStatus", JBool false);
    ("createdAt", JStr "2024-05-01T10:00:00.000Z");
    ("updatedAt", JStr "2024-05-01T10:00:00.000Z"); ("reactions", JArr []) ].

Definition push (m : obj) : jsval := JObj [("message", JObj m)].

Definition room (id : string) : jsval := JObj [("_id", JStr id); ("name", JStr "general")].

(** alice, just mounted *)
Definition mounted : State := initial "alice".

(** alice with room r1 open *)
Definition in_room : State := select (room "r1") JNull mounted.

(** alice with room r1 open and one unread message from bob in room r2 *)
Definition with_unread : State :=
  onNewMessage (push (message "m7" "bob" "r2" "hi")) in_room.

(** A state whose processed-event cache is full: the ids "0" to "499". *)
Definition full_cache : State :=
  setProcessed (λ _, (λ n : nat, pretty n) <$> seq 0 500) in_room.

End SampleChat.

Module SampleMessages.

Definition m1 : obj := SampleChat.message "m1" "bob" "r1" "hello".
Definition m2 : obj := SampleChat.message "m2" "carol" "r1" "hi all".

(** [m2] after carol edited it *)
Definition m2_edited : obj := SampleChat.message "m2" "carol" "r1" "hi all!".

(** The in-memory objects for [m1] and [m2], allocated at 0 and 1. *)
Definition e1 : mref := {| addr := 0; val := normalizeMessage m1 |}.
Definition e2 : mref := {| addr := 1; val := normalizeMessage m2 |}.

(** alice with room r1 open and [m1], [m2] in the list *)
Definition listed : Chat.State :=
  Chat.fetchMessages (Some [m1; m2]) SampleChat.in_room.

(** alice with room r1 open after a poll that answered two versions of
    [m2]: the list holds both, at addresses 0 and 1. *)
Definition two_versions : Chat.State :=
  Chat.fetchMessages (Some [m2; m2_edited]) SampleChat.in_room.

(** alice with room r1 open after a poll that answered [m1] twice *)
Definition doubled : Chat.State :=
  Chat.fetchMessages (Some [m1; m1]) SampleChat.in_room.

End SampleMessages.

(** ** Further call handlers (chatpage.jsx, lines 931-975, 1137-1150, 1525-1542) *)

Module CallHandlers.
Import Call.

(** [onCallEnd] *)
Definition onCallEnd (payload : jsval) (s : State) : State :=
  if callIdMismatch payload s then s
  else
    let reason := or_else (get "reason" payload) (JStr "ended") in
    if strict_eq reason (JStr "busy")
    then endActiveCall false "ended" "User is busy on another call." false s
    else if strict_eq reason (JStr "declined")
    then endActiveCall false "ended" "Call declined." false s
    else endActiveCall false "ended" "" false s.

(** [handleDeclineIncomingCall] *)
Definition handleDeclineIncomingCall (s : State) : State :=
  match pendingIncomingCallRef s with
  | None => s
  | Some pendingCall =>
      endActiveCall false "ended" "" false
        (emit (call_end (fromUserId pendingCall)
                 (or_else (pendingCallId pendingCall) JNull) "declined") s)
  end.

(** The [onconnectionstatechange] handler that [createPeerConnection]
    installs, run for the reported [connectionState]. *)
Definition onconnectionstatechange (state : string) (s : State) : State :=
  if String.eqb state "connected" then setCallState (withStatus connected) s
  else if String.eqb state "failed"
  then endActiveCall false "failed"
         "Call connection failed. Check your network or TURN server settings." false s
  else if String.eqb state "disconnected"
  then setCallState (λ previous,
           match status previous with
           | connected => withStatus connecting previous
           | _ => previous
           end) s
  else if String.eqb state "closed" then endActiveCall false state "" false s
  else s.

(** The [oniceconnectionstatechange] handler, run for the reported
    [iceConnectionState]. *)
Definition oniceconnectionstatechange (iceState : string) (s : State) : State :=
  if String.eqb iceState "connected" || String.eqb iceState "completed"
  then setCallState (withStatus connected) s
  else if String.eqb iceState "failed"
  then endActiveCall false "failed"
         "Call connection failed. Check your network or TURN server settings." false s
  else s.

(** [{ type, sdp }], the object a normalised description is sent as. *)
Definition descriptionObject (description : SessionDescription) : jsval :=
  JObj [("type", JStr (type description)); ("sdp", JStr (sdp description))].

(** The object a normalised candidate is sent as: [candidate] and those of
    the three optional members that were set. *)
Definition candidateObject (c : IceCandidate) : jsval :=
  JObj ([("candidate", JStr (candidate c))]
        ++ from_option (λ mid, [("sdpMid", JStr mid)]) [] (sdpMid c)
        ++ from_option (λ line, [("sdpMLineIndex", JNum line)]) [] (sdpMLineIndex c)
        ++ from_option (λ fragment, [("usernameFragment", JStr fragment)]) []
             (usernameFragment c)).

(** The session every teardown ends in: what [resetCallSession] leaves,
    with [errorMessage] on display. *)
Definition torn_down (errorMessage : string) (s : State) : Prop :=
  status (callState s) = idle
  ∧ error (callState s) = errorMessage
  ∧ peerConnectionRef s = None
  ∧ pendingIncomingCallRef s = None
  ∧ queuedIceCandidatesRef s = []
  ∧ activeCallPeerIdRef s = ""
  ∧ activeCallIdRef s = JStr ""
  ∧ localStreamRef s = None
  ∧ remoteStreamRef s = None.

End CallHandlers.


(** ** White space, on lists of bytes *)

(** The list starts with a character that [w1], [w2] or [w3] takes. *)
Definition starts_with (w1 : Ascii.ascii → bool) (w2 : Ascii.ascii → Ascii.ascii → bool)
    (w3 : Ascii.ascii → Ascii.ascii → Ascii.ascii → bool) (l : list Ascii.ascii) : bool :=
  match l with
  | a :: r1 =>
      w1 a
      || match r1 with
         | b :: r2 => w2 a b || match r2 with c :: _ => w3 a b c | [] => false end
         | [] => false
         end
  | [] => false
  end.


(** ** Room list (chatpage.jsx, lines 346-352, 1374-1429, 1692-1693) *)

Module Rooms.

Definition isRoomMember (room : jsval) (userId : string) : bool :=
  if negb (truthy room) || negb (is_array (get "members" room)) || String.eqb userId ""
  then false
  else
    match get "members" room with
    | JArr members => existsb (λ member, String.eqb (toId member) userId) members
    | _ => false
    end.

(** The conversation state together with the room list of the sidebar.
    The handlers read [room._id] of every listed room, which throws for
    [null]; the list only ever holds rooms that passed [isRoomMember]
    ([listed] below), and those are objects. *)
Record State := {
  chat : Chat.State;
  rooms : list jsval
}.

(** [String(room._id)] *)
Definition room_id (room : jsval) : string := js_String (get "_id" room).

(** [setRooms(nextRooms.filter((room) => isRoomMember(room, currentUserId)))],
    when the room endpoint has answered with [data]. *)
Definition loadRooms (data : jsval) (s : State) : State :=
  let nextRooms := match data with JArr items => items | _ => [] end in
  {| chat := chat s;
     rooms := filter (λ room, isRoomMember room (Chat.currentUserId (chat s)) = true)
                nextRooms |}.

(** [removeRoomFromUi] with its three setters: the room list here, the
    selection and the counters in [Chat.removeRoomFromUi]. *)
Definition removeRoomFromUi (roomId : jsval) (s : State) : State :=
  if negb (truthy roomId) then s
  else
    {| chat := Chat.removeRoomFromUi roomId (chat s);
       rooms := filter (λ room, room_id room ≠ js_String roomId) (rooms s) |}.

(** [onRoomMembershipChanged]; the selected room is assigned only when it
    is the updated room. *)
Definition onRoomMembershipChanged (payload : jsval) (s : State) : State :=
  let updatedRoom := get "room" payload in
  if negb (truthy (get "_id" updatedRoom)) then s
  else if negb (isRoomMember updatedRoom (Chat.currentUserId (chat s)))
  then removeRoomFromUi (get "_id" updatedRoom) s
  else
    let exists_ :=
      existsb (λ room, String.eqb (room_id room) (room_id updatedRoom)) (rooms s) in
    {| chat :=
         (let previous := Chat.selectedRoom (chat s) in
          if truthy previous && String.eqb (room_id previous) (room_id updatedRoom)
          then Chat.select updatedRoom (Chat.selectedUser (chat s)) (chat s)
          else chat s);
       rooms :=
         if negb exists_ then updatedRoom :: rooms s
         else map (λ room,
                  if String.eqb (room_id room) (room_id updatedRoom)
                  then updatedRoom else room) (rooms s) |}.

Definition onRoomRemoved (payload : jsval) (s : State) : State :=
  let roomId := or_else (get "roomId" payload) (get "_id" (get "room" payload)) in
  removeRoomFromUi roomId s.

(** What the room list is kept to: the current user is a member of every
    listed room, and no two listed rooms have the same id. *)
Record listed (s : State) : Prop := {
  members_only :
    Forall (λ room, isRoomMember room (Chat.currentUserId (chat s)) = true) (rooms s);
  ids_distinct : NoDup (room_id <$> rooms s)
}.

End Rooms.

(** ** Conversation channel (chatpage.jsx, lines 168-170, 1235-1246, 1555-1571,
    1584-1621) *)

Module Channel.

(** [[userId1, userId2].sort()]: the default order puts [undefined] last
    and compares the other elements by their strings, character by
    character; the sort is stable. *)
Definition sort2 (a b : jsval) : list jsval :=
  match a, b with
  | JUndefined, _ => [b; a]
  | _, JUndefined => [a; b]
  | _, _ => if String.ltb (js_String b) (js_String a) then [b; a] else [a; b]
  end.

(** [items.join(":")] *)
Definition join_colon (items : list jsval) : string :=
  join ":" (map (λ x, match x with
                      | JUndefined | JNull => ""
                      | _ => js_String x
                      end) items).

Definition buildDmChannel (userId1 userId2 : jsval) : string :=
  "dm:" +:+ join_colon (sort2 userId1 userId2).

(** [useMemo] of lines 1584-1598; [None] is [null]. *)
Definition conversationChannel (s : Chat.State) : option string :=
  if String.eqb (Chat.currentUserId s) "" then None
  else if truthy (get "_id" (Chat.selectedRoom s))
  then Some ("room:" +:+ js_String (get "_id" (Chat.selectedRoom s)))
  else if truthy (get "_id" (Chat.selectedUser s))
  then Some (buildDmChannel (JStr (Chat.currentUserId s)) (get "_id" (Chat.selectedUser s)))
  else None.

Inductive Emitted :=
| conversation_leave (conversationId : string)
| conversation_join (conversationId : string).

(** [socketRef] holds the socket, here the log of what was emitted on it,
    or null; [joinedConversationRef] holds a channel or null. *)
Record State := {
  socketRef : option (list Emitted);
  joinedConversationRef : option string
}.

Definition initial : State := {| socketRef := None; joinedConversationRef := None |}.

(** A channel held by the reference is truthy when it is a non-empty string. *)
Definition truthy_channel (channel : option string) : bool :=
  match channel with Some c => negb (String.eqb c "") | None => false end.

(** The effect of lines 1600-1621, run for the channel [conversationChannel]. *)
Definition syncConversation (conversationChannel : option string) (s : State) : State :=
  match socketRef s with
  | None => s
  | Some log =>
      let previousConversation := joinedConversationRef s in
      let log :=
        if truthy_channel previousConversation
           && bool_decide (previousConversation ≠ conversationChannel)
        then log ++ [conversation_leave (default "" previousConversation)]
        else log in
      if truthy_channel conversationChannel
         && bool_decide (previousConversation ≠ conversationChannel)
      then {| socketRef := Some (log ++ [conversation_join (default "" conversationChannel)]);
              joinedConversationRef := conversationChannel |}
      else if negb (truthy_channel conversationChannel)
      then {| socketRef := Some log; joinedConversationRef := None |}
      else {| socketRef := Some log; joinedConversationRef := previousConversation |}
  end.

(** The socket effect (lines 1235-1246): a new socket, nothing emitted yet. *)
Definition connect (s : State) : State :=
  {| socketRef := Some []; joinedConversationRef := joinedConversationRef s |}.

(** Its cleanup (lines 1555-1571) *)
Definition cleanup (s : State) : State :=
  {| socketRef := None; joinedConversationRef := None |}.

(** The effects in the orders React runs them: the socket effect connects
    only at mount or after its cleanup; the channel effect runs for the
    channel of whatever the conversation state is at the time. *)
Inductive step : State → State → Prop :=
| step_connect s : socketRef s = None → step s (connect s)
| step_cleanup s : step s (cleanup s)
| step_channel chat s : step s (syncConversation (conversationChannel chat) s).

Inductive reachable : State → Prop :=
| reachable_initial : reachable initial
| reachable_step s s' : reachable s → step s s' → reachable s'.

(** The channels the server has the socket in after the events of a log:
    a join adds the channel, a leave removes it. *)
Definition joined_channels (log : list Emitted) : gset string :=
  foldl (λ channels event,
      match event with
      | conversation_join c => channels ∪ {[c]}
      | conversation_leave c => channels ∖ {[c]}
      end) ∅ log.

End Channel.

(** ** Unread badge (chatpage.jsx, lines 2315-2318) *)

(** [Object.values(unreadCounts).reduce((sum, count) => sum + count, 0)] *)
Definition totalUnreadCount (s : Chat.State) : nat :=
  map_fold (λ _ count sum, sum + count) 0 (Chat.unreadCounts s).

(** ** ICE servers (chatpage.jsx, lines 15-66) *)

Module IceServers.

Record IceServer := {
  urls : list string;
  username : option string;
  credential : option string
}.

Definition DEFAULT_WEBRTC_ICE_SERVERS : list IceServer :=
  [ {| urls := ["stun:stun.l.google.com:19302"; "stun:stun1.l.google.com:19302"];
       username := None; credential := None |};
    {| urls := ["stun:openrelay.metered.ca:80"]; username := None; credential := None |};
    {| urls := ["turn:openrelay.metered.ca:80"; "turn:openrelay.metered.ca:443";
                "turns:openrelay.metered.ca:443"];
       username := Some "openrelayproject"; credential := Some "openrelayproject" |} ].

(** [String(value || "").trim()] *)
Definition trimmed (value : jsval) : string := trim (js_String (or_else value (JStr ""))).

Definition normalizeIceServerConfig (rawServer : jsval) : option IceServer :=
  if negb (truthy rawServer) || negb (is_object rawServer) then None
  else
    let urls :=
      filter (λ url, url ≠ "")
        (map trimmed (match get "urls" rawServer with
                      | JArr items => items
                      | other => [other]
                      end)) in
    if length urls =? 0 then None
    else
      let username := trimmed (get "username" rawServer) in
      let credential := trimmed (get "credential" rawServer) in
      Some {| urls := urls;
              username := if negb (String.eqb username "") then Some username else None;
              credential := if negb (String.eqb credential "") then Some credential
                            else None |}.

(** [parseIceServersFromEnv]; [env] is [import.meta.env.VITE_WEBRTC_ICE_SERVERS]
    and [JSON_parse] answers [None] where [JSON.parse] throws. *)
Definition parseIceServersFromEnv (JSON_parse : string → option jsval) (env : jsval)
  : list IceServer :=
  let rawIceServers := trimmed env in
  if String.eqb rawIceServers "" then DEFAULT_WEBRTC_ICE_SERVERS
  else
    match JSON_parse rawIceServers with
    | Some parsed =>
        let normalized :=
          omap normalizeIceServerConfig
            (match parsed with JArr items => items | _ => [parsed] end) in
        if 0 <? length normalized then normalized else DEFAULT_WEBRTC_ICE_SERVERS
    | None => DEFAULT_WEBRTC_ICE_SERVERS
    end.

(** A server entry a peer connection can use: at least one url, every url
    a non-empty string without surrounding white space, and no empty user
    name or credential. *)
Definition usable (server : IceServer) : Prop :=
  urls server ≠ []
  ∧ Forall (λ url, url ≠ "" ∧ trim url = url) (urls server)
  ∧ username server ≠ Some ""
  ∧ credential server ≠ Some "".

End IceServers.

(** ** Lengths and cuts in UTF-16 code units *)

(** U+00A0, the no-break space, and U+2028, the line separator *)
Definition no_break_space : string :=
  String.String (Ascii.ascii_of_nat 194) (String.String (Ascii.ascii_of_nat 160) EmptyString).

Definition line_separator : string :=
  String.String (Ascii.ascii_of_nat 226)
    (String.String (Ascii.ascii_of_nat 128)
       (String.String (Ascii.ascii_of_nat 168) EmptyString)).

(** The code units a byte of the UTF-8 encoding stands for: none for a
    continuation byte (80 to BF), two for the first byte of a character of
    four bytes (F0 and above), which UTF-16 writes as a surrogate pair, and
    one for any other first byte. *)
Definition code_units (c : Ascii.ascii) : nat :=
  let n := Ascii.nat_of_ascii c in
  if (128 <=? n) && (n <=? 191) then 0 else if 240 <=? n then 2 else 1.

(** [text.length] *)
Fixpoint utf16_length (text : string) : nat :=
  match text with
  | EmptyString => 0
  | String.String c rest => code_units c + utf16_length rest
  end.

(** Byte [i] of the text; a missing byte reads as an empty continuation
    byte. *)
Definition byte_at (i : nat) (text : string) : nat :=
  match String.get i text with Some c => Ascii.nat_of_ascii c | None => 128 end.

(** The first half of the surrogate pair of the character of four bytes
    that starts with [a] and goes on in [rest], in the three bytes a lone
    surrogate takes (ED, A0 to AF, 80 to BF).  With [v] the ten high bits
    of the code point less 0x10000, the surrogate is 0xD800 + v. *)
Definition high_surrogate (a : Ascii.ascii) (rest : string) : string :=
  let v :=
    (Ascii.nat_of_ascii a mod 8) * 256 + (byte_at 0 rest mod 64) * 4
    + (byte_at 1 rest mod 64) / 16 - 64 in
  String.String (Ascii.ascii_of_nat 237)
    (String.String (Ascii.ascii_of_nat (160 + v / 64))
       (String.String (Ascii.ascii_of_nat (128 + v mod 64)) EmptyString)).

(** The first [n] code units of the text.  A cut between the two code
    units of a surrogate pair leaves the first half. *)
Fixpoint take_units (n : nat) (text : string) : string :=
  match text with
  | EmptyString => EmptyString
  | String.String a rest =>
      if code_units a =? 0 then String.String a (take_units n rest)
      else if code_units a <=? n then String.String a (take_units (n - code_units a) rest)
      else if n =? 0 then EmptyString
      else high_surrogate a rest
  end.

(** ** Message bubbles (components/chat/MessageItem.jsx, lines 226-310 of the
    component sources) *)

Module MessageItem.

Definition getUserId (user : jsval) : jsval :=
  if negb (truthy user) then JStr ""
  else match user with
       | JStr _ => user
       | _ => or_else (get "_id" user) (JStr "")
       end.

Record SummaryEntry := {
  emoji : jsval;
  count : nat;
  reactedByMe : bool
}.

(** The [Map] of [buildReactionSummary], in insertion order.  Keys are
    compared as [Map] compares values parsed from JSON: primitives by
    value, objects by reference. *)
Abbreviation Aggregate := (list (jsval * SummaryEntry)).

Fixpoint aggregate_get (key : jsval) (aggregate : Aggregate) : option SummaryEntry :=
  match aggregate with
  | [] => None
  | (k, entry) :: rest => if strict_eq k key then Some entry else aggregate_get key rest
  end.

Fixpoint aggregate_set (key : jsval) (entry : SummaryEntry) (aggregate : Aggregate)
  : Aggregate :=
  match aggregate with
  | [] => [(key, entry)]
  | (k, e) :: rest =>
      if strict_eq k key then (k, entry) :: rest
      else (k, e) :: aggregate_set key entry rest
  end.

(** One turn of [reactions.forEach(...)]; reading [reaction.emoji] of
    [null] or [undefined] throws. *)
Definition countReaction (currentUserId : jsval) (aggregate : option Aggregate)
    (reaction : jsval) : option Aggregate :=
  match aggregate, reaction with
  | None, _ | _, JNull | _, JUndefined => None
  | Some aggregate, _ =>
      let key := get "emoji" reaction in
      let entry :=
        default {| emoji := key; count := 0; reactedByMe := false |}
                (aggregate_get key aggregate) in
      let entry :=
        {| emoji := emoji entry;
           count := count entry + 1;
           reactedByMe :=
             if strict_eq (getUserId (get "user" reaction)) currentUserId
             then true else reactedByMe entry |} in
      Some (aggregate_set key entry aggregate)
  end.

(** [buildReactionSummary]; [None] when the loop throws. *)
Definition buildReactionSummary (reactions : list jsval) (currentUserId : jsval)
  : option (list SummaryEntry) :=
  (λ aggregate : Aggregate, aggregate.*2)
    <$> foldl (countReaction currentUserId) (Some []) reactions.

(** [text.slice(0, end)]: a negative [end] counts from the end of the text. *)
Definition slice_to (end_ : Z) (text : string) : string :=
  let len := Z.of_nat (utf16_length text) in
  let end_ := if (end_ <? 0)%Z then Z.max (len + end_) 0 else Z.min end_ len in
  take_units (Z.to_nat end_) text.

Definition getMessageTextPreview (content : jsval) (maxLength : Z) : string :=
  let text := trim (js_String (or_else content (JStr ""))) in
  if String.eqb text "" then "Message unavailable"
  else if (Z.of_nat (utf16_length text) <=? maxLength)%Z then text
  else slice_to (maxLength - 3) text +:+ "...".

End MessageItem.


(** The channel reference and the log of the socket agree. *)
Definition channel_in_sync (s : Channel.State) : Prop :=
  match Channel.socketRef s with
  | Some log =>
      Channel.joined_channels log
      = match Channel.joinedConversationRef s with Some c => {[c]} | None => ∅ end
  | None => Channel.joinedConversationRef s = None
  end.

(** ** Reading a reaction summary *)

(** The reaction is the current user's. *)
Definition reactedBy (currentUserId reaction : jsval) : bool :=
  strict_eq (MessageItem.getUserId (get "user" reaction)) currentUserId.

(** No two values of the list at different positions are the same value. *)
Definition pairwise_distinct (values : list jsval) : Prop :=
  ∀ i j a b, values !! i = Some a → values !! j = Some b → strict_eq a b = true → i = j.

(** What the aggregate of [buildReactionSummary] holds once the loop has
    gone through [reactions]. *)
Record summarises (currentUserId : jsval) (aggregate : MessageItem.Aggregate)
    (reactions : list jsval) : Prop := {
  counts_add_up : sum_list (MessageItem.count <$> aggregate.*2) = length reactions;
  entries_keyed :
    Forall (λ p, MessageItem.emoji p.2 = p.1 ∧ 0 < MessageItem.count p.2) aggregate;
  keys_distinct : pairwise_distinct aggregate.*1;
  flags_follow :
    (∃ entry, entry ∈ aggregate.*2 ∧ MessageItem.reactedByMe entry = true)
    ↔ (∃ reaction, reaction ∈ reactions ∧ reactedBy currentUserId reaction = true)
}.

(** ** Sign-up and login forms (components/Login.jsx, lines 22-37 and 40-47;
    the sign-up component, lines 24-63) *)

(** [text.includes(c)] for a needle of one ASCII character: its byte occurs
    in the text. *)
Definition includes_char (c : Ascii.ascii) (text : string) : bool :=
  existsb (Ascii.eqb c) (String.list_ascii_of_string text).

(** The character [@] *)
Definition at_sign : Ascii.ascii := Ascii.ascii_of_nat 64.

Module Login.

Record Fields := {
  email : string;
  password : string
}.

(** [handleSubmit] up to the request: the error it sets, or the body it
    posts. *)
Definition handleSubmit (data : Fields) : string + Fields :=
  if negb (includes_char at_sign (email data)) then inl "Invalid email"
  else if utf16_length (password data) <? 6
  then inl "Password must be at least 6 characters"
  else inr {| email := trim (email data); password := password data |}.

End Login.

Module Signup.

Record Data := {
  username : string;
  email : string;
  password : string;
  confirm : string
}.

Module Body.
Record t := {
  username : string;
  name : string;
  email : string;
  password : string
}.
End Body.

(** [handleSubmit] up to the request: the error it sets, or the body it
    posts. *)
Definition handleSubmit (data : Data) : string + Body.t :=
  if utf16_length (trim (username data)) <? 3
  then inl "Username must be at least 3 characters"
  else if negb (includes_char at_sign (email data)) then inl "Invalid email"
  else if utf16_length (password data) <? 6
  then inl "Password must be at least 6 characters"
  else if negb (String.eqb (password data) (confirm data)) then inl "Passwords do not match"
  else inr {| Body.username := trim (username data);
              Body.name := trim (username data);
              Body.email := trim (email data);
              Body.password := password data |}.

End Signup.


(** * Properties *)

(** ** JavaScript values *)

Example js_String_array : js_String (JArr [JNum 1; JNull; JStr "a"; JArr [JNum (-2)]]) = "1,,a,-2".
Proof. vm_compute. reflexivity. Qed.

Example trim_ex : trim "  a b
 " = "a b".
Proof. vm_compute. reflexivity. Qed.

Example trim_unicode_ex :
  trim (no_break_space +:+ " a b" +:+ line_separator +:+ no_break_space) = "a b"
  ∧ trim no_break_space = ""
  ∧ Call.normalizeIceCandidatePayload (JObj [("candidate", JStr no_break_space)]) = None
  ∧ IceServers.normalizeIceServerConfig (JObj [("urls", JStr no_break_space)]) = None.
Proof. vm_compute. done. Qed.

Example utf16_length_ex :
  utf16_length "Zoë" = 3 ∧ String.length "Zoë" = 4
  ∧ utf16_length "😀" = 2
  ∧ utf16_length (take_units 1 "😀a") = 1
  ∧ take_units 2 "😀a" = "😀".
Proof. vm_compute. done. Qed.

Example slice_last_ex : slice_last 4 "abcdefg" = "defg" ∧ slice_last 4 "ab" = "ab".
Proof. vm_compute. done. Qed.

Example toId_cases :
  toId (JStr "u1") = "u1"
  ∧ toId (JObj [("_id", JStr "u1"); ("username", JStr "ann")]) = "u1"
  ∧ toId (JObj [("username", JStr "ann")]) = ""
  ∧ toId (JNum 42) = "42"
  ∧ toId JNull = "".
Proof. vm_compute. done. Qed.

Example normalizeReplyPreview_idempotent_ex :
  normalizeReplyPreview
    (normalizeReplyPreview (JObj [("_id", JStr "m1"); ("messageContent", JStr "hi")]))
  = normalizeReplyPreview (JObj [("_id", JStr "m1"); ("messageContent", JStr "hi")]).
Proof. vm_compute. reflexivity. Qed.

(** ** Call signalling *)

Example normalizeSessionDescription_cases :
  Call.normalizeSessionDescription (JObj [("type", JStr "offer"); ("sdp", JStr "v=0")])
  = Some {| Call.type := "offer"; Call.sdp := "v=0" |}
  ∧ Call.normalizeSessionDescription (JObj [("type", JStr "rollback"); ("sdp", JStr "v=0")])
    = None
  ∧ Call.normalizeSessionDescription (JObj [("type", JStr "answer"); ("sdp", JNum 7)]) = None
  ∧ Call.normalizeSessionDescription (JStr "offer") = None.
Proof. vm_compute. done. Qed.

(** An offer that reaches an idle session is stored as the pending call. *)
Example onCallOffer_idle :
  Call.status (Call.callState (Call.onCallOffer Sample.host Sample.good_offer
                                 Sample.idle_session)) = Call.incoming
  ∧ Call.activeCallPeerIdRef (Call.onCallOffer Sample.host Sample.good_offer
                                Sample.idle_session) = "carol"
  ∧ Call.emitted (Call.onCallOffer Sample.host Sample.good_offer Sample.idle_session) = [].
Proof. vm_compute. done. Qed.

Lemma normalizeSessionDescription_None description :
  Call.normalizeSessionDescription description = None ↔ malformed_description description.
Proof.
  unfold Call.normalizeSessionDescription, malformed_description.
  destruct description as [| |b|n|t|items|fields]; simpl;
    try (split; [intros _; left; split; discriminate | done]).
  - destruct b; simpl; split; try done; intros _; left; split; discriminate.
  - destruct (n =? 0)%Z; simpl; split; try done; intros _; left; split; discriminate.
  - destruct (String.eqb t ""); simpl; split; try done; intros _; left; split; discriminate.
  - set (ty := assoc "type" fields). set (sd := assoc "sdp" fields).
    destruct (strict_eq ty (JStr "offer") || strict_eq ty (JStr "answer")) eqn:Hty.
    + assert (Hs : js_String ty = "offer" ∨ js_String ty = "answer").
      { apply orb_true_iff in Hty as [H|H]; destruct ty; simpl in H; try discriminate;
          apply String.eqb_eq in H; subst; simpl; auto. }
      assert (Hne : String.eqb (js_String ty) "" = false).
      { destruct Hs as [-> | ->]; reflexivity. }
      assert (Hty' : ty = JStr "offer" ∨ ty = JStr "answer").
      { apply orb_true_iff in Hty as [H|H]; destruct ty; simpl in H; try discriminate;
          apply String.eqb_eq in H; subst; auto. }
      rewrite Hne; simpl.
      destruct sd as [| |b|n|t|items|fs]; simpl;
        try (split; [intros _; right; intros (text & [=] & _) | done]).
      destruct (String.eqb t "") eqn:Ht.
      * apply String.eqb_eq in Ht; subst. split; [|done].
        intros _. right. intros (text & [= <-] & Hn). done.
      * apply String.eqb_neq in Ht. split; [done|].
        intros [[H1 H2] | H]; [destruct Hty'; done|].
        exfalso. apply H. eauto.
    + simpl. split; [|done]. intros _. left.
      apply orb_false_iff in Hty as [H1 H2].
      split; intros E; rewrite E in *; simpl in *; discriminate.
Qed.

Lemma offerSender_falsy payload :
  truthy (get "fromUserId" payload) = false → Call.offerSender payload = "".
Proof. unfold Call.offerSender. by intros ->. Qed.

(** C10. An inbound call:offer whose payload lacks a sender user id, or
    whose session description is malformed, is dropped: the handler returns
    the state it was given, whatever that state is, so nothing changes and
    nothing is emitted (no busy reply either). *)
Theorem onCallOffer_drops_malformed (h : Call.Host) (payload : jsval) (s : Call.State) :
  truthy (get "fromUserId" payload) = false
  ∨ malformed_description (get "offer" payload) →
  Call.onCallOffer h payload s = s.
Proof.
  intros [Hsender | Hoffer]; unfold Call.onCallOffer.
  - rewrite (offerSender_falsy _ Hsender).
    by destruct (Call.normalizeSessionDescription _).
  - apply normalizeSessionDescription_None in Hoffer. by rewrite Hoffer.
Qed.

Lemma onCallOffer_drops_malformed_witness :
  malformed_description (get "offer" Sample.offer_without_sdp)
  ∧ Call.onCallOffer Sample.host Sample.offer_without_sdp Sample.outgoing_session
    = Sample.outgoing_session.
Proof.
  assert (H : malformed_description (get "offer" Sample.offer_without_sdp)).
  { right. intros (text & [=] & _). }
  split; [exact H|].
  apply onCallOffer_drops_malformed. by right.
Defined.

(** C1, as stated, fails: while a call is active, an offer whose session
    description is malformed gets no reply at all. *)
Lemma onCallOffer_busy_reply_counterexample :
  Call.hasActiveCall Sample.outgoing_session = true
  ∧ Call.emitted
      (Call.onCallOffer Sample.host Sample.offer_without_sdp Sample.outgoing_session) = [].
Proof. split; reflexivity. Qed.

(** C1, amended. While the local session is not idle (a pending offer, an
    active peer id or a connection object exists), an inbound call:offer
    that names its sender and carries a well-formed session description is
    answered with one [end] event to the sender, reason "busy", for the
    offered call id, and the session is otherwise left as it was. *)
Theorem onCallOffer_busy_reply (h : Call.Host) (payload : jsval) (s : Call.State)
    (description : Call.SessionDescription) :
  Call.hasActiveCall s = true →
  Call.offerSender payload ≠ "" →
  Call.normalizeSessionDescription (get "offer" payload) = Some description →
  let busy := Call.call_end (Call.offerSender payload) (Call.offerCallId h payload) "busy" in
  let s' := Call.onCallOffer h payload s in
  s' = Call.emit busy s
  ∧ Call.emitted s' = Call.emitted s ++ [busy]
  ∧ Call.callState s' = Call.callState s
  ∧ Call.activeCallIdRef s' = Call.activeCallIdRef s
  ∧ Call.activeCallPeerIdRef s' = Call.activeCallPeerIdRef s
  ∧ Call.activeCallTypeRef s' = Call.activeCallTypeRef s
  ∧ Call.pendingIncomingCallRef s' = Call.pendingIncomingCallRef s
  ∧ Call.queuedIceCandidatesRef s' = Call.queuedIceCandidatesRef s
  ∧ Call.peerConnectionRef s' = Call.peerConnectionRef s
  ∧ Call.localStreamRef s' = Call.localStreamRef s
  ∧ Call.remoteStreamRef s' = Call.remoteStreamRef s.
Proof.
  intros Hbusy Hsender Hoffer busy s'. subst s' busy. unfold Call.onCallOffer.
  rewrite Hoffer, Hbusy.
  apply String.eqb_neq in Hsender. rewrite Hsender.
  repeat split.
Qed.

Lemma onCallOffer_busy_reply_witness :
  Call.emitted (Call.onCallOffer Sample.host Sample.good_offer Sample.outgoing_session)
    = [Call.call_end "carol" (JStr "carol-7-zz") "busy"]
  ∧ Call.callState (Call.onCallOffer Sample.host Sample.good_offer Sample.outgoing_session)
    = Call.callState Sample.outgoing_session.
Proof.
  pose proof (onCallOffer_busy_reply Sample.host Sample.good_offer Sample.outgoing_session
                {| Call.type := "offer"; Call.sdp := "v=0" |}) as H.
  destruct H as (_ & He & Hc & _); [reflexivity | discriminate | reflexivity |].
  split; [exact He | exact Hc].
Defined.

(** C7, as stated, fails: an answer for the active call whose session
    description is malformed is not applied, and the status does not
    advance although the session is not in the incoming state. *)
Lemma onCallAnswer_matching_counterexample :
  js_String (get "callId" Sample.answer_with_empty_sdp)
    = js_String (Call.activeCallIdRef Sample.outgoing_session)
  ∧ Call.status (Call.callState Sample.outgoing_session) = Call.outgoing
  ∧ Call.onCallAnswer Sample.host Sample.answer_with_empty_sdp Sample.outgoing_session
    = Sample.outgoing_session.
Proof. repeat split. Qed.

(** C7, amended. An inbound call:answer is ignored, with no change of
    state, when it names a call id, a call id is active and the two differ.
    Otherwise, when a connection object exists, the answer carries a
    well-formed session description and the connection accepts it, the
    answer becomes the remote description, the queued ICE candidates are
    handed to the connection in queue order and the queue is emptied, and
    the status becomes connecting unless it is incoming; nothing else
    changes and nothing is emitted. *)
Theorem onCallAnswer_outcome (h : Call.Host) (payload : jsval) (s : Call.State) :
  (Call.callIdMismatch payload s = true → Call.onCallAnswer h payload s = s)
  ∧ (∀ pc answer,
       Call.callIdMismatch payload s = false →
       Call.peerConnectionRef s = Some pc →
       Call.normalizeSessionDescription (get "answer" payload) = Some answer →
       Call.setRemoteDescription h pc answer = true →
       let s' := Call.onCallAnswer h payload s in
       Call.peerConnectionRef s'
         = Some {| Call.remoteDescription := Some answer;
                   Call.addIceCandidateCalls :=
                     Call.addIceCandidateCalls pc ++ Call.queuedIceCandidatesRef s |}
       ∧ Call.queuedIceCandidatesRef s' = []
       ∧ Call.callState s'
         = match Call.status (Call.callState s) with
           | Call.incoming => Call.callState s
           | _ => Call.withStatus Call.connecting (Call.callState s)
           end
       ∧ Call.activeCallIdRef s' = Call.activeCallIdRef s
       ∧ Call.activeCallPeerIdRef s' = Call.activeCallPeerIdRef s
       ∧ Call.activeCallTypeRef s' = Call.activeCallTypeRef s
       ∧ Call.pendingIncomingCallRef s' = Call.pendingIncomingCallRef s
       ∧ Call.localStreamRef s' = Call.localStreamRef s
       ∧ Call.remoteStreamRef s' = Call.remoteStreamRef s
       ∧ Call.emitted s' = Call.emitted s)
  ∧ (Call.peerConnectionRef s = None
     ∨ Call.normalizeSessionDescription (get "answer" payload) = None →
     Call.onCallAnswer h payload s = s).
Proof.
  split; [|split].
  - intros H. unfold Call.onCallAnswer. by rewrite H.
  - intros pc answer Hid Hpc Hanswer Hok s'. subst s'.
    unfold Call.onCallAnswer. rewrite Hid, Hpc, Hanswer, Hok.
    unfold Call.flushQueuedIceCandidates. simpl.
    repeat split.
  - intros H. unfold Call.onCallAnswer.
    destruct (Call.callIdMismatch payload s); [done|].
    destruct H as [-> | ->]; [done|]. by destruct (Call.peerConnectionRef s).
Qed.

Lemma onCallAnswer_outcome_witness :
  Call.onCallAnswer Sample.host Sample.stale_answer Sample.outgoing_session
    = Sample.outgoing_session
  ∧ Call.status
      (Call.callState (Call.onCallAnswer Sample.host Sample.good_answer Sample.outgoing_session))
    = Call.connecting.
Proof.
  destruct (onCallAnswer_outcome Sample.host Sample.stale_answer Sample.outgoing_session)
    as (Hstale & _).
  destruct (onCallAnswer_outcome Sample.host Sample.good_answer Sample.outgoing_session)
    as (_ & Hgood & _).
  split.
  - apply Hstale. reflexivity.
  - specialize (Hgood {| Call.remoteDescription := None; Call.addIceCandidateCalls := [] |}
                  {| Call.type := "answer"; Call.sdp := "v=0" |}
                  eq_refl eq_refl eq_refl eq_refl).
    destruct Hgood as (_ & _ & Hstate & _). rewrite Hstate. reflexivity.
Defined.

Lemma callIdMatches_no_mismatch s payload :
  callIdMatches s payload → Call.callIdMismatch payload s = false.
Proof.
  unfold callIdMatches, Call.callIdMismatch. intros ->.
  rewrite String.eqb_refl. simpl. by rewrite !andb_false_r.
Qed.

Lemma setConnection_same s :
  Call.setConnection (Call.peerConnectionRef s) (Call.queuedIceCandidatesRef s) s = s.
Proof. by destruct s. Qed.

(** One event, received while no remote description is set: its candidate,
    if it carries one, goes to the back of the queue. *)
Lemma onCallIceCandidate_queues h payload s :
  remoteDescriptionUnset s →
  callIdMatches s payload →
  Call.onCallIceCandidate h payload s
  = Call.setConnection (Call.peerConnectionRef s)
      (Call.queuedIceCandidatesRef s ++ from_option (λ c, [c]) [] (carriedCandidate h payload))
      s.
Proof.
  intros Hunset Hid. unfold Call.onCallIceCandidate, carriedCandidate.
  destruct (Call.normalizeIceCandidatePayload _) as [init|]; simpl.
  - rewrite (callIdMatches_no_mismatch _ _ Hid).
    destruct (Call.newRTCIceCandidate h init); simpl.
    + unfold remoteDescriptionUnset in Hunset.
      destruct (Call.peerConnectionRef s) as [pc|]; [|done].
      by rewrite Hunset.
    + by rewrite app_nil_r, setConnection_same.
  - by rewrite app_nil_r, setConnection_same.
Qed.

(** C5. A sequence of inbound ICE candidate events for the active call
    that arrives while no remote description is set leaves every other part
    of the session alone and appends the candidates the events carry to the
    pending queue, in arrival order; once a connection with a remote
    description is in place, the flush hands the queued candidates to it in
    that same order and leaves the queue empty. *)
Theorem ice_candidates_queued_then_flushed_in_order
    (h : Call.Host) (payloads : list jsval) (s : Call.State) :
  remoteDescriptionUnset s →
  Forall (callIdMatches s) payloads →
  let s1 := receiveIceCandidates h payloads s in
  s1 = Call.setConnection (Call.peerConnectionRef s)
         (Call.queuedIceCandidatesRef s ++ omap (carriedCandidate h) payloads) s
  ∧ Call.queuedIceCandidatesRef s1
    = Call.queuedIceCandidatesRef s ++ omap (carriedCandidate h) payloads
  ∧ ∀ s2 pc description,
      Call.queuedIceCandidatesRef s2 = Call.queuedIceCandidatesRef s1 →
      Call.peerConnectionRef s2 = Some pc →
      Call.remoteDescription pc = Some description →
      let s3 := Call.flushQueuedIceCandidates s2 in
      Call.peerConnectionRef s3
        = Some {| Call.remoteDescription := Some description;
                  Call.addIceCandidateCalls :=
                    Call.addIceCandidateCalls pc
                      ++ Call.queuedIceCandidatesRef s
                      ++ omap (carriedCandidate h) payloads |}
      ∧ Call.queuedIceCandidatesRef s3 = [].
Proof.
  intros Hunset Hids.
  assert (Hrun : receiveIceCandidates h payloads s
                 = Call.setConnection (Call.peerConnectionRef s)
                     (Call.queuedIceCandidatesRef s ++ omap (carriedCandidate h) payloads) s).
  { revert s Hunset Hids.
    induction payloads as [|payload rest IH]; intros s Hunset Hids.
    - simpl. by rewrite app_nil_r, setConnection_same.
    - apply Forall_cons in Hids as [Hid Hrest].
      unfold receiveIceCandidates in *. simpl foldl.
      rewrite (onCallIceCandidate_queues h payload s Hunset Hid).
      rewrite IH; [| done | done].
      + destruct s; simpl. destruct (carriedCandidate h payload); simpl;
          by rewrite <- ?app_assoc, ?app_nil_r. }
  intros s1. subst s1. rewrite Hrun. split; [done|]. split; [done|].
  intros s2 pc description Hq Hpc Hd s3. subst s3.
  unfold Call.flushQueuedIceCandidates. rewrite Hpc, Hd. simpl.
  by rewrite Hq.
Qed.

Lemma ice_candidates_queued_then_flushed_in_order_witness :
  Call.queuedIceCandidatesRef
    (receiveIceCandidates Sample.host
       [Sample.ice "candidate:1"; Sample.ice "  "; Sample.ice "candidate:2"]
       Sample.outgoing_session)
  = [ {| Call.candidate := "candidate:1"; Call.sdpMid := Some "0";
         Call.sdpMLineIndex := Some 0%Z; Call.usernameFragment := None |};
      {| Call.candidate := "candidate:2"; Call.sdpMid := Some "0";
         Call.sdpMLineIndex := Some 0%Z; Call.usernameFragment := None |} ].
Proof.
  pose proof (ice_candidates_queued_then_flushed_in_order Sample.host
                [Sample.ice "candidate:1"; Sample.ice "  "; Sample.ice "candidate:2"]
                Sample.outgoing_session) as H.
  destruct H as (_ & Hqueue & _).
  - reflexivity.
  - repeat constructor.
  - rewrite Hqueue. reflexivity.
Defined.

(** ** Notification router *)

Example getMessageNotificationKey_cases :
  Chat.getMessageNotificationKey SampleChat.mounted
    (JObj (SampleChat.message "m1" "bob" "alice" "hi")) = "dm:bob"
  ∧ Chat.getMessageNotificationKey SampleChat.mounted
      (JObj (SampleChat.message "m2" "bob" "r2" "hi")) = "room:r2"
  ∧ Chat.getMessageNotificationKey SampleChat.mounted
      (JObj (SampleChat.message "m3" "alice" "r2" "hi")) = "".
Proof. vm_compute. done. Qed.

Lemma remember_bounded id processed :
  length processed ≤ 500 → length (Chat.remember id processed) ≤ 500.
Proof.
  intros H. unfold Chat.remember.
  destruct (500 <? length (processed ++ [id])) eqn:E.
  - destruct processed; simpl in *; [lia|]. rewrite length_app. simpl. lia.
  - apply Nat.ltb_ge in E. done.
Qed.

Lemma remember_full id oldest rest :
  length (oldest :: rest) = 500 →
  Chat.remember id (oldest :: rest) = rest ++ [id].
Proof.
  intros H. unfold Chat.remember.
  replace (500 <? length ((oldest :: rest) ++ [id])) with true; [done|].
  symmetry. apply Nat.ltb_lt. rewrite length_app. simpl in *. lia.
Qed.

Lemma remember_room id processed :
  length processed < 500 → Chat.remember id processed = processed ++ [id].
Proof.
  intros H. unfold Chat.remember.
  replace (500 <? length (processed ++ [id])) with false; [done|].
  symmetry. apply Nat.ltb_ge. rewrite length_app. simpl. lia.
Qed.

(** What [clearUnreadForKey] does to the counters; it touches nothing else. *)
Lemma clearUnreadForKey_unread key s :
  Chat.unreadCounts (Chat.clearUnreadForKey key s) = Chat.unreadCounts s
  ∨ (key ≠ "" ∧ Chat.unreadCounts (Chat.clearUnreadForKey key s)
                = delete key (Chat.unreadCounts s)).
Proof.
  unfold Chat.clearUnreadForKey.
  destruct (String.eqb key "") eqn:E; [by left|].
  apply String.eqb_neq in E. simpl.
  destruct (Chat.unreadCounts s !! key) as [[|n]|]; auto.
Qed.

Lemma clearUnreadForKey_removes key s :
  key ≠ "" →
  (∀ count, Chat.unreadCounts s !! key = Some count → 0 < count) →
  Chat.unreadCounts (Chat.clearUnreadForKey key s) !! key = None.
Proof.
  intros Hkey Hpos. unfold Chat.clearUnreadForKey.
  apply String.eqb_neq in Hkey. rewrite Hkey. simpl.
  destruct (Chat.unreadCounts s !! key) as [[|n]|] eqn:E; simpl.
  - specialize (Hpos 0 eq_refl). lia.
  - apply lookup_delete_eq.
  - done.
Qed.

Lemma clearUnreadForKey_frame key s :
  Chat.messages (Chat.clearUnreadForKey key s) = Chat.messages s
  ∧ Chat.replyToMessage (Chat.clearUnreadForKey key s) = Chat.replyToMessage s
  ∧ Chat.selectedRoom (Chat.clearUnreadForKey key s) = Chat.selectedRoom s
  ∧ Chat.selectedUser (Chat.clearUnreadForKey key s) = Chat.selectedUser s
  ∧ Chat.currentUserId (Chat.clearUnreadForKey key s) = Chat.currentUserId s
  ∧ Chat.activeNotificationKeyRef (Chat.clearUnreadForKey key s)
    = Chat.activeNotificationKeyRef s
  ∧ Chat.processedRealtimeMessageIds (Chat.clearUnreadForKey key s)
    = Chat.processedRealtimeMessageIds s
  ∧ Chat.nextAddr (Chat.clearUnreadForKey key s) = Chat.nextAddr s.
Proof. unfold Chat.clearUnreadForKey. by destruct (String.eqb key ""). Qed.

(** A step that only drops unread entries keeps the counters well formed. *)
Lemma router_invariant_shrink s s' :
  router_invariant s →
  (∀ key, Chat.unreadCounts s' !! key = Chat.unreadCounts s !! key
          ∨ Chat.unreadCounts s' !! key = None) →
  length (Chat.processedRealtimeMessageIds s') ≤ 500 →
  Chat.activeNotificationKeyRef s' = Chat.activeNotificationKey s' →
  Chat.unreadCounts s' !! Chat.activeNotificationKeyRef s' = None →
  router_invariant s'.
Proof.
  intros [Hc Hp Hn Hs Ha] Hunread Hcache Hsync Hactive.
  split; try done.
  - intros key count Hk. destruct (Hunread key) as [E|E]; rewrite E in Hk; [eauto|done].
  - destruct (Hunread "") as [E|E]; rewrite E; done.
Qed.

Lemma router_invariant_frame s s' :
  router_invariant s →
  Chat.unreadCounts s' = Chat.unreadCounts s →
  Chat.processedRealtimeMessageIds s' = Chat.processedRealtimeMessageIds s →
  Chat.activeNotificationKeyRef s' = Chat.activeNotificationKeyRef s →
  Chat.selectedRoom s' = Chat.selectedRoom s →
  Chat.selectedUser s' = Chat.selectedUser s →
  router_invariant s'.
Proof.
  intros Hinv Hu Hp Hr Hroom Huser.
  pose proof Hinv as [Hc Hpos Hn Hs Ha].
  apply (router_invariant_shrink s s' Hinv).
  - intros key. left. by rewrite Hu.
  - by rewrite Hp.
  - rewrite Hr, Hs. unfold Chat.activeNotificationKey. by rewrite Hroom, Huser.
  - by rewrite Hr, Hu.
Qed.

Lemma clearUnreadForKey_router key s :
  router_invariant s → router_invariant (Chat.clearUnreadForKey key s).
Proof.
  intros Hinv. pose proof Hinv as [Hc Hpos Hn Hs Ha].
  destruct (clearUnreadForKey_frame key s) as (_ & _ & Hroom & Huser & _ & Hr & Hp & _).
  apply (router_invariant_shrink s _ Hinv).
  - intros k. destruct (clearUnreadForKey_unread key s) as [E | [_ E]]; rewrite E; auto.
    destruct (decide (key = k)) as [<-|Hne].
    + right. apply lookup_delete_eq.
    + left. by apply lookup_delete_ne.
  - by rewrite Hp.
  - rewrite Hr, Hs. unfold Chat.activeNotificationKey. by rewrite Hroom, Huser.
  - rewrite Hr.
    destruct (clearUnreadForKey_unread key s) as [E | [_ E]]; rewrite E; [done|].
    destruct (decide (key = Chat.activeNotificationKeyRef s)) as [<-|Hne].
    + apply lookup_delete_eq.
    + by rewrite lookup_delete_ne.
Qed.

Lemma appendRealtimeMessage_frame message s :
  Chat.unreadCounts (Chat.appendRealtimeMessage message s) = Chat.unreadCounts s
  ∧ Chat.processedRealtimeMessageIds (Chat.appendRealtimeMessage message s)
    = Chat.processedRealtimeMessageIds s
  ∧ Chat.activeNotificationKeyRef (Chat.appendRealtimeMessage message s)
    = Chat.activeNotificationKeyRef s
  ∧ Chat.selectedRoom (Chat.appendRealtimeMessage message s) = Chat.selectedRoom s
  ∧ Chat.selectedUser (Chat.appendRealtimeMessage message s) = Chat.selectedUser s
  ∧ Chat.replyToMessage (Chat.appendRealtimeMessage message s) = Chat.replyToMessage s
  ∧ Chat.currentUserId (Chat.appendRealtimeMessage message s) = Chat.currentUserId s.
Proof.
  unfold Chat.appendRealtimeMessage.
  destruct message; try done.
  destruct (negb _); [done|]. by destruct (Chat.hasMessage _ _).
Qed.

Lemma getMessageNotificationKey_setProcessed f s message :
  Chat.getMessageNotificationKey (Chat.setProcessed f s) message
  = Chat.getMessageNotificationKey s message.
Proof. done. Qed.

Lemma onNewMessage_router payload s :
  router_invariant s → router_invariant (Chat.onNewMessage payload s).
Proof.
  intros Hinv. pose proof Hinv as [Hc Hpos Hn Hs Ha].
  unfold Chat.onNewMessage.
  destruct (String.eqb (Chat.pushedMessageId payload) ""); [done|].
  destruct (bool_decide _); [done|].
  rewrite getMessageNotificationKey_setProcessed.
  set (key := Chat.getMessageNotificationKey s (Chat.pushedMessage payload)).
  set (s1 := Chat.setProcessed _ s).
  assert (Hinv1 : router_invariant s1).
  { apply (router_invariant_shrink s s1 Hinv); try done.
    - intros k. by left.
    - simpl. by apply remember_bounded. }
  destruct (String.eqb key "") eqn:Hkey; [done|].
  apply String.eqb_neq in Hkey.
  destruct (String.eqb key (Chat.activeNotificationKeyRef s1)) eqn:Hact.
  - destruct (appendRealtimeMessage_frame (Chat.pushedMessage payload) s1)
      as (Hu & Hp & Hr & Hroom & Huser & _).
    by apply (router_invariant_frame s1).
  - apply String.eqb_neq in Hact. simpl in Hact.
    split; simpl.
    + by apply remember_bounded.
    + intros k count. destruct (decide (key = k)) as [<-|Hne].
      * rewrite lookup_insert_eq. intros [= <-]. lia.
      * rewrite lookup_insert_ne by done. apply Hpos.
    + by rewrite lookup_insert_ne.
    + done.
    + by rewrite lookup_insert_ne.
Qed.

Lemma setMessages_router f s :
  router_invariant s → router_invariant (Chat.setMessages f s).
Proof. intros H. by apply (router_invariant_frame s). Qed.

Lemma setReplyToMessage_router f s :
  router_invariant s → router_invariant (Chat.setReplyToMessage f s).
Proof. intros H. by apply (router_invariant_frame s). Qed.

Lemma allocate_router n s :
  router_invariant s → router_invariant (Chat.allocate n s).
Proof. intros H. by apply (router_invariant_frame s). Qed.

Create HintDb router.

#[local] Hint Resolve setMessages_router setReplyToMessage_router allocate_router
  clearUnreadForKey_router onNewMessage_router : router.

Lemma onConversationCleared_router payload s :
  router_invariant s → router_invariant (Chat.onConversationCleared payload s).
Proof.
  intros Hinv. unfold Chat.onConversationCleared.
  destruct (String.eqb _ ""); [done|].
  destruct (_ || _); auto 6 with router.
Qed.

Lemma handleClearActiveConversation_router atCall s :
  router_invariant s → router_invariant (Chat.handleClearActiveConversation atCall s).
Proof.
  intros Hinv. unfold Chat.handleClearActiveConversation.
  destruct (_ || _); auto 6 with router.
Qed.

Lemma applyReactions_router id reactions s :
  router_invariant s → router_invariant (Chat.applyReactions id reactions s).
Proof. intros H. by apply (router_invariant_frame s). Qed.

Lemma applyDeletion_router id s :
  router_invariant s → router_invariant (Chat.applyDeletion id s).
Proof. intros H. by apply (router_invariant_frame s). Qed.

Lemma fetchMessages_router response s :
  router_invariant s → router_invariant (Chat.fetchMessages response s).
Proof. intros H. by apply (router_invariant_frame s). Qed.

(** The selection effects re-establish the invariant for whatever selection
    the step assigned. *)
Lemma commitSelection_router before s :
  length (Chat.processedRealtimeMessageIds s) ≤ 500 →
  (∀ key count, Chat.unreadCounts s !! key = Some count → 0 < count) →
  Chat.unreadCounts s !! "" = None →
  Chat.activeNotificationKeyRef s = Chat.activeNotificationKey before →
  Chat.unreadCounts s !! Chat.activeNotificationKeyRef s = None →
  router_invariant (Chat.commitSelection before s).
Proof.
  intros Hc Hpos Hn Hr Ha.
  unfold Chat.commitSelection.
  set (key := Chat.activeNotificationKey s).
  assert (H1 : router_invariant
                 (if String.eqb key (Chat.activeNotificationKey before) then s
                  else Chat.clearUnreadForKey key
                         (Chat.setActiveNotificationKeyRef key s))).
  { destruct (String.eqb key (Chat.activeNotificationKey before)) eqn:E.
    - apply String.eqb_eq in E. split; try done. by rewrite Hr.
    - set (s1 := Chat.setActiveNotificationKeyRef key s).
      assert (Hinv1 : router_invariant (Chat.setUnreadCounts (delete key) s1)).
      { split; simpl; try done.
        - intros k count Hk. apply lookup_delete_Some in Hk as [_ Hk]. eauto.
        - destruct (decide (key = "")) as [->|Hne];
            [apply lookup_delete_eq | by rewrite lookup_delete_ne].
        - apply lookup_delete_eq. }
      unfold Chat.clearUnreadForKey.
      destruct (String.eqb key "") eqn:Hkey.
      + apply String.eqb_eq in Hkey. split; simpl; try done. by rewrite Hkey.
      + simpl. destruct (Chat.unreadCounts s !! key) as [[|n]|] eqn:Hlook.
        * specialize (Hpos key 0 Hlook). lia.
        * unfold Chat.setUnreadCounts. simpl. rewrite Hlook. exact Hinv1.
        * unfold Chat.setUnreadCounts. simpl. rewrite Hlook.
          split; simpl; try done. }
  destruct (_ && _); destruct (_ && _); auto with router.
Qed.

Lemma select_router room user s :
  router_invariant s → router_invariant (Chat.select room user s).
Proof. intros [Hc Hpos Hn Hs Ha]. by apply commitSelection_router. Qed.

Lemma removeRoomFromUi_router roomId s :
  router_invariant s → router_invariant (Chat.removeRoomFromUi roomId s).
Proof.
  intros Hinv. pose proof Hinv as [Hc Hpos Hn Hs Ha].
  unfold Chat.removeRoomFromUi.
  destruct (negb (truthy roomId)); [done|].
  set (key := buildRoomNotificationKey (js_String roomId)).
  set (drop := λ previous : gmap string nat,
         match previous !! key with
         | None | Some 0 => previous
         | Some _ => delete key previous
         end).
  assert (Hdrop : ∀ k, drop (Chat.unreadCounts s) !! k = Chat.unreadCounts s !! k
                       ∨ drop (Chat.unreadCounts s) !! k = None).
  { intros k. unfold drop.
    destruct (Chat.unreadCounts s !! key) as [[|n]|]; auto.
    destruct (decide (key = k)) as [<-|Hne].
    - right. apply lookup_delete_eq.
    - left. by apply lookup_delete_ne. }
  destruct (_ && _).
  - apply commitSelection_router; simpl; try done.
    + intros k count Hk. destruct (Hdrop k) as [E|E]; rewrite E in Hk; [eauto|done].
    + destruct (Hdrop "") as [E|E]; rewrite E; done.
    + destruct (Hdrop (Chat.activeNotificationKeyRef s)) as [E|E]; rewrite E; done.
  - apply (router_invariant_shrink s _ Hinv); simpl; try done.
    destruct (Hdrop (Chat.activeNotificationKeyRef s)) as [E|E]; rewrite E; done.
Qed.

Lemma disconnect_router s : router_invariant s → router_invariant (Chat.disconnect s).
Proof. intros [Hc Hpos Hn Hs Ha]. split; simpl; try done. lia. Qed.

Lemma step_router accept s s' :
  Chat.step accept s s' → router_invariant s → router_invariant s'.
Proof.
  intros Hstep Hinv. destruct Hstep.
  - by apply onNewMessage_router.
  - unfold Chat.onReactionUpdated. destruct (_ || _); [done|].
    by apply applyReactions_router.
  - unfold Chat.onMessageDeleted. destruct (String.eqb _ _); [done|].
    by apply applyDeletion_router.
  - by apply onConversationCleared_router.
  - by apply removeRoomFromUi_router.
  - by apply fetchMessages_router.
  - by apply select_router.
  - by apply clearUnreadForKey_router.
  - by apply applyReactions_router.
  - unfold Chat.handleDeleteMessage. destruct (_ || _); [done|].
    by apply applyDeletion_router.
  - by apply handleClearActiveConversation_router.
  - by apply disconnect_router.
  - unfold Chat.syncAuthSession. destruct (String.eqb _ _); [done|].
    assert (H : router_invariant (Chat.disconnect (Chat.setCurrentUserId userId s))).
    { apply disconnect_router. by apply (router_invariant_frame s). }
    destruct (_ && _); auto with router.
  - by apply setReplyToMessage_router.
Qed.

Lemma reachable_router accept userId s :
  Chat.reachable accept userId s → router_invariant s.
Proof.
  induction 1 as [|s s' _ IH Hstep].
  - split; simpl; try done. lia.
  - by apply (step_router accept s).
Qed.

Lemma onNewMessage_processed payload s :
  Chat.processedRealtimeMessageIds (Chat.onNewMessage payload s)
  = if String.eqb (Chat.pushedMessageId payload) ""
       || bool_decide (Chat.pushedMessageId payload ∈ Chat.processedRealtimeMessageIds s)
    then Chat.processedRealtimeMessageIds s
    else Chat.remember (Chat.pushedMessageId payload) (Chat.processedRealtimeMessageIds s).
Proof.
  unfold Chat.onNewMessage.
  destruct (String.eqb (Chat.pushedMessageId payload) ""); [done|].
  destruct (bool_decide _); [done|]. simpl.
  destruct (String.eqb _ ""); [done|].
  destruct (String.eqb _ _); [|done].
  by destruct (appendRealtimeMessage_frame (Chat.pushedMessage payload)
                 (Chat.setProcessed
                    (Chat.remember (Chat.pushedMessageId payload)) s)) as (_ & -> & _).
Qed.

(** C4. The processed-event cache never holds more than 500 ids, before or
    after a push event is processed; and when it holds 500, processing an
    event with a new id drops exactly the oldest id and files the new one
    last. *)
Theorem processed_cache_capacity (s : Chat.State) (payload : jsval) :
  (∀ accept userId,
     Chat.reachable accept userId s →
     length (Chat.processedRealtimeMessageIds s) ≤ 500
     ∧ length (Chat.processedRealtimeMessageIds (Chat.onNewMessage payload s)) ≤ 500)
  ∧ (∀ oldest rest,
       Chat.processedRealtimeMessageIds s = oldest :: rest →
       length (oldest :: rest) = 500 →
       Chat.pushedMessageId payload ≠ "" →
       Chat.pushedMessageId payload ∉ Chat.processedRealtimeMessageIds s →
       Chat.processedRealtimeMessageIds (Chat.onNewMessage payload s)
       = rest ++ [Chat.pushedMessageId payload]).
Proof.
  split.
  - intros accept userId Hreach. split.
    + by destruct (reachable_router _ _ _ Hreach).
    + assert (Hnext : Chat.reachable accept userId (Chat.onNewMessage payload s)).
      { eapply Chat.reachable_step; [exact Hreach | constructor]. }
      by destruct (reachable_router _ _ _ Hnext).
  - intros oldest rest Hcache Hfull Hid Hnew.
    rewrite onNewMessage_processed.
    apply String.eqb_neq in Hid. rewrite Hid.
    rewrite bool_decide_eq_false_2 by done. simpl.
    rewrite Hcache. by apply remember_full.
Qed.

Lemma processed_cache_capacity_witness :
  length (Chat.processedRealtimeMessageIds
            (Chat.onNewMessage
               (SampleChat.push (SampleChat.message "m7" "bob" "r2" "hi"))
               SampleChat.in_room)) ≤ 500
  ∧ Chat.processedRealtimeMessageIds
      (Chat.onNewMessage
         (SampleChat.push (SampleChat.message "m7" "bob" "r2" "hi"))
         SampleChat.full_cache)
    = ((λ n : nat, pretty n) <$> seq 1 499) ++ ["m7"].
Proof.
  split.
  - destruct (processed_cache_capacity SampleChat.in_room
                (SampleChat.push (SampleChat.message "m7" "bob" "r2" "hi"))) as [H _].
    apply (H any_snapshot "alice").
    eapply Chat.reachable_step; [apply Chat.reachable_initial|].
    apply (Chat.step_select any_snapshot (SampleChat.room "r1") JNull).
  - destruct (processed_cache_capacity SampleChat.full_cache
                (SampleChat.push (SampleChat.message "m7" "bob" "r2" "hi"))) as [_ H].
    apply (H "0"); [reflexivity | reflexivity | discriminate |].
    apply (bool_decide_eq_false_1 _). vm_compute. reflexivity.
Defined.

Lemma onNewMessage_unread payload s :
  Chat.pushedMessageId payload ≠ "" →
  Chat.pushedMessageId payload ∉ Chat.processedRealtimeMessageIds s →
  Chat.getMessageNotificationKey s (Chat.pushedMessage payload) ≠ "" →
  Chat.getMessageNotificationKey s (Chat.pushedMessage payload)
    ≠ Chat.activeNotificationKeyRef s →
  Chat.unreadCounts (Chat.onNewMessage payload s)
  = <[Chat.getMessageNotificationKey s (Chat.pushedMessage payload) :=
        default 0 (Chat.unreadCounts s
                     !! Chat.getMessageNotificationKey s (Chat.pushedMessage payload)) + 1]>
      (Chat.unreadCounts s).
Proof.
  intros Hid Hnew Hkey Hactive. unfold Chat.onNewMessage.
  apply String.eqb_neq in Hid. rewrite Hid.
  rewrite bool_decide_eq_false_2 by done.
  rewrite getMessageNotificationKey_setProcessed.
  apply String.eqb_neq in Hkey. rewrite Hkey.
  apply String.eqb_neq in Hactive. simpl. by rewrite Hactive.
Qed.

(** C6. A pushed message that the router classifies to a key other than
    the active one raises the unread counter of that key by exactly one
    (a missing entry counts as zero) and leaves the other counters alone;
    making a conversation active leaves no entry under its key; and in
    every reachable state the key reference is the key of the open
    conversation and the map has no entry for it. *)
Theorem unread_counters_follow_routing (s : Chat.State) :
  (∀ payload key,
     classified s payload key →
     key ≠ Chat.activeNotificationKeyRef s →
     Chat.unreadCounts (Chat.onNewMessage payload s) !! key
     = Some (default 0 (Chat.unreadCounts s !! key) + 1)
     ∧ ∀ other, other ≠ key →
         Chat.unreadCounts (Chat.onNewMessage payload s) !! other
         = Chat.unreadCounts s !! other)
  ∧ (∀ accept userId,
       Chat.reachable accept userId s →
       (∀ room user,
          Chat.activeNotificationKeyRef (Chat.select room user s)
          = Chat.activeNotificationKey (Chat.select room user s)
          ∧ Chat.unreadCounts (Chat.select room user s)
              !! Chat.activeNotificationKey (Chat.select room user s) = None)
       ∧ Chat.activeNotificationKeyRef s = Chat.activeNotificationKey s
       ∧ Chat.unreadCounts s !! Chat.activeNotificationKey s = None).
Proof.
  split.
  - intros payload key (Hid & Hnew & <- & Hkey) Hactive.
    rewrite onNewMessage_unread by done. split.
    + apply lookup_insert_eq.
    + intros other Hother. by apply lookup_insert_ne.
  - intros accept userId Hreach.
    pose proof (reachable_router _ _ _ Hreach) as Hinv.
    split; [|destruct Hinv as [_ _ _ Hs Ha]; by rewrite <- Hs].
    intros room user.
    destruct (select_router room user s Hinv) as [_ _ _ Hs Ha].
    by rewrite <- Hs.
Qed.

Lemma unread_counters_follow_routing_witness :
  Chat.unreadCounts SampleChat.with_unread !! "room:r2" = Some 1
  ∧ Chat.unreadCounts (Chat.select (SampleChat.room "r2") JNull SampleChat.with_unread)
      !! "room:r2" = None.
Proof.
  split.
  - destruct (unread_counters_follow_routing SampleChat.in_room) as [H _].
    destruct (H (SampleChat.push (SampleChat.message "m7" "bob" "r2" "hi")) "room:r2")
      as [Hcount _]; [|done|exact Hcount].
    repeat split; try done.
    apply (bool_decide_eq_false_1 _). reflexivity.
  - destruct (unread_counters_follow_routing SampleChat.with_unread) as [_ H].
    destruct (H any_snapshot "alice") as [Hselect _].
    + eapply Chat.reachable_step; [|apply Chat.step_new_message].
      eapply Chat.reachable_step; [apply Chat.reachable_initial|].
      apply (Chat.step_select any_snapshot (SampleChat.room "r1") JNull).
    + destruct (Hselect (SampleChat.room "r2") JNull) as [_ Hnone]. exact Hnone.
Defined.

Lemma clearUnreadForKey_lookup_other key other s :
  other ≠ key →
  Chat.unreadCounts (Chat.clearUnreadForKey key s) !! other = Chat.unreadCounts s !! other.
Proof.
  intros Hne. destruct (clearUnreadForKey_unread key s) as [E | [_ E]]; rewrite E; [done|].
  by apply lookup_delete_ne.
Qed.

Lemma clearUnreadForKey_lookup_None key other s :
  Chat.unreadCounts s !! other = None →
  Chat.unreadCounts (Chat.clearUnreadForKey key s) !! other = None.
Proof.
  intros Hnone. destruct (clearUnreadForKey_unread key s) as [E | [_ E]]; rewrite E; [done|].
  apply lookup_delete_None. by right.
Qed.

Lemma buildDmNotificationKey_nonempty id : buildDmNotificationKey id ≠ "".
Proof. done. Qed.

Lemma buildRoomNotificationKey_nonempty id : buildRoomNotificationKey id ≠ "".
Proof. done. Qed.

(** C8. For an inbound conversation:cleared event that carries a target
    id: when the key reference is the room key or the direct-message key
    of the target, the message list becomes empty and the reply composer is
    reset, and otherwise both are left alone; in every reachable state the
    unread entries under both keys of the target are gone afterwards, and
    the entries under other keys are untouched. *)
Theorem conversation_cleared_outcome (s : Chat.State) (payload : jsval) :
  Chat.clearedTarget payload ≠ "" →
  let dm := buildDmNotificationKey (Chat.clearedTarget payload) in
  let room := buildRoomNotificationKey (Chat.clearedTarget payload) in
  let s' := Chat.onConversationCleared payload s in
  (Chat.activeNotificationKeyRef s = dm ∨ Chat.activeNotificationKeyRef s = room →
   Chat.messages s' = [] ∧ Chat.replyToMessage s' = JNull)
  ∧ (Chat.activeNotificationKeyRef s ≠ dm → Chat.activeNotificationKeyRef s ≠ room →
     Chat.messages s' = Chat.messages s ∧ Chat.replyToMessage s' = Chat.replyToMessage s)
  ∧ (∀ accept userId, Chat.reachable accept userId s →
     Chat.unreadCounts s' !! dm = None ∧ Chat.unreadCounts s' !! room = None)
  ∧ (∀ other, other ≠ dm → other ≠ room →
     Chat.unreadCounts s' !! other = Chat.unreadCounts s !! other).
Proof.
  intros Htarget dm room s'. subst s'. unfold Chat.onConversationCleared.
  apply String.eqb_neq in Htarget. rewrite Htarget.
  fold dm room.
  set (s1 := Chat.clearUnreadForKey dm s).
  set (s2 := Chat.clearUnreadForKey room s1).
  destruct (clearUnreadForKey_frame dm s) as (Hm1 & Hrp1 & _ & _ & _ & Hr1 & _).
  destruct (clearUnreadForKey_frame room s1) as (Hm2 & Hrp2 & _ & _ & _ & Hr2 & _).
  fold s1 in Hm1, Hrp1, Hr1. fold s2 in Hm2, Hrp2, Hr2.
  assert (Href : Chat.activeNotificationKeyRef s2 = Chat.activeNotificationKeyRef s)
    by congruence.
  assert (Hunread : ∀ s3, Chat.unreadCounts s3 = Chat.unreadCounts s2 →
            (∀ accept userId, Chat.reachable accept userId s →
               Chat.unreadCounts s3 !! dm = None ∧ Chat.unreadCounts s3 !! room = None)
            ∧ (∀ other, other ≠ dm → other ≠ room →
               Chat.unreadCounts s3 !! other = Chat.unreadCounts s !! other)).
  { intros s3 ->. split.
    - intros accept userId Hreach.
      destruct (reachable_router _ _ _ Hreach) as [_ Hpos _ _ _].
      assert (Hdm : Chat.unreadCounts s1 !! dm = None).
      { apply clearUnreadForKey_removes; [apply buildDmNotificationKey_nonempty|].
        apply Hpos. }
      split.
      + by apply clearUnreadForKey_lookup_None.
      + apply clearUnreadForKey_removes; [apply buildRoomNotificationKey_nonempty|].
        intros count Hc. destruct (decide (room = dm)) as [E|E].
        * rewrite E, Hdm in Hc. done.
        * unfold s1 in Hc. rewrite clearUnreadForKey_lookup_other in Hc by done. eauto.
    - intros other H1 H2. unfold s2, s1.
      by rewrite !clearUnreadForKey_lookup_other. }
  rewrite Href.
  destruct (String.eqb (Chat.activeNotificationKeyRef s) dm
            || String.eqb (Chat.activeNotificationKeyRef s) room) eqn:E.
  - split; [done|]. split; [|by apply Hunread].
    intros H1 H2. apply String.eqb_neq in H1, H2. by rewrite H1, H2 in E.
  - apply orb_false_iff in E as [E1 E2]. apply String.eqb_neq in E1, E2.
    split; [by intros [?|?]|]. split; [|by apply Hunread].
    intros _ _. split; congruence.
Qed.

Lemma conversation_cleared_outcome_witness :
  Chat.messages
    (Chat.onConversationCleared (JObj [("receiverUserIdOrRoomId", JStr "r1")])
       SampleMessages.listed) = []
  ∧ Chat.unreadCounts
      (Chat.onConversationCleared (JObj [("receiverUserIdOrRoomId", JStr "r2")])
         SampleChat.with_unread) !! "room:r2" = None.
Proof.
  split.
  - destruct (conversation_cleared_outcome SampleMessages.listed
                (JObj [("receiverUserIdOrRoomId", JStr "r1")])) as (H & _);
      [discriminate|].
    apply H. by right.
  - destruct (conversation_cleared_outcome SampleChat.with_unread
                (JObj [("receiverUserIdOrRoomId", JStr "r2")])) as (_ & _ & H & _);
      [discriminate|].
    apply (H any_snapshot "alice").
    eapply Chat.reachable_step; [|apply Chat.step_new_message].
    eapply Chat.reachable_step; [apply Chat.reachable_initial|].
    apply (Chat.step_select any_snapshot (SampleChat.room "r1") JNull).
Defined.

(** ** Message reconciler *)

Lemma length_list_ascii_of_string s :
  length (String.list_ascii_of_string s) = String.length s.
Proof. induction s; simpl; congruence. Qed.

Lemma get_list_ascii_of_string s i :
  String.get i s = String.list_ascii_of_string s !! i.
Proof.
  revert i. induction s as [|c s IH]; intros [|i]; simpl; done.
Qed.

(** [length_of] and [index] read the [elements] of a value. *)
Lemma elements_length v items :
  elements v = Some items → length_of v = JNum (Z.of_nat (length items)).
Proof.
  destruct v as [| | | |s| |fields]; simpl; try done.
  - intros [= <-]. by rewrite length_fmap, length_list_ascii_of_string.
  - by intros [= <-].
  - destruct (assoc "length" fields) as [| | |n| | |]; try done.
    destruct (0 <=? n)%Z eqn:Hn; [|done]. intros [= <-].
    apply Z.leb_le in Hn. rewrite length_fmap, length_seq. f_equal. lia.
Qed.

Lemma elements_index v items i :
  elements v = Some items → i < length items →
  index v i = default JUndefined (items !! i).
Proof.
  destruct v as [| | | |s| |fields]; simpl; try done.
  - intros [= <-] _. rewrite list_lookup_fmap, get_list_ascii_of_string.
    by destruct (String.list_ascii_of_string s !! i).
  - by intros [= <-].
  - destruct (assoc "length" fields) as [| | |n| | |]; try done.
    destruct (0 <=? n)%Z; [|done]. intros [= <-].
    rewrite length_fmap, length_seq. intros Hi.
    by rewrite list_lookup_fmap, lookup_seq_lt.
Qed.

Lemma elements_None_length v k :
  elements v = None → strict_eq (length_of v) (JNum (Z.of_nat k)) = false.
Proof.
  destruct v as [| | | |s| |fields]; simpl; try done.
  destruct (assoc "length" fields) as [| | |n| | |]; try done.
  destruct (0 <=? n)%Z eqn:Hn; [done|]. intros _.
  apply Z.leb_gt in Hn. simpl. apply Z.eqb_neq. lia.
Qed.

Lemma same_reaction_reflect left right :
  negb (negb (String.eqb (user left) (user right))
        || negb (strict_eq (emoji left) (emoji right))) = true
  ↔ same_reaction left right.
Proof.
  unfold same_reaction, identical.
  destruct (String.eqb (user left) (user right)) eqn:E; simpl.
  - apply String.eqb_eq in E. destruct (strict_eq _ _); simpl; intuition congruence.
  - apply String.eqb_neq in E. intuition congruence.
Qed.

Lemma areReactionsEqual_array previous items :
  previous ≠ JUndefined →
  areReactionsEqual previous (JArr items) = true
  ↔ ∃ left, elements previous = Some left
            ∧ Forall2 same_reaction (normalizeReaction <$> left) (normalizeReaction <$> items).
Proof.
  intros Hdef. unfold areReactionsEqual.
  replace (match previous with JUndefined => JArr [] | _ => previous end) with previous
    by (by destruct previous).
  destruct (elements previous) as [left|] eqn:Hel.
  - rewrite (elements_length _ _ Hel). unfold loop_bound.
    rewrite (elements_length _ _ Hel). simpl. rewrite Nat2Z.id.
    destruct (Z.of_nat (length left) =? Z.of_nat (length items))%Z eqn:Hlen; simpl.
    + apply Z.eqb_eq in Hlen. apply Nat2Z.inj in Hlen.
      rewrite forallb_forall. split.
      * intros Hall. exists left. split; [done|].
        apply Forall2_same_length_lookup. split; [by rewrite !length_fmap|].
        intros i x y Hx Hy.
        rewrite list_lookup_fmap in Hx, Hy.
        destruct (left !! i) as [p|] eqn:Hp; [|done].
        destruct (items !! i) as [n|] eqn:Hn; [|done].
        simpl in Hx, Hy. injection Hx as <-. injection Hy as <-.
        assert (Hi : i < length left) by (by apply lookup_lt_Some in Hp).
        specialize (Hall i). rewrite (elements_index _ _ i Hel Hi) in Hall.
        simpl index in Hall. rewrite Hp, Hn in Hall.
        apply (same_reaction_reflect (normalizeReaction p) (normalizeReaction n)).
        apply Hall. apply in_seq. lia.
      * intros (left' & [= <-] & Hall) i Hi. apply in_seq in Hi.
        rewrite (elements_index _ _ i Hel) by lia. simpl.
        apply Forall2_same_length_lookup in Hall as [_ Hall].
        destruct (lookup_lt_is_Some_2 left i) as [p Hp]; [lia|].
        destruct (lookup_lt_is_Some_2 items i) as [n Hn]; [lia|].
        rewrite Hp, Hn.
        apply (same_reaction_reflect (normalizeReaction p) (normalizeReaction n)).
        apply (Hall i); rewrite list_lookup_fmap; [by rewrite Hp | by rewrite Hn].
    + split; [done|]. intros (left' & [= <-] & Hall).
      apply Forall2_length in Hall. rewrite !length_fmap in Hall.
      apply Z.eqb_neq in Hlen. lia.
  - simpl length_of. rewrite (elements_None_length _ _ Hel). simpl. split; [done|].
    by intros (left & [=] & _).
Qed.

Lemma toId_or_else_null v : toId (or_else v JNull) = toId v.
Proof. unfold or_else. destruct (truthy v) eqn:E; [done|]. unfold toId. by rewrite E. Qed.

Lemma js_String_strict_eq a b : strict_eq (JStr a) (JStr b) = String.eqb a b.
Proof. done. Qed.

(** The reply comparison of [shouldReuseMessage] is equality of the two
    reply previews. *)
Lemma isReplyEqual_reflect previous next :
  let previousReply := normalizeReplyPreview (assoc "replyTo" previous) in
  let nextReply := normalizeReplyPreview (assoc "replyTo" next) in
  (negb (truthy previousReply) && negb (truthy nextReply))
  || (truthy previousReply
      && truthy nextReply
      && strict_eq (get "_id" previousReply) (get "_id" nextReply)
      && strict_eq (get "messageContent" previousReply) (get "messageContent" nextReply)
      && String.eqb (toId (get "senderUserId" previousReply))
                    (toId (get "senderUserId" nextReply))
      && String.eqb (js_String (get "createdAt" previousReply))
                    (js_String (get "createdAt" nextReply))) = true
  ↔ reply_preview previous = reply_preview next.
Proof.
  unfold reply_preview, normalizeReplyPreview.
  set (p := assoc "replyTo" previous). set (n := assoc "replyTo" next).
  rewrite <- !negb_andb.
  destruct (truthy p && is_object p); destruct (truthy n && is_object n); simpl;
    try (split; done).
  rewrite !toId_or_else_null.
  split.
  - intros H. repeat (apply andb_true_iff in H as [H ?]).
    repeat match goal with H : String.eqb _ _ = true |- _ => apply String.eqb_eq in H end.
    congruence.
  - intros [= -> -> -> ->]. by rewrite !String.eqb_refl.
Qed.

(** The predicate of the code is the field equality of the specification,
    for a next message whose reactions are an array (every normalised
    message). *)
Lemma shouldReuseMessage_field_equal previous next :
  is_array (assoc "reactions" next) = true →
  shouldReuseMessage (Some previous) next = true ↔ field_equal previous next.
Proof.
  intros Harr. unfold shouldReuseMessage.
  pose proof (isReplyEqual_reflect previous next) as Hreply. simpl in Hreply.
  destruct (assoc "reactions" next) as [| | | | |items|] eqn:Hnext; try done.
  assert (Hreact :
    areReactionsEqual (or_else (assoc "reactions" previous) (JArr [])) (JArr items) = true
    ↔ ∃ left right, reaction_list previous = Some left ∧ reaction_list next = Some right
                    ∧ Forall2 same_reaction left right).
  { rewrite areReactionsEqual_array.
    - unfold reaction_list. rewrite Hnext. simpl. split.
      + intros (left & -> & H). eauto.
      + intros (left & right & H1 & [= <-] & H).
        destruct (elements _) as [l|]; [|done]. injection H1 as <-. eauto.
    - unfold or_else. destruct (assoc "reactions" previous); simpl; try done.
      + by destruct b.
      + by destruct (n =? 0)%Z.
      + by destruct (String.eqb s ""). }
  change (or_else (JArr items) (JArr [])) with (JArr items).
  split.
  - intros H. repeat (apply andb_true_iff in H as [H ?]).
    repeat match goal with H : String.eqb _ _ = true |- _ => apply String.eqb_eq in H end.
    split; try done.
    + by apply Hreply.
    + by apply Hreact.
  - intros [H1 H2 H3 H4 H5 H6 H7 H8 H9]. unfold msg_id, identical in *.
    rewrite H1, H2, H3, H4, H5, H6, H7, !String.eqb_refl. simpl.
    apply andb_true_iff. split; [by apply Hreact | by apply Hreply].
Qed.

Lemma assoc_set_field_eq k v o : assoc k (set_field k v o) = v.
Proof.
  induction o as [|[k0 v0] o IH]; simpl; [by rewrite String.eqb_refl|].
  destruct (String.eqb k0 k) eqn:E; simpl; [by rewrite String.eqb_refl|].
  by rewrite String.eqb_sym, E.
Qed.

Lemma assoc_filter_ne k k' (o : obj) :
  k' ≠ k → assoc k' (filter (λ p, p.1 ≠ k) o) = assoc k' o.
Proof.
  intros Hne. induction o as [|[k0 v0] o IH]; [done|].
  rewrite filter_cons. simpl.
  destruct (decide (k0 ≠ k)) as [H|H]; simpl.
  - by rewrite IH.
  - apply dec_stable in H. subst k0.
    apply String.eqb_neq in Hne. by rewrite Hne.
Qed.

Lemma assoc_set_field_ne k k' v o : k' ≠ k → assoc k' (set_field k v o) = assoc k' o.
Proof.
  intros Hne. pose proof Hne as Hne'. apply String.eqb_neq in Hne'.
  induction o as [|[k0 v0] o IH]; simpl; [by rewrite Hne'|].
  destruct (String.eqb k0 k) eqn:E; simpl.
  - apply String.eqb_eq in E. subst k0. rewrite Hne'. by apply assoc_filter_ne.
  - by rewrite IH.
Qed.

Lemma msg_id_set_field k v o : k ≠ "_id" → msg_id (set_field k v o) = msg_id o.
Proof. intros H. unfold msg_id. by rewrite assoc_set_field_ne. Qed.

Lemma msg_id_normalizeMessage m : msg_id (normalizeMessage m) = msg_id m.
Proof. unfold normalizeMessage. by rewrite !msg_id_set_field. Qed.

Lemma normalizeMessage_reactions m :
  is_array (assoc "reactions" (normalizeMessage m)) = true.
Proof.
  unfold normalizeMessage.
  rewrite assoc_set_field_ne by done. rewrite assoc_set_field_eq.
  by destruct (is_array (assoc "reactions" m)) eqn:E.
Qed.

(** Normalisation leaves every field but [reactions] and [replyTo] alone. *)
Lemma normalizeMessage_other_fields k m :
  k ≠ "reactions" → k ≠ "replyTo" → assoc k (normalizeMessage m) = assoc k m.
Proof. intros H1 H2. unfold normalizeMessage. by rewrite !assoc_set_field_ne. Qed.

Lemma previousById_snoc previous message :
  previousById (previous ++ [message])
  = <[msg_id (val message) := message]> (previousById previous).
Proof. unfold previousById. by rewrite foldl_app. Qed.

(** The index holds only messages of the list, each under its own id. *)
Lemma previousById_lookup_Some previous id e :
  previousById previous !! id = Some e → e ∈ previous ∧ msg_id (val e) = id.
Proof.
  induction previous as [|message previous IH] using rev_ind; [done|].
  rewrite previousById_snoc.
  destruct (decide (msg_id (val message) = id)) as [<-|Hne].
  - rewrite lookup_insert_eq. intros [= <-]. split; [|done].
    apply elem_of_app. right. by apply list_elem_of_singleton.
  - rewrite lookup_insert_ne by done. intros H. apply IH in H as [H1 H2].
    split; [|done]. apply elem_of_app. by left.
Qed.

(** With distinct ids, every message of the list is the one the index holds
    for its id. *)
Lemma previousById_lookup_elem previous e :
  NoDup (ids_of previous) → e ∈ previous →
  previousById previous !! msg_id (val e) = Some e.
Proof.
  induction previous as [|message previous IH] using rev_ind; intros Hnd He.
  - by apply elem_of_nil in He.
  - unfold ids_of in Hnd. rewrite fmap_app in Hnd. simpl in Hnd.
    apply NoDup_app in Hnd as (Hnd & Hdisj & _).
    rewrite previousById_snoc.
    apply elem_of_app in He as [He|He].
    + rewrite lookup_insert_ne; [by apply IH|].
      intros Heq. apply (Hdisj (msg_id (val e))).
      * apply list_elem_of_fmap. by exists e.
      * rewrite <- Heq. by apply list_elem_of_singleton.
    + apply list_elem_of_singleton in He. subst e. apply lookup_insert_eq.
Qed.

Lemma previousById_lookup_None previous id :
  id ∉ ids_of previous → previousById previous !! id = None.
Proof.
  intros Hid. destruct (previousById previous !! id) as [e|] eqn:E; [|done].
  apply previousById_lookup_Some in E as [He <-].
  exfalso. apply Hid. apply list_elem_of_fmap. by exists e.
Qed.

(** What one turn of the reconciler returns. *)
Lemma reconcileOne_cases byId next m :
  (∃ e, byId !! msg_id m = Some e
        ∧ field_equal (val e) (normalizeMessage m)
        ∧ reconcileOne byId next m = e)
  ∨ ((∀ e, byId !! msg_id m = Some e → ¬ field_equal (val e) (normalizeMessage m))
     ∧ reconcileOne byId next m = {| addr := next; val := normalizeMessage m |}).
Proof.
  unfold reconcileOne. cbn [val]. rewrite msg_id_normalizeMessage.
  destruct (byId !! msg_id m) as [e|] eqn:E.
  - change (val <$> Some e) with (Some (val e)).
    destruct (shouldReuseMessage (Some (val e)) (normalizeMessage m)) eqn:Hreuse.
    + left. exists e. split; [done|]. split; [|done].
      apply shouldReuseMessage_field_equal; [apply normalizeMessage_reactions | done].
    + right. split; [|done]. intros e' [= <-] Heq.
      apply shouldReuseMessage_field_equal in Heq; [|apply normalizeMessage_reactions].
      congruence.
  - right. split; [|done]. by intros e' [=].
Qed.

Lemma reconcileOne_id byId next m : msg_id (val (reconcileOne byId next m)) = msg_id m.
Proof.
  destruct (reconcileOne_cases byId next m) as [(e & _ & Heq & ->) | [_ ->]].
  - rewrite (same_id _ _ Heq). apply msg_id_normalizeMessage.
  - apply msg_id_normalizeMessage.
Qed.

Lemma reconcile_from_lookup byId next incoming i m :
  incoming !! i = Some m →
  reconcile_from byId next incoming !! i = Some (reconcileOne byId (next + i) m).
Proof.
  revert next i. induction incoming as [|m0 incoming IH]; intros next [|i] H; try done.
  - simpl in *. injection H as <-. by rewrite Nat.add_0_r.
  - simpl in *. rewrite (IH (S next) i H). do 2 f_equal. lia.
Qed.

Lemma reconcile_from_length byId next incoming :
  length (reconcile_from byId next incoming) = length incoming.
Proof. revert next. induction incoming; intros; simpl; [done|]. by rewrite IHincoming. Qed.

Lemma reconcile_from_ids byId next incoming :
  ids_of (reconcile_from byId next incoming) = msg_id <$> incoming.
Proof.
  revert next. induction incoming as [|m incoming IH]; intros next; [done|].
  unfold ids_of in *. simpl. by rewrite reconcileOne_id, IH.
Qed.

Lemma reconcile_from_elem byId next incoming e :
  e ∈ reconcile_from byId next incoming →
  ∃ i m, incoming !! i = Some m ∧ e = reconcileOne byId (next + i) m.
Proof.
  intros He. apply list_elem_of_lookup in He as [i Hi].
  assert (Hlt : i < length incoming).
  { rewrite <- (reconcile_from_length byId next). by apply lookup_lt_Some in Hi. }
  destruct (lookup_lt_is_Some_2 incoming i Hlt) as [m Hm].
  exists i, m. split; [done|].
  rewrite (reconcile_from_lookup _ _ _ _ _ Hm) in Hi. congruence.
Qed.

(** C3, as stated, fails when two in-memory messages share an id: the id
    index keeps the later one, so an incoming message that is field-equal
    to the earlier one comes back as a new object, not as that message. *)
Lemma reconcile_shadowed_entry_counterexample :
  Chat.reachable any_snapshot "alice" SampleMessages.two_versions
  ∧ Chat.messages SampleMessages.two_versions
    = [ {| addr := 0; val := normalizeMessage SampleMessages.m2 |};
        {| addr := 1; val := normalizeMessage SampleMessages.m2_edited |} ]
  ∧ field_equal (normalizeMessage SampleMessages.m2) (normalizeMessage SampleMessages.m2)
  ∧ reconcileMessages 2 (Chat.messages SampleMessages.two_versions) [SampleMessages.m2] !! 0
    = Some {| addr := 2; val := normalizeMessage SampleMessages.m2 |}.
Proof.
  split; [|split; [|split]].
  - eapply Chat.reachable_step.
    + eapply Chat.reachable_step; [apply Chat.reachable_initial|].
      apply (Chat.step_select any_snapshot (SampleChat.room "r1") JNull).
    + by apply (Chat.step_fetch any_snapshot SampleChat.in_room
                  (Some [SampleMessages.m2; SampleMessages.m2_edited])).
  - reflexivity.
  - apply shouldReuseMessage_field_equal; [reflexivity | vm_compute; reflexivity].
  - vm_compute. reflexivity.
Qed.

(** C3, amended. In a reconcile cycle over an in-memory list with pairwise
    distinct ids, an incoming message that is field-equal to an existing
    in-memory message comes back as that very object (same address, same
    value); an incoming message that no in-memory message is field-equal
    to comes back as its freshly normalised version, a new object whose
    address no in-memory message has. *)
Theorem reconcile_keeps_field_equal_objects
    (next : nat) (previous : list mref) (incoming : list obj) (i : nat) (m : obj) :
  NoDup (ids_of previous) →
  incoming !! i = Some m →
  (∀ e, e ∈ previous → field_equal (val e) (normalizeMessage m) →
        reconcileMessages next previous incoming !! i = Some e)
  ∧ ((∀ e, e ∈ previous → ¬ field_equal (val e) (normalizeMessage m)) →
     reconcileMessages next previous incoming !! i
     = Some {| addr := next + i; val := normalizeMessage m |})
  ∧ (Forall (λ e, addr e < next) previous →
     ∀ e, e ∈ previous → addr e ≠ next + i).
Proof.
  intros Hnd Hm. unfold reconcileMessages.
  rewrite (reconcile_from_lookup _ _ _ _ _ Hm).
  split; [|split].
  - intros e He Heq.
    assert (Hlook : previousById previous !! msg_id m = Some e).
    { rewrite <- (msg_id_normalizeMessage m), <- (same_id _ _ Heq).
      by apply previousById_lookup_elem. }
    destruct (reconcileOne_cases (previousById previous) (next + i) m)
      as [(e' & He' & _ & ->) | [Hno _]].
    + congruence.
    + by destruct (Hno e Hlook).
  - intros Hno.
    destruct (reconcileOne_cases (previousById previous) (next + i) m)
      as [(e' & He' & Heq & _) | [_ ->]]; [|done].
    apply previousById_lookup_Some in He' as [He' _]. by destruct (Hno e' He').
  - intros Hall e He. rewrite Forall_forall in Hall. specialize (Hall e He). lia.
Qed.

Lemma reconcile_keeps_field_equal_objects_witness :
  reconcileMessages 2 [SampleMessages.e1; SampleMessages.e2]
    [SampleMessages.m1; SampleMessages.m2_edited] !! 0 = Some SampleMessages.e1
  ∧ reconcileMessages 2 [SampleMessages.e1; SampleMessages.e2]
      [SampleMessages.m1; SampleMessages.m2_edited] !! 1
    = Some {| addr := 3; val := normalizeMessage SampleMessages.m2_edited |}.
Proof.
  assert (Hnd : NoDup (ids_of [SampleMessages.e1; SampleMessages.e2])).
  { apply (bool_decide_unpack _). vm_compute. exact I. }
  split.
  - destruct (reconcile_keeps_field_equal_objects 2
                [SampleMessages.e1; SampleMessages.e2]
                [SampleMessages.m1; SampleMessages.m2_edited] 0 SampleMessages.m1 Hnd eq_refl)
      as (H & _).
    apply H.
    + apply list_elem_of_here.
    + apply shouldReuseMessage_field_equal; [reflexivity | vm_compute; reflexivity].
  - destruct (reconcile_keeps_field_equal_objects 2
                [SampleMessages.e1; SampleMessages.e2]
                [SampleMessages.m1; SampleMessages.m2_edited] 1 SampleMessages.m2_edited
                Hnd eq_refl)
      as (_ & H & _).
    apply H. intros e He Heq.
    apply shouldReuseMessage_field_equal in Heq; [|reflexivity].
    apply elem_of_cons in He as [-> | He]; [vm_compute in Heq; discriminate|].
    apply list_elem_of_singleton in He as ->. vm_compute in Heq. discriminate.
Defined.

(** C9. After a fetch-and-merge cycle the list has one entry per message
    of the polled snapshot, in the snapshot's order and under the
    snapshot's ids: entry [i] is the normalised snapshot message [i] or an
    in-memory object field-equal to it.  An in-memory message whose id is
    absent from the snapshot is not in the list any more.  This holds for
    every state the answer finds, whatever is selected by then. *)
Theorem fetch_installs_snapshot (s : Chat.State) (response : option (list obj)) :
  let snapshot := default [] response in
  let s' := Chat.fetchMessages response s in
  ids_of (Chat.messages s') = msg_id <$> snapshot
  ∧ length (Chat.messages s') = length snapshot
  ∧ (∀ i m, snapshot !! i = Some m →
       ∃ e, Chat.messages s' !! i = Some e
            ∧ (e = {| addr := Chat.nextAddr s + i; val := normalizeMessage m |}
               ∨ (e ∈ Chat.messages s ∧ field_equal (val e) (normalizeMessage m))))
  ∧ (∀ e, e ∈ Chat.messages s → msg_id (val e) ∉ (msg_id <$> snapshot) →
       e ∉ Chat.messages s').
Proof.
  intros snapshot s'. subst s'. unfold Chat.fetchMessages.
  simpl. fold snapshot. unfold reconcileMessages.
  assert (Hids : ids_of (reconcile_from (previousById (Chat.messages s)) (Chat.nextAddr s)
                           snapshot) = msg_id <$> snapshot) by apply reconcile_from_ids.
  split; [done|]. split; [apply reconcile_from_length|]. split.
  - intros i m Hm. rewrite (reconcile_from_lookup _ _ _ _ _ Hm).
    eexists. split; [done|].
    destruct (reconcileOne_cases (previousById (Chat.messages s)) (Chat.nextAddr s + i) m)
      as [(e & He & Heq & ->) | [_ ->]]; [right | by left].
    apply previousById_lookup_Some in He as [He _]. done.
  - intros e He Hid Hin. apply Hid. rewrite <- Hids.
    apply list_elem_of_fmap. by exists e.
Qed.

Lemma fetch_installs_snapshot_witness :
  ids_of (Chat.messages
            (Chat.fetchMessages (Some [SampleMessages.m2_edited]) SampleMessages.listed))
  = ["m2"]
  ∧ ids_of (Chat.messages
              (Chat.fetchMessages (Some [SampleMessages.m2_edited])
                 (Chat.select JNull JNull SampleMessages.listed)))
    = ["m2"].
Proof.
  split.
  - by destruct (fetch_installs_snapshot SampleMessages.listed
                   (Some [SampleMessages.m2_edited])) as (H & _).
  - by destruct (fetch_installs_snapshot (Chat.select JNull JNull SampleMessages.listed)
                   (Some [SampleMessages.m2_edited])) as (H & _).
Defined.

(** ** The message list across steps *)

Lemma clearUnreadForKey_list key s :
  Chat.messages (Chat.clearUnreadForKey key s) = Chat.messages s
  ∧ Chat.nextAddr (Chat.clearUnreadForKey key s) = Chat.nextAddr s.
Proof. by destruct (clearUnreadForKey_frame key s) as (-> & _ & _ & _ & _ & _ & _ & ->). Qed.

Lemma commitSelection_list accept before s :
  list_update accept (Chat.messages s, Chat.nextAddr s)
    (Chat.messages (Chat.commitSelection before s),
     Chat.nextAddr (Chat.commitSelection before s)).
Proof.
  unfold Chat.commitSelection.
  set (s1 := if String.eqb _ _ then s else _).
  assert (H1 : Chat.messages s1 = Chat.messages s ∧ Chat.nextAddr s1 = Chat.nextAddr s).
  { unfold s1. destruct (String.eqb _ _); [done|].
    by destruct (clearUnreadForKey_list (Chat.activeNotificationKey s)
                   (Chat.setActiveNotificationKeyRef (Chat.activeNotificationKey s) s))
      as [-> ->]. }
  destruct H1 as [Hm Hn].
  destruct (negb _ && negb _); destruct (_ && _); simpl; rewrite ?Hm, ?Hn; constructor.
Qed.

Lemma applyReactions_list accept id reactions s :
  list_update accept (Chat.messages s, Chat.nextAddr s)
    (Chat.messages (Chat.applyReactions id reactions s),
     Chat.nextAddr (Chat.applyReactions id reactions s)).
Proof. simpl. constructor. Qed.

Lemma applyDeletion_list accept id s :
  list_update accept (Chat.messages s, Chat.nextAddr s)
    (Chat.messages (Chat.applyDeletion id s), Chat.nextAddr (Chat.applyDeletion id s)).
Proof. simpl. constructor. Qed.

Lemma appendRealtimeMessage_list accept message s :
  list_update accept (Chat.messages s, Chat.nextAddr s)
    (Chat.messages (Chat.appendRealtimeMessage message s),
     Chat.nextAddr (Chat.appendRealtimeMessage message s)).
Proof.
  unfold Chat.appendRealtimeMessage.
  destruct message; try constructor.
  destruct (negb _); [constructor|].
  destruct (Chat.hasMessage _ _) eqn:E; [constructor|].
  simpl. by constructor.
Qed.

Lemma step_list_update accept s s' :
  Chat.step accept s s' →
  list_update accept (Chat.messages s, Chat.nextAddr s) (Chat.messages s', Chat.nextAddr s').
Proof.
  intros Hstep.
  destruct Hstep as [payload s | payload s | payload s | payload s | roomId s
                    | response s Haccept | room selected s | key s
                    | messageId reactions s | message s | s | s | userId s
                    | reply s].
  - unfold Chat.onNewMessage.
    destruct (String.eqb _ ""); [constructor|].
    destruct (bool_decide _); [constructor|].
    destruct (String.eqb _ ""); [constructor|].
    destruct (String.eqb _ _); [|constructor].
    apply (appendRealtimeMessage_list accept _ (Chat.setProcessed _ s)).
  - unfold Chat.onReactionUpdated. destruct (_ || _); [constructor|].
    apply applyReactions_list.
  - unfold Chat.onMessageDeleted. destruct (String.eqb _ _); [constructor|].
    apply applyDeletion_list.
  - unfold Chat.onConversationCleared. destruct (String.eqb _ ""); [constructor|].
    set (s2 := Chat.clearUnreadForKey _ (Chat.clearUnreadForKey _ s)).
    assert (H : Chat.messages s2 = Chat.messages s ∧ Chat.nextAddr s2 = Chat.nextAddr s).
    { unfold s2.
      destruct (clearUnreadForKey_list
                  (buildRoomNotificationKey (Chat.clearedTarget payload))
                  (Chat.clearUnreadForKey
                     (buildDmNotificationKey (Chat.clearedTarget payload)) s)) as [-> ->].
      apply clearUnreadForKey_list. }
    destruct H as [Hm Hn].
    destruct (_ || _); simpl; rewrite ?Hm, ?Hn; constructor.
  - unfold Chat.removeRoomFromUi. destruct (negb (truthy roomId)); [constructor|].
    destruct (_ && _); [|constructor].
    apply (commitSelection_list accept s
             (Chat.setUnreadCounts _ (Chat.setSelection JNull (Chat.selectedUser s) s))).
  - unfold Chat.fetchMessages. simpl. by constructor.
  - apply (commitSelection_list accept s (Chat.setSelection room selected s)).
  - destruct (clearUnreadForKey_list key s) as [-> ->]. constructor.
  - apply applyReactions_list.
  - unfold Chat.handleDeleteMessage. destruct (_ || _); [constructor|].
    apply applyDeletion_list.
  - unfold Chat.handleClearActiveConversation. destruct (_ || _); [constructor|].
    set (s1 := Chat.setReplyToMessage _ _).
    destruct (clearUnreadForKey_list
                (buildDmNotificationKey
                   (js_String (or_else (get "_id" (Chat.selectedRoom s))
                                 (get "_id" (Chat.selectedUser s)))))
                (Chat.clearUnreadForKey
                   (buildRoomNotificationKey
                      (js_String (or_else (get "_id" (Chat.selectedRoom s))
                                    (get "_id" (Chat.selectedUser s))))) s1)) as [-> ->].
    destruct (clearUnreadForKey_list
                (buildRoomNotificationKey
                   (js_String (or_else (get "_id" (Chat.selectedRoom s))
                                 (get "_id" (Chat.selectedUser s))))) s1) as [-> ->].
    simpl. constructor.
  - constructor.
  - unfold Chat.syncAuthSession. destruct (String.eqb _ _); [constructor|].
    destruct (_ && _); simpl; constructor.
  - simpl. constructor.
Qed.

Lemma hasMessage_false id l : Chat.hasMessage id l = false ↔ id ∉ ids_of l.
Proof.
  unfold Chat.hasMessage, ids_of. induction l as [|e l IH]; simpl.
  - split; [|done]. intros _ H. by apply elem_of_nil in H.
  - rewrite orb_false_iff, IH, not_elem_of_cons, String.eqb_neq.
    split; intros [H1 H2]; (split; [|done]); intros E; by apply H1.
Qed.

Lemma replaceReactions_ids next id reactions l :
  ids_of (Chat.replaceReactions next id reactions l) = ids_of l.
Proof.
  revert next. unfold ids_of. induction l as [|e l IH]; intros next; [done|].
  simpl. rewrite IH. f_equal.
  destruct (String.eqb _ _); [|done]. simpl. by apply msg_id_set_field.
Qed.

Lemma dropReplyTo_ids next id l : ids_of (Chat.dropReplyTo next id l) = ids_of l.
Proof.
  revert next. unfold ids_of. induction l as [|e l IH]; intros next; [done|].
  simpl. rewrite IH. f_equal.
  destruct (_ && _); [|done]. simpl. by apply msg_id_set_field.
Qed.

Lemma filter_ids_NoDup (P : mref → Prop) `{∀ e, Decision (P e)} l :
  NoDup (ids_of l) → NoDup (ids_of (filter P l)).
Proof.
  unfold ids_of. intros Hnd. apply (sublist_NoDup _ _ Hnd).
  apply fmap_sublist, sublist_filter.
Qed.

(** Distinct ids survive every update, when snapshots have distinct ids. *)
Lemma list_update_distinct before after :
  list_update distinct_snapshot before after →
  NoDup (ids_of before.1) → NoDup (ids_of after.1).
Proof.
  intros Hupdate. destruct Hupdate as [l n | l n | l n m Hnew | l n id reactions
                                      | l n id | l n snapshot Hsnapshot]; simpl; intros Hnd.
  - done.
  - constructor.
  - unfold ids_of. rewrite fmap_app. simpl. rewrite msg_id_normalizeMessage.
    apply NoDup_app. split; [done|]. split; [|apply NoDup_singleton].
    intros id Hid Hm. apply list_elem_of_singleton in Hm as ->.
    by apply hasMessage_false in Hnew.
  - by rewrite replaceReactions_ids.
  - rewrite dropReplyTo_ids. by apply filter_ids_NoDup.
  - unfold reconcileMessages. by rewrite reconcile_from_ids.
Qed.

Lemma replaceReactions_addresses bound next id reactions l :
  next + length l ≤ bound →
  Forall (λ e, addr e < bound) l →
  Forall (λ e, addr e < bound) (Chat.replaceReactions next id reactions l).
Proof.
  revert next. induction l as [|e l IH]; intros next Hb Hall; [done|].
  simpl in *. apply Forall_cons in Hall as [He Hall].
  apply Forall_cons. split.
  - destruct (String.eqb _ _); simpl; [lia|done].
  - apply IH; [lia|done].
Qed.

Lemma dropReplyTo_addresses bound next id l :
  next + length l ≤ bound →
  Forall (λ e, addr e < bound) l →
  Forall (λ e, addr e < bound) (Chat.dropReplyTo next id l).
Proof.
  revert next. induction l as [|e l IH]; intros next Hb Hall; [done|].
  simpl in *. apply Forall_cons in Hall as [He Hall].
  apply Forall_cons. split.
  - destruct (_ && _); simpl; [lia|done].
  - apply IH; [lia|done].
Qed.

Lemma reconcileMessages_addresses next previous incoming :
  Forall (λ e, addr e < next) previous →
  Forall (λ e, addr e < next + length incoming) (reconcileMessages next previous incoming).
Proof.
  intros Hall. apply Forall_forall. intros e He.
  apply reconcile_from_elem in He as (i & m & Hm & ->).
  apply lookup_lt_Some in Hm.
  destruct (reconcileOne_cases (previousById previous) (next + i) m)
    as [(e & He & _ & ->) | [_ ->]]; simpl; [|lia].
  apply previousById_lookup_Some in He as [He _].
  rewrite Forall_forall in Hall. specialize (Hall e He). lia.
Qed.

(** Every object of the list lies below the allocator, after every update. *)
Lemma list_update_addresses accept before after :
  list_update accept before after →
  Forall (λ e, addr e < before.2) before.1 → Forall (λ e, addr e < after.2) after.1.
Proof.
  intros Hupdate. destruct Hupdate as [l n | l n | l n m Hnew | l n id reactions
                                      | l n id | l n snapshot Hsnapshot]; simpl; intros Hall.
  - done.
  - constructor.
  - apply Forall_app. split.
    + eapply Forall_impl; [exact Hall|]. simpl. intros. lia.
    + apply Forall_singleton. simpl. lia.
  - apply replaceReactions_addresses; [lia|].
    eapply Forall_impl; [exact Hall|]. simpl. intros. lia.
  - apply dropReplyTo_addresses; [lia|].
    apply Forall_forall. intros e He. apply list_elem_of_filter in He as [_ He].
    rewrite Forall_forall in Hall. specialize (Hall e He). lia.
  - by apply reconcileMessages_addresses.
Qed.

Lemma reachable_addresses accept userId s :
  Chat.reachable accept userId s → addresses_allocated s.
Proof.
  induction 1 as [|s s' _ IH Hstep]; [constructor|].
  apply (list_update_addresses accept _ _ (step_list_update _ _ _ Hstep) IH).
Qed.

Lemma reachable_distinct userId s :
  Chat.reachable distinct_snapshot userId s → NoDup (ids_of (Chat.messages s)).
Proof.
  induction 1 as [|s s' _ IH Hstep]; [constructor|].
  apply (list_update_distinct _ _ (step_list_update _ _ _ Hstep) IH).
Qed.

Lemma in_room_reachable accept : Chat.reachable accept "alice" SampleChat.in_room.
Proof.
  eapply Chat.reachable_step; [apply Chat.reachable_initial|].
  apply (Chat.step_select accept (SampleChat.room "r1") JNull).
Qed.

(** C2, as stated, fails: a poll that answers the same message twice puts
    two entries with the same id in the list. *)
Lemma reconcile_duplicate_ids_counterexample :
  Chat.reachable any_snapshot "alice" SampleMessages.doubled
  ∧ ids_of (Chat.messages SampleMessages.doubled) = ["m1"; "m1"]
  ∧ ¬ NoDup (ids_of (Chat.messages SampleMessages.doubled)).
Proof.
  split; [|split].
  - eapply Chat.reachable_step; [apply in_room_reachable|].
    by apply (Chat.step_fetch any_snapshot SampleChat.in_room
                (Some [SampleMessages.m1; SampleMessages.m1])).
  - reflexivity.
  - intros H. apply (bool_decide_pack _) in H. vm_compute in H. exact H.
Qed.

Lemma appendRealtimeMessage_existing fields s :
  msg_id fields ∈ ids_of (Chat.messages s) →
  Chat.appendRealtimeMessage (JObj fields) s = s.
Proof.
  intros Hin. unfold Chat.appendRealtimeMessage.
  destruct (negb _); [done|].
  destruct (Chat.hasMessage _ _) eqn:E; [done|].
  by apply hasMessage_false in E.
Qed.

Lemma onNewMessage_processed_id payload s :
  Chat.pushedMessageId payload ∈ Chat.processedRealtimeMessageIds s →
  Chat.onNewMessage payload s = s.
Proof.
  intros Hin. unfold Chat.onNewMessage.
  destruct (String.eqb _ ""); [done|].
  by rewrite bool_decide_eq_true_2.
Qed.

(** C2, amended. As long as every polled snapshot has pairwise distinct
    ids, no reachable message list contains two messages with the same id:
    append-live returns the state unchanged when a message with the same id
    is in the list, reconciliation yields exactly the ids of the snapshot
    in the snapshot's order, and a push delivery whose id is in the
    processed-event cache returns the state unchanged. *)
Theorem message_ids_stay_distinct (userId : string) (s : Chat.State) :
  Chat.reachable distinct_snapshot userId s →
  NoDup (ids_of (Chat.messages s))
  ∧ (∀ fields, msg_id fields ∈ ids_of (Chat.messages s) →
       Chat.appendRealtimeMessage (JObj fields) s = s)
  ∧ (∀ payload,
       NoDup (ids_of (Chat.messages (Chat.onNewMessage payload s)))
       ∧ (Chat.pushedMessageId payload ∈ Chat.processedRealtimeMessageIds s →
          Chat.onNewMessage payload s = s))
  ∧ (∀ next snapshot,
       ids_of (reconcileMessages next (Chat.messages s) snapshot) = msg_id <$> snapshot)
  ∧ (∀ response, distinct_snapshot (default [] response) →
       NoDup (ids_of (Chat.messages (Chat.fetchMessages response s)))).
Proof.
  intros Hreach. split; [by apply (reachable_distinct userId)|].
  split; [intros fields; apply appendRealtimeMessage_existing|]. split; [|split].
  - intros payload. split; [|apply onNewMessage_processed_id].
    apply (reachable_distinct userId).
    eapply Chat.reachable_step; [exact Hreach | constructor].
  - intros next snapshot. apply reconcile_from_ids.
  - intros response Hsnapshot. apply (reachable_distinct userId).
    eapply Chat.reachable_step; [exact Hreach|].
    by apply (Chat.step_fetch distinct_snapshot SampleChat.in_room).
Qed.

Lemma listed_reachable : Chat.reachable distinct_snapshot "alice" SampleMessages.listed.
Proof.
  eapply Chat.reachable_step; [apply in_room_reachable|].
  apply (Chat.step_fetch distinct_snapshot SampleChat.in_room
           (Some [SampleMessages.m1; SampleMessages.m2])); [reflexivity|].
  apply (bool_decide_unpack _). vm_compute. exact I.
Qed.

Lemma message_ids_stay_distinct_witness :
  NoDup (ids_of (Chat.messages SampleMessages.listed))
  ∧ Chat.appendRealtimeMessage (JObj SampleMessages.m2) SampleMessages.listed
    = SampleMessages.listed.
Proof.
  destruct (message_ids_stay_distinct "alice" SampleMessages.listed listed_reachable)
    as (Hnd & Happend & _).
  split; [exact Hnd|].
  apply Happend. apply (bool_decide_unpack _). vm_compute. exact I.
Defined.

(** ** Further properties of call signalling *)

Lemma truthy_or_else a b : truthy b = true → truthy (or_else a b) = true.
Proof. intros H. unfold or_else. by destruct (truthy a) eqn:E. Qed.

Lemma or_else_truthy a b : truthy a = true → or_else a b = a.
Proof. intros H. unfold or_else. by rewrite H. Qed.

Lemma append_nonempty a b : a ≠ "" → a +:+ b ≠ "".
Proof. by destruct a. Qed.

Lemma offerCallId_truthy h payload :
  Call.offerSender payload ≠ "" → truthy (Call.offerCallId h payload) = true.
Proof.
  intros Hsender. unfold Call.offerCallId.
  destruct (truthy (get "callId" payload)) eqn:E; [done|].
  unfold Call.buildCallId. simpl.
  apply negb_true_iff, String.eqb_neq. by apply append_nonempty.
Qed.

(** What a well-formed offer does to a session that is not busy. *)
Lemma onCallOffer_accepts h payload s description :
  Call.hasActiveCall s = false →
  Call.offerSender payload ≠ "" →
  Call.normalizeSessionDescription (get "offer" payload) = Some description →
  let s' := Call.onCallOffer h payload s in
  Call.status (Call.callState s') = Call.incoming
  ∧ Call.pendingIncomingCallRef s'
    = Some {| Call.fromUserId := Call.offerSender payload;
              Call.pendingCallType := Call.normalizeCallType (get "callType" payload);
              Call.pendingCallId := Call.offerCallId h payload;
              Call.offer := description;
              Call.pendingPeerName :=
                Call.resolvePeerName s (Call.offerSender payload)
                  (or_else (get "fromUserName" payload) (JStr "")) |}
  ∧ Call.activeCallPeerIdRef s' = Call.offerSender payload
  ∧ Call.activeCallIdRef s' = Call.offerCallId h payload
  ∧ Call.queuedIceCandidatesRef s' = []
  ∧ Call.peerConnectionRef s' = Call.peerConnectionRef s
  ∧ Call.emitted s' = Call.emitted s.
Proof.
  intros Hidle Hsender Hoffer s'. subst s'. unfold Call.onCallOffer.
  rewrite Hoffer, Hidle. apply String.eqb_neq in Hsender. rewrite Hsender.
  repeat split.
Qed.

Lemma hasActiveCall_peer s :
  Call.activeCallPeerIdRef s ≠ "" → Call.hasActiveCall s = true.
Proof.
  intros H. unfold Call.hasActiveCall. apply String.eqb_neq in H. rewrite H. simpl.
  by rewrite orb_true_r.
Qed.

Lemma onCallOffer_when_busy h payload s description :
  Call.hasActiveCall s = true →
  Call.offerSender payload ≠ "" →
  Call.normalizeSessionDescription (get "offer" payload) = Some description →
  Call.onCallOffer h payload s
  = Call.emit (Call.call_end (Call.offerSender payload) (Call.offerCallId h payload) "busy") s.
Proof.
  intros Hbusy Hsender Hoffer. unfold Call.onCallOffer.
  rewrite Hoffer, Hbusy. apply String.eqb_neq in Hsender. by rewrite Hsender.
Qed.

(** First come, first served: of two well-formed offers that reach a
    session that is not busy, the first becomes the pending incoming call
    under a truthy call id, and the second is answered "busy" and changes
    nothing of what the first stored. *)
Theorem offers_first_come_first_served
    (h1 h2 : Call.Host) (first second : jsval) (s : Call.State)
    (d1 d2 : Call.SessionDescription) :
  Call.hasActiveCall s = false →
  Call.offerSender first ≠ "" →
  Call.normalizeSessionDescription (get "offer" first) = Some d1 →
  Call.offerSender second ≠ "" →
  Call.normalizeSessionDescription (get "offer" second) = Some d2 →
  let s1 := Call.onCallOffer h1 first s in
  let s2 := Call.onCallOffer h2 second s1 in
  Call.status (Call.callState s1) = Call.incoming
  ∧ Call.activeCallPeerIdRef s1 = Call.offerSender first
  ∧ truthy (Call.activeCallIdRef s1) = true
  ∧ Call.hasActiveCall s1 = true
  ∧ s2 = Call.emit
           (Call.call_end (Call.offerSender second) (Call.offerCallId h2 second) "busy") s1.
Proof.
  intros Hidle H1 Hd1 H2 Hd2 s1 s2.
  destruct (onCallOffer_accepts h1 first s d1 Hidle H1 Hd1)
    as (Hstatus & _ & Hpeer & Hid & _).
  fold s1 in Hstatus, Hpeer, Hid.
  assert (Hbusy : Call.hasActiveCall s1 = true).
  { apply hasActiveCall_peer. by rewrite Hpeer. }
  split; [done|]. split; [done|]. split; [rewrite Hid; by apply offerCallId_truthy|].
  split; [done|].
  by apply (onCallOffer_when_busy h2 second s1 d2).
Qed.

Lemma offers_first_come_first_served_witness :
  Call.emitted
    (Call.onCallOffer Sample.host Sample.second_offer
       (Call.onCallOffer Sample.host Sample.good_offer Sample.idle_session))
  = [Call.call_end "dave" (JStr "dave-1700000000000-k3x9q2") "busy"].
Proof.
  destruct (offers_first_come_first_served Sample.host Sample.host
              Sample.good_offer Sample.second_offer Sample.idle_session
              {| Call.type := "offer"; Call.sdp := "v=0" |}
              {| Call.type := "offer"; Call.sdp := "v=1" |})
    as (_ & _ & _ & _ & H);
    [reflexivity | discriminate | reflexivity | discriminate | reflexivity |].
  rewrite H. reflexivity.
Defined.

Lemma resetCallSession_torn_down errorMessage s :
  CallHandlers.torn_down errorMessage (Call.resetCallSession errorMessage false s)
  ∧ Call.hasActiveCall (Call.resetCallSession errorMessage false s) = false
  ∧ Call.emitted (Call.resetCallSession errorMessage false s) = Call.emitted s.
Proof. repeat split. Qed.

Lemma endActiveCall_silent reason errorMessage s :
  CallHandlers.torn_down errorMessage (Call.endActiveCall false reason errorMessage false s)
  ∧ Call.hasActiveCall (Call.endActiveCall false reason errorMessage false s) = false
  ∧ Call.emitted (Call.endActiveCall false reason errorMessage false s) = Call.emitted s.
Proof. repeat split. Qed.

(** Ending the active call leaves a session that is not busy, with every
    call reference cleared and the error on display; the peer is told, once
    and with the given reason, exactly when that was asked for and a peer
    id was active; and the next well-formed offer is taken as an incoming
    call instead of being answered "busy". *)
Theorem endActiveCall_frees_session
    (notifyPeer : bool) (reason errorMessage : string) (s : Call.State) :
  let s' := Call.endActiveCall notifyPeer reason errorMessage false s in
  CallHandlers.torn_down errorMessage s'
  ∧ Call.hasActiveCall s' = false
  ∧ Call.emitted s'
    = Call.emitted s
        ++ (if notifyPeer && negb (String.eqb (Call.activeCallPeerIdRef s) "")
            then [Call.call_end (Call.activeCallPeerIdRef s)
                    (or_else (Call.activeCallIdRef s) JNull) reason]
            else [])
  ∧ ∀ h payload description,
      Call.offerSender payload ≠ "" →
      Call.normalizeSessionDescription (get "offer" payload) = Some description →
      Call.status (Call.callState (Call.onCallOffer h payload s')) = Call.incoming
      ∧ Call.emitted (Call.onCallOffer h payload s') = Call.emitted s'.
Proof.
  intros s'.
  assert (Hidle : Call.hasActiveCall s' = false) by reflexivity.
  split; [repeat split|]. split; [done|]. split.
  - subst s'. unfold Call.endActiveCall.
    destruct (notifyPeer && negb _); simpl; [done | by rewrite app_nil_r].
  - intros h payload description Hsender Hoffer.
    destruct (onCallOffer_accepts h payload s' description Hidle Hsender Hoffer)
      as (Hstatus & _ & _ & _ & _ & _ & Hemit).
    done.
Qed.

Lemma endActiveCall_frees_session_witness :
  Call.emitted (Call.endActiveCall true "logout" "" false Sample.outgoing_session)
  = [Call.call_end "bob" (JStr "alice-1-abc") "logout"]
  ∧ Call.status
      (Call.callState
         (Call.onCallOffer Sample.host Sample.good_offer
            (Call.endActiveCall true "logout" "" false Sample.outgoing_session)))
    = Call.incoming.
Proof.
  destruct (endActiveCall_frees_session true "logout" "" Sample.outgoing_session)
    as (_ & _ & Hemit & Hnext).
  split; [exact Hemit|].
  destruct (Hnext Sample.host Sample.good_offer {| Call.type := "offer"; Call.sdp := "v=0" |})
    as [Hstatus _]; [discriminate | reflexivity |].
  exact Hstatus.
Defined.

Lemma reason_or_ended payload literal :
  literal ≠ "" → literal ≠ "ended" →
  strict_eq (or_else (get "reason" payload) (JStr "ended")) (JStr literal)
  = strict_eq (get "reason" payload) (JStr literal).
Proof.
  intros H1 H2.
  assert (Hended : String.eqb "ended" literal = false).
  { apply String.eqb_neq. congruence. }
  unfold or_else.
  destruct (get "reason" payload) as [| |b|n|r| |]; cbv [truthy strict_eq]; try done.
  - by destruct b.
  - by destruct (negb (n =? 0)%Z).
  - destruct (String.eqb r "") eqn:Hr; cbv [negb]; [|done].
    apply String.eqb_eq in Hr. subst r. rewrite Hended.
    symmetry. apply String.eqb_neq. congruence.
Qed.

(** An inbound call:end never makes the client emit anything.  When it
    names a call id that differs from the active one it changes nothing;
    otherwise it tears the session down, and the message on display is the
    one of its reason: "busy", "declined", or none for any other reason. *)
Theorem onCallEnd_outcome (payload : jsval) (s : Call.State) :
  let s' := CallHandlers.onCallEnd payload s in
  Call.emitted s' = Call.emitted s
  ∧ (Call.callIdMismatch payload s = true → s' = s)
  ∧ (Call.callIdMismatch payload s = false →
     Call.hasActiveCall s' = false
     ∧ CallHandlers.torn_down
         (if strict_eq (get "reason" payload) (JStr "busy")
          then "User is busy on another call."
          else if strict_eq (get "reason" payload) (JStr "declined")
          then "Call declined."
          else "") s').
Proof.
  intros s'. subst s'. unfold CallHandlers.onCallEnd.
  rewrite !reason_or_ended by done.
  destruct (Call.callIdMismatch payload s).
  - split; [done|]. split; [done|]. done.
  - destruct (strict_eq (get "reason" payload) (JStr "busy"));
      [|destruct (strict_eq (get "reason" payload) (JStr "declined"))];
      (split; [done|]; split; [done|]; intros _; split; [done|repeat split]).
Qed.

Lemma onCallEnd_outcome_witness :
  Call.error
    (Call.callState
       (CallHandlers.onCallEnd
          (JObj [("callId", JStr "alice-1-abc"); ("reason", JStr "busy")])
          Sample.outgoing_session))
  = "User is busy on another call."
  ∧ CallHandlers.onCallEnd (JObj [("callId", JStr "other"); ("reason", JStr "busy")])
      Sample.outgoing_session
    = Sample.outgoing_session.
Proof.
  destruct (onCallEnd_outcome
              (JObj [("callId", JStr "alice-1-abc"); ("reason", JStr "busy")])
              Sample.outgoing_session) as (_ & _ & Hend).
  destruct (onCallEnd_outcome (JObj [("callId", JStr "other"); ("reason", JStr "busy")])
              Sample.outgoing_session) as (_ & Hskip & _).
  split.
  - destruct (Hend eq_refl) as (_ & _ & Herror & _). exact Herror.
  - apply Hskip. reflexivity.
Defined.

(** A state change reported by the connection never makes the client emit
    anything, and it never tears a session down in part: for every reported
    state, of the connection or of ICE, the handler either changes at most
    the status on display or leaves the whole session torn down and not
    busy.  A "disconnected" connection demotes a connected call to
    connecting and does nothing in any other status. *)
Theorem connection_state_all_or_nothing (state : string) (s : Call.State) :
  (∀ s', s' = CallHandlers.onconnectionstatechange state s
         ∨ s' = CallHandlers.oniceconnectionstatechange state s →
     Call.emitted s' = Call.emitted s
     ∧ ((∃ f, s' = Call.setCallState f s
              ∧ ∀ c, f c = c ∨ ∃ status', f c = Call.withStatus status' c)
        ∨ (∃ errorMessage, CallHandlers.torn_down errorMessage s'
                           ∧ Call.hasActiveCall s' = false)))
  ∧ (state = "disconnected" →
     Call.callState (CallHandlers.onconnectionstatechange state s)
     = match Call.status (Call.callState s) with
       | Call.connected => Call.withStatus Call.connecting (Call.callState s)
       | _ => Call.callState s
       end).
Proof.
  assert (Hsame : s = Call.setCallState (λ c, c) s) by (by destruct s).
  assert (Hkeep : ∀ s', s' = s →
            Call.emitted s' = Call.emitted s
            ∧ ((∃ f, s' = Call.setCallState f s
                     ∧ ∀ c, f c = c ∨ ∃ status', f c = Call.withStatus status' c)
               ∨ (∃ errorMessage, CallHandlers.torn_down errorMessage s'
                                  ∧ Call.hasActiveCall s' = false))).
  { intros s' ->. split; [done|]. left. exists (λ c, c). split; [done|]. by left. }
  assert (Hstatus : ∀ f, (∀ c, f c = c ∨ ∃ status', f c = Call.withStatus status' c) →
            Call.emitted (Call.setCallState f s) = Call.emitted s
            ∧ ((∃ g, Call.setCallState f s = Call.setCallState g s
                     ∧ ∀ c, g c = c ∨ ∃ status', g c = Call.withStatus status' c)
               ∨ (∃ errorMessage,
                     CallHandlers.torn_down errorMessage (Call.setCallState f s)
                     ∧ Call.hasActiveCall (Call.setCallState f s) = false))).
  { intros f Hf. split; [done|]. left. by exists f. }
  assert (Hend : ∀ reason errorMessage,
            Call.emitted (Call.endActiveCall false reason errorMessage false s)
            = Call.emitted s
            ∧ ((∃ f, Call.endActiveCall false reason errorMessage false s
                     = Call.setCallState f s
                     ∧ ∀ c, f c = c ∨ ∃ status', f c = Call.withStatus status' c)
               ∨ (∃ message,
                     CallHandlers.torn_down message
                       (Call.endActiveCall false reason errorMessage false s)
                     ∧ Call.hasActiveCall
                         (Call.endActiveCall false reason errorMessage false s) = false))).
  { intros reason errorMessage. split; [done|]. right. exists errorMessage.
    split; [repeat split | done]. }
  split.
  - intros s' [-> | ->].
    + unfold CallHandlers.onconnectionstatechange.
      destruct (String.eqb state "connected").
      { apply Hstatus. intros c. right. by exists Call.connected. }
      destruct (String.eqb state "failed"); [apply Hend|].
      destruct (String.eqb state "disconnected").
      { apply Hstatus. intros c. destruct (Call.status c); eauto. }
      destruct (String.eqb state "closed"); [apply Hend|].
      by apply Hkeep.
    + unfold CallHandlers.oniceconnectionstatechange.
      destruct (_ || _).
      { apply Hstatus. intros c. right. by exists Call.connected. }
      destruct (String.eqb state "failed"); [apply Hend|].
      by apply Hkeep.
  - intros ->. unfold CallHandlers.onconnectionstatechange. simpl.
    by destruct (Call.status (Call.callState s)).
Qed.

Lemma connection_state_all_or_nothing_witness :
  Call.callState (CallHandlers.onconnectionstatechange "disconnected" Sample.outgoing_session)
  = Call.callState Sample.outgoing_session.
Proof.
  destruct (connection_state_all_or_nothing "disconnected" Sample.outgoing_session)
    as [_ H].
  rewrite (H eq_refl). reflexivity.
Defined.

(** Declining: with no pending call the handler does nothing.  After a
    well-formed offer was taken by a session that was not busy, declining
    tells the caller "declined" under the call id of the offer, once, and
    leaves the session torn down with no error on display. *)
Theorem decline_answers_the_caller
    (h : Call.Host) (payload : jsval) (s : Call.State)
    (description : Call.SessionDescription) :
  (Call.pendingIncomingCallRef s = None → CallHandlers.handleDeclineIncomingCall s = s)
  ∧ (Call.hasActiveCall s = false →
     Call.offerSender payload ≠ "" →
     Call.normalizeSessionDescription (get "offer" payload) = Some description →
     let s' := CallHandlers.handleDeclineIncomingCall (Call.onCallOffer h payload s) in
     Call.emitted s'
     = Call.emitted s
         ++ [Call.call_end (Call.offerSender payload) (Call.offerCallId h payload) "declined"]
     ∧ CallHandlers.torn_down "" s'
     ∧ Call.hasActiveCall s' = false).
Proof.
  split.
  - intros H. unfold CallHandlers.handleDeclineIncomingCall. by rewrite H.
  - intros Hidle Hsender Hoffer s'. subst s'.
    destruct (onCallOffer_accepts h payload s description Hidle Hsender Hoffer)
      as (_ & Hpending & _ & _ & _ & _ & Hemit).
    unfold CallHandlers.handleDeclineIncomingCall. rewrite Hpending.
    split; [|split; [repeat split | done]].
    simpl. rewrite Hemit.
    by rewrite (or_else_truthy _ _ (offerCallId_truthy h payload Hsender)).
Qed.

Lemma decline_answers_the_caller_witness :
  Call.emitted
    (CallHandlers.handleDeclineIncomingCall
       (Call.onCallOffer Sample.host Sample.good_offer Sample.idle_session))
  = [Call.call_end "carol" (JStr "carol-7-zz") "declined"].
Proof.
  destruct (decline_answers_the_caller Sample.host Sample.good_offer Sample.idle_session
              {| Call.type := "offer"; Call.sdp := "v=0" |}) as [_ H].
  destruct H as (Hemit & _); [reflexivity | discriminate | reflexivity |].
  exact Hemit.
Defined.

Lemma onCallIceCandidate_applies h payload s pc description :
  Call.peerConnectionRef s = Some pc →
  Call.remoteDescription pc = Some description →
  callIdMatches s payload →
  Call.onCallIceCandidate h payload s
  = Call.setConnection
      (Some {| Call.remoteDescription := Some description;
               Call.addIceCandidateCalls :=
                 Call.addIceCandidateCalls pc
                   ++ from_option (λ c, [c]) [] (carriedCandidate h payload) |})
      (Call.queuedIceCandidatesRef s) s.
Proof.
  intros Hpc Hd Hid. unfold Call.onCallIceCandidate, carriedCandidate.
  assert (Hsame : Call.setConnection
                    (Some {| Call.remoteDescription := Some description;
                             Call.addIceCandidateCalls := Call.addIceCandidateCalls pc |})
                    (Call.queuedIceCandidatesRef s) s = s).
  { destruct s, pc. simpl in *. subst. reflexivity. }
  destruct (Call.normalizeIceCandidatePayload _) as [init|]; simpl.
  - rewrite (callIdMatches_no_mismatch _ _ Hid).
    destruct (Call.newRTCIceCandidate h init); simpl.
    + by rewrite Hpc, Hd.
    + by rewrite app_nil_r, Hsame.
  - by rewrite app_nil_r, Hsame.
Qed.

(** Once the connection has a remote description, a sequence of inbound
    ICE candidate events for the active call is handed to the connection
    at once, in arrival order, and the pending queue is left as it was. *)
Theorem ice_candidates_applied_at_once
    (h : Call.Host) (payloads : list jsval) (s : Call.State)
    (pc : Call.PeerConnection) (description : Call.SessionDescription) :
  Call.peerConnectionRef s = Some pc →
  Call.remoteDescription pc = Some description →
  Forall (callIdMatches s) payloads →
  receiveIceCandidates h payloads s
  = Call.setConnection
      (Some {| Call.remoteDescription := Some description;
               Call.addIceCandidateCalls :=
                 Call.addIceCandidateCalls pc ++ omap (carriedCandidate h) payloads |})
      (Call.queuedIceCandidatesRef s) s.
Proof.
  revert s pc. induction payloads as [|payload rest IH]; intros s pc Hpc Hd Hids.
  - simpl. rewrite app_nil_r. destruct s, pc. simpl in *. subst. reflexivity.
  - apply Forall_cons in Hids as [Hid Hrest].
    unfold receiveIceCandidates in *. simpl foldl.
    rewrite (onCallIceCandidate_applies h payload s pc description Hpc Hd Hid).
    erewrite IH; [| reflexivity | reflexivity | exact Hrest].
    destruct s; simpl. destruct (carriedCandidate h payload); simpl;
      by rewrite <- ?app_assoc, ?app_nil_r.
Qed.

Lemma ice_candidates_applied_at_once_witness :
  Call.addIceCandidateCalls <$>
    Call.peerConnectionRef
      (receiveIceCandidates Sample.host
         [Sample.ice "candidate:1"; Sample.ice "candidate:2"] Sample.connecting_session)
  = Some [ {| Call.candidate := "candidate:1"; Call.sdpMid := Some "0";
              Call.sdpMLineIndex := Some 0%Z; Call.usernameFragment := None |};
           {| Call.candidate := "candidate:2"; Call.sdpMid := Some "0";
              Call.sdpMLineIndex := Some 0%Z; Call.usernameFragment := None |} ].
Proof.
  rewrite (ice_candidates_applied_at_once Sample.host
             [Sample.ice "candidate:1"; Sample.ice "candidate:2"] Sample.connecting_session
             {| Call.remoteDescription := Some {| Call.type := "answer"; Call.sdp := "v=0" |};
                Call.addIceCandidateCalls := [] |}
             {| Call.type := "answer"; Call.sdp := "v=0" |}).
  - reflexivity.
  - reflexivity.
  - reflexivity.
  - repeat constructor.
Defined.

(** When the connection refuses the answer of the active call, the session
    is torn down with "Failed to connect call." on display: every call
    reference is cleared, the queued candidates are dropped, the session is
    not busy any more, and the peer is not told. *)
Theorem onCallAnswer_refused_tears_down
    (h : Call.Host) (payload : jsval) (s : Call.State)
    (pc : Call.PeerConnection) (answer : Call.SessionDescription) :
  Call.callIdMismatch payload s = false →
  Call.peerConnectionRef s = Some pc →
  Call.normalizeSessionDescription (get "answer" payload) = Some answer →
  Call.setRemoteDescription h pc answer = false →
  let s' := Call.onCallAnswer h payload s in
  CallHandlers.torn_down "Failed to connect call." s'
  ∧ Call.hasActiveCall s' = false
  ∧ Call.emitted s' = Call.emitted s.
Proof.
  intros Hid Hpc Hanswer Hrefused s'. subst s'. unfold Call.onCallAnswer.
  rewrite Hid, Hpc, Hanswer, Hrefused.
  apply endActiveCall_silent.
Qed.

Lemma onCallAnswer_refused_tears_down_witness :
  Call.status
    (Call.callState
       (Call.onCallAnswer Sample.refusing_host Sample.good_answer Sample.outgoing_session))
  = Call.idle.
Proof.
  destruct (onCallAnswer_refused_tears_down Sample.refusing_host Sample.good_answer
              Sample.outgoing_session
              {| Call.remoteDescription := None; Call.addIceCandidateCalls := [] |}
              {| Call.type := "answer"; Call.sdp := "v=0" |})
    as ((Hstatus & _) & _); [reflexivity | reflexivity | reflexivity | reflexivity |].
  exact Hstatus.
Defined.

(** A normalised session description is a fixed point: sent as
    [{ type, sdp }] and normalised again, as the receiving side and
    [handleAcceptIncomingCall] do, it comes back unchanged, so a stored
    offer is never found invalid later.  Its type is "offer" or "answer"
    and its sdp is not empty. *)
Theorem normalizeSessionDescription_fixed_point
    (description : jsval) (normalized : Call.SessionDescription) :
  Call.normalizeSessionDescription description = Some normalized →
  (Call.type normalized = "offer" ∨ Call.type normalized = "answer")
  ∧ Call.sdp normalized ≠ ""
  ∧ Call.normalizeSessionDescription (CallHandlers.descriptionObject normalized)
    = Some normalized.
Proof.
  unfold Call.normalizeSessionDescription.
  destruct (negb (truthy description) || negb (is_object description)); [done|].
  set (ty := get "type" description). set (sd := get "sdp" description).
  destruct (strict_eq ty (JStr "offer") || strict_eq ty (JStr "answer")) eqn:Hty.
  - assert (Hs : js_String ty = "offer" ∨ js_String ty = "answer").
    { apply orb_true_iff in Hty as [H|H]; destruct ty; simpl in H; try discriminate;
        apply String.eqb_eq in H; subst; simpl; auto. }
    destruct (String.eqb (js_String ty) "") eqn:Hne; [done|].
    destruct sd as [| | | |text| |]; simpl; try done.
    destruct (String.eqb text "") eqn:Htext; [done|].
    intros [= <-]. simpl. apply String.eqb_neq in Htext.
    split; [done|]. split; [done|].
    destruct text; [done|].
    by destruct Hs as [-> | ->].
  - simpl. done.
Qed.

Lemma normalizeSessionDescription_fixed_point_witness :
  Call.normalizeSessionDescription
    (CallHandlers.descriptionObject {| Call.type := "offer"; Call.sdp := "v=0" |})
  = Some {| Call.type := "offer"; Call.sdp := "v=0" |}.
Proof.
  destruct (normalizeSessionDescription_fixed_point
              (JObj [("type", JStr "offer"); ("sdp", JStr "v=0"); ("extra", JNum 1)])
              {| Call.type := "offer"; Call.sdp := "v=0" |} eq_refl) as (_ & _ & H).
  exact H.
Defined.

Lemma getUserDisplayName_truthy user : truthy (Call.getUserDisplayName user) = true.
Proof.
  unfold Call.getUserDisplayName. destruct (negb (truthy user)); [done|].
  by repeat apply truthy_or_else.
Qed.

(** The name shown for a call peer is never empty: [resolvePeerName]
    returns a truthy value for every roster, peer id and fallback, and so
    does [getUserDisplayName] for every user; hence the call state that a
    taken offer puts on display carries a truthy peer name. *)
Theorem peer_name_never_empty (h : Call.Host) (payload : jsval) (s : Call.State) :
  (∀ peerUserId fallbackName,
     truthy (Call.resolvePeerName s peerUserId fallbackName) = true)
  ∧ (∀ user, truthy (Call.getUserDisplayName user) = true)
  ∧ (Call.status (Call.callState (Call.onCallOffer h payload s)) = Call.incoming →
     Call.status (Call.callState s) ≠ Call.incoming →
     truthy (Call.peerName (Call.callState (Call.onCallOffer h payload s))) = true).
Proof.
  assert (Hname : ∀ peerUserId fallbackName,
            truthy (Call.resolvePeerName s peerUserId fallbackName) = true).
  { intros peerUserId fallbackName. unfold Call.resolvePeerName.
    destruct (truthy fallbackName) eqn:E; [done|].
    destruct (find _ _); [apply getUserDisplayName_truthy|].
    by destruct (negb _). }
  split; [done|]. split; [apply getUserDisplayName_truthy|].
  unfold Call.onCallOffer.
  destruct (Call.normalizeSessionDescription _); [|done].
  destruct (String.eqb _ ""); [done|].
  destruct (Call.hasActiveCall s); [done|].
  simpl. intros _ _. apply Hname.
Qed.

Lemma peer_name_never_empty_witness :
  truthy
    (Call.peerName
       (Call.callState
          (Call.onCallOffer Sample.host Sample.second_offer Sample.idle_session)))
  = true.
Proof.
  destruct (peer_name_never_empty Sample.host Sample.second_offer Sample.idle_session)
    as (_ & _ & H).
  exact (H eq_refl ltac:(discriminate)).
Defined.

(** ** White space *)

Section DropLeading.

Variable w1 : Ascii.ascii → bool.
Variable w2 : Ascii.ascii → Ascii.ascii → bool.
Variable w3 : Ascii.ascii → Ascii.ascii → Ascii.ascii → bool.

Lemma drop_leading_one a r1 :
  w1 a = true → drop_leading w1 w2 w3 (a :: r1) = drop_leading w1 w2 w3 r1.
Proof. intros H. simpl. by rewrite H. Qed.

Lemma drop_leading_two a b r2 :
  w1 a = false → w2 a b = true →
  drop_leading w1 w2 w3 (a :: b :: r2) = drop_leading w1 w2 w3 r2.
Proof. intros H1 H2. cbn [drop_leading]. by rewrite H1, H2. Qed.

Lemma drop_leading_three a b c r3 :
  w1 a = false → w2 a b = false → w3 a b c = true →
  drop_leading w1 w2 w3 (a :: b :: c :: r3) = drop_leading w1 w2 w3 r3.
Proof. intros H1 H2 H3. cbn [drop_leading]. by rewrite H1, H2, H3. Qed.

Lemma drop_leading_fixed l :
  starts_with w1 w2 w3 l = false → drop_leading w1 w2 w3 l = l.
Proof.
  destruct l as [|a [|b [|c r3]]]; cbn [starts_with drop_leading]; [done| | |].
  - rewrite orb_false_r. by intros ->.
  - rewrite orb_false_r. intros H. apply orb_false_iff in H as [-> ->]. done.
  - intros H. apply orb_false_iff in H as [-> H].
    apply orb_false_iff in H as [-> ->]. done.
Qed.

(** Induction along the characters [drop_leading] takes. *)
Lemma drop_leading_ind (P : list Ascii.ascii → Prop) :
  (∀ a r1, w1 a = true → P r1 → P (a :: r1)) →
  (∀ a b r2, w1 a = false → w2 a b = true → P r2 → P (a :: b :: r2)) →
  (∀ a b c r3, w1 a = false → w2 a b = false → w3 a b c = true → P r3 →
               P (a :: b :: c :: r3)) →
  (∀ l, starts_with w1 w2 w3 l = false → P l) →
  ∀ l, P l.
Proof.
  intros H1 H2 H3 Hstop l.
  assert (Hall : ∀ n l, length l ≤ n → P l); [|by apply (Hall (length l))].
  clear l. induction n as [|n IH]; intros l Hlen.
  - destruct l; [|simpl in Hlen; lia]. by apply Hstop.
  - destruct (starts_with w1 w2 w3 l) eqn:Hstarts; [|by apply Hstop].
    destruct l as [|a r1]; [done|]. simpl in Hlen.
    destruct (w1 a) eqn:E1; [apply H1; [done|apply IH; lia]|].
    destruct r1 as [|b r2]; [cbn [starts_with] in Hstarts; by rewrite E1 in Hstarts|].
    simpl in Hlen.
    destruct (w2 a b) eqn:E2; [apply H2; [done|done|apply IH; lia]|].
    destruct r2 as [|c r3]; [cbn [starts_with] in Hstarts; by rewrite E1, E2 in Hstarts|].
    simpl in Hlen.
    destruct (w3 a b c) eqn:E3; [apply H3; [done|done|done|apply IH; lia]|].
    cbn [starts_with] in Hstarts. by rewrite E1, E2, E3 in Hstarts.
Qed.

Lemma drop_leading_stops l : starts_with w1 w2 w3 (drop_leading w1 w2 w3 l) = false.
Proof.
  induction l as [a r1 E1 IH | a b r2 E1 E2 IH | a b c r3 E1 E2 E3 IH | l Hstop]
    using drop_leading_ind.
  - by rewrite drop_leading_one.
  - by rewrite drop_leading_two.
  - by rewrite drop_leading_three.
  - by rewrite drop_leading_fixed.
Qed.

Lemma drop_leading_suffix l : ∃ taken, l = taken ++ drop_leading w1 w2 w3 l.
Proof.
  induction l as [a r1 E1 [t IH] | a b r2 E1 E2 [t IH] | a b c r3 E1 E2 E3 [t IH] | l Hstop]
    using drop_leading_ind.
  - rewrite drop_leading_one by done. exists (a :: t). simpl. by rewrite <- IH.
  - rewrite drop_leading_two by done. exists (a :: b :: t). simpl. by rewrite <- IH.
  - rewrite drop_leading_three by done. exists (a :: b :: c :: t). simpl. by rewrite <- IH.
  - rewrite drop_leading_fixed by done. by exists [].
Qed.

Lemma drop_leading_idemp l :
  drop_leading w1 w2 w3 (drop_leading w1 w2 w3 l) = drop_leading w1 w2 w3 l.
Proof. apply drop_leading_fixed, drop_leading_stops. Qed.

Lemma starts_with_app l more :
  starts_with w1 w2 w3 l = true → starts_with w1 w2 w3 (l ++ more) = true.
Proof.
  destruct l as [|a [|b [|c r3]]]; cbn [starts_with app]; [done| | |].
  - rewrite orb_false_r. by intros ->.
  - destruct (w1 a); [done|]. cbn [orb]. rewrite orb_false_r. by intros ->.
  - done.
Qed.

(** The bytes that are part of no dropped character are all kept. *)
Lemma drop_leading_existsb (f : Ascii.ascii → bool) l :
  (∀ a, w1 a = true → f a = false) →
  (∀ a b, w2 a b = true → f a = false ∧ f b = false) →
  (∀ a b c, w3 a b c = true → f a = false ∧ f b = false ∧ f c = false) →
  existsb f (drop_leading w1 w2 w3 l) = existsb f l.
Proof.
  intros F1 F2 F3.
  induction l as [a r1 E1 IH | a b r2 E1 E2 IH | a b c r3 E1 E2 E3 IH | l Hstop]
    using drop_leading_ind.
  - rewrite drop_leading_one by done. simpl. by rewrite (F1 a E1).
  - rewrite drop_leading_two by done. simpl.
    destruct (F2 a b E2) as [-> ->]. done.
  - rewrite drop_leading_three by done. simpl.
    destruct (F3 a b c E3) as (-> & -> & ->). done.
  - by rewrite drop_leading_fixed.
Qed.

End DropLeading.

Lemma list_of_trim s :
  String.list_ascii_of_string (trim s)
  = rev (drop_spaces_backwards (rev (drop_spaces (String.list_ascii_of_string s)))).
Proof.
  unfold trim, trim_end, trim_start.
  by rewrite !String.list_ascii_of_string_of_list_ascii.
Qed.

Lemma trim_list_idemp l :
  let t := rev (drop_spaces_backwards (rev (drop_spaces l))) in
  rev (drop_spaces_backwards (rev (drop_spaces t))) = t.
Proof.
  intros t. subst t. unfold drop_spaces, drop_spaces_backwards.
  set (front := drop_leading is_space is_space2 is_space3 l).
  set (back := drop_leading is_space (λ b a, is_space2 a b) (λ c b a, is_space3 a b c)
                 (rev front)).
  assert (Hfront : drop_leading is_space is_space2 is_space3 (rev back) = rev back).
  { apply drop_leading_fixed.
    destruct (starts_with is_space is_space2 is_space3 (rev back)) eqn:E; [|done].
    destruct (drop_leading_suffix is_space (λ b a, is_space2 a b)
                (λ c b a, is_space3 a b c) (rev front)) as [taken Htaken].
    fold back in Htaken.
    assert (Hwhole : front = rev back ++ rev taken).
    { by rewrite <- rev_app_distr, <- Htaken, rev_involutive. }
    apply (starts_with_app _ _ _ _ (rev taken)) in E.
    rewrite <- Hwhole in E. subst front. by rewrite drop_leading_stops in E. }
  rewrite Hfront, rev_involutive. subst back. by rewrite drop_leading_idemp.
Qed.

Lemma list_ascii_inj s1 s2 :
  String.list_ascii_of_string s1 = String.list_ascii_of_string s2 → s1 = s2.
Proof.
  intros H. rewrite <- (String.string_of_list_ascii_of_string s1), H.
  apply String.string_of_list_ascii_of_string.
Qed.

(** Trimming a trimmed string changes nothing. *)
Lemma trim_idemp s : trim (trim s) = trim s.
Proof.
  apply list_ascii_inj. rewrite (list_of_trim (trim s)), list_of_trim.
  apply trim_list_idemp.
Qed.

(** ** ICE candidate payloads *)

(** A normalised ICE candidate survives the wire: its candidate line is
    trimmed and not empty, and the object it is sent as normalises, on the
    receiving side, to the same candidate with the same optional members. *)
Theorem normalizeIceCandidatePayload_fixed_point
    (payload : jsval) (normalized : Call.IceCandidate) :
  Call.normalizeIceCandidatePayload payload = Some normalized →
  Call.candidate normalized ≠ ""
  ∧ trim (Call.candidate normalized) = Call.candidate normalized
  ∧ Call.normalizeIceCandidatePayload (CallHandlers.candidateObject normalized)
    = Some normalized.
Proof.
  unfold Call.normalizeIceCandidatePayload at 1.
  destruct (negb (truthy payload)); [done|]. cbn [orb].
  destruct (negb (is_object payload)); [done|].
  set (line := trim (js_String (or_else (get "candidate" payload) (JStr "")))).
  destruct (String.eqb line "") eqn:Hline; [done|].
  intros [= <-]. apply String.eqb_neq in Hline.
  assert (Htrim : trim line = line) by apply trim_idemp.
  cbn [Call.candidate].
  split; [exact Hline|]. split; [exact Htrim|].
  unfold Call.normalizeIceCandidatePayload, CallHandlers.candidateObject.
  cbn [Call.candidate Call.sdpMid Call.sdpMLineIndex Call.usernameFragment
       truthy is_object negb orb get].
  assert (Hor : or_else (JStr line) (JStr "") = JStr line).
  { apply or_else_truthy. simpl. by apply negb_true_iff, String.eqb_neq. }
  destruct (get "sdpMid" payload) as [| | | |mid| |];
    destruct (get "sdpMLineIndex" payload) as [| | |index| | |];
    destruct (get "usernameFragment" payload) as [| | | |fragment| |];
    cbn [from_option app assoc String.eqb Ascii.eqb Bool.eqb];
    rewrite Hor; cbn [js_String]; rewrite Htrim;
    apply String.eqb_neq in Hline; rewrite Hline; reflexivity.
Qed.

Lemma normalizeIceCandidatePayload_fixed_point_witness :
  Call.normalizeIceCandidatePayload
    (CallHandlers.candidateObject
       {| Call.candidate := "candidate:1"; Call.sdpMid := Some "0";
          Call.sdpMLineIndex := Some 0%Z; Call.usernameFragment := None |})
  = Some {| Call.candidate := "candidate:1"; Call.sdpMid := Some "0";
            Call.sdpMLineIndex := Some 0%Z; Call.usernameFragment := None |}.
Proof.
  destruct (normalizeIceCandidatePayload_fixed_point
              (JObj [("candidate", JStr "  candidate:1 "); ("sdpMid", JStr "0");
                     ("sdpMLineIndex", JNum 0)])
              {| Call.candidate := "candidate:1"; Call.sdpMid := Some "0";
                 Call.sdpMLineIndex := Some 0%Z; Call.usernameFragment := None |})
    as (_ & _ & H); [vm_compute; reflexivity|].
  exact H.
Defined.

(** ** Further properties of the conversation state *)

Lemma remember_member id processed : id ∈ Chat.remember id processed.
Proof.
  unfold Chat.remember. destruct (500 <? _) eqn:E.
  - destruct processed as [|oldest rest]; [done|]. simpl.
    apply elem_of_app. right. by apply list_elem_of_singleton.
  - apply elem_of_app. right. by apply list_elem_of_singleton.
Qed.

(** A push event that is delivered twice is processed once: handling the
    same payload again, right after it was handled, returns the state as it
    is, whatever the payload. *)
Theorem onNewMessage_redelivery (payload : jsval) (s : Chat.State) :
  Chat.onNewMessage payload (Chat.onNewMessage payload s) = Chat.onNewMessage payload s.
Proof.
  destruct (String.eqb (Chat.pushedMessageId payload) "") eqn:Hid.
  - assert (H : Chat.onNewMessage payload s = s).
    { unfold Chat.onNewMessage. by rewrite Hid. }
    by rewrite !H.
  - destruct (bool_decide (Chat.pushedMessageId payload
                           ∈ Chat.processedRealtimeMessageIds s)) eqn:Hseen.
    + apply bool_decide_eq_true_1 in Hseen.
      by rewrite !(onNewMessage_processed_id payload s Hseen).
    + apply onNewMessage_processed_id.
      rewrite onNewMessage_processed, Hid, Hseen. apply remember_member.
Qed.

Lemma dropReplyTo_replies next id l e :
  id ≠ "" → e ∈ Chat.dropReplyTo next id l → toId (assoc "replyTo" (val e)) ≠ id.
Proof.
  intros Hid. revert next. induction l as [|message l IH]; intros next He.
  - by apply elem_of_nil in He.
  - simpl in He. apply elem_of_cons in He as [-> | He]; [|by eapply IH].
    destruct (negb (String.eqb (toId (assoc "replyTo" (val message))) "")
              && String.eqb (toId (assoc "replyTo" (val message))) id) eqn:E.
    + cbn [val]. rewrite assoc_set_field_eq. intros Heq. apply Hid. by rewrite <- Heq.
    + apply andb_false_iff in E as [E | E].
      * apply negb_false_iff, String.eqb_eq in E. rewrite E.
        intros Heq. apply Hid. by rewrite <- Heq.
      * by apply String.eqb_neq in E.
Qed.

(** After a message:deleted event that names a message, the list holds no
    message with that id, the ids that are left are the other ids in their
    order, no message that is left quotes the deleted one, and the reply
    composer does not quote it either. *)
Theorem onMessageDeleted_outcome (payload : jsval) (s : Chat.State) :
  truthy (get "messageId" payload) = true →
  js_String (get "messageId" payload) ≠ "" →
  let deleted := js_String (get "messageId" payload) in
  let s' := Chat.onMessageDeleted payload s in
  ids_of (Chat.messages s') = filter (λ id, id ≠ deleted) (ids_of (Chat.messages s))
  ∧ (deleted ∉ ids_of (Chat.messages s'))
  ∧ (∀ e, e ∈ Chat.messages s' → toId (assoc "replyTo" (val e)) ≠ deleted)
  ∧ (truthy (Chat.replyToMessage s') = true →
     js_String (get "_id" (Chat.replyToMessage s')) ≠ deleted).
Proof.
  intros Htruthy Hid deleted s'.
  assert (Hs' : s' = Chat.applyDeletion deleted s).
  { subst s'. unfold Chat.onMessageDeleted. rewrite Htruthy.
    apply String.eqb_neq in Hid. by rewrite Hid. }
  assert (Hids : ids_of (Chat.messages s')
                 = filter (λ id, id ≠ deleted) (ids_of (Chat.messages s))).
  { rewrite Hs'. unfold Chat.applyDeletion. cbn [Chat.messages Chat.setReplyToMessage
      Chat.allocate Chat.setMessages]. rewrite dropReplyTo_ids.
    unfold ids_of. induction (Chat.messages s) as [|e l IH]; [done|].
    rewrite fmap_cons, !filter_cons. cbn beta.
    destruct (decide (msg_id (val e) ≠ deleted)); [|done].
    by rewrite fmap_cons, IH. }
  split; [done|]. split; [|split].
  - rewrite Hids. intros Hin. apply list_elem_of_filter in Hin as [Hne _]. done.
  - intros e He. rewrite Hs' in He. unfold Chat.applyDeletion in He.
    cbn [Chat.messages Chat.setReplyToMessage Chat.allocate Chat.setMessages] in He.
    by apply (dropReplyTo_replies _ _ _ _ Hid He).
  - rewrite Hs'. unfold Chat.applyDeletion.
    cbn [Chat.replyToMessage Chat.setReplyToMessage Chat.allocate Chat.setMessages].
    destruct (truthy (Chat.replyToMessage s)) eqn:Hreply; cbn [andb]; [|congruence].
    destruct (String.eqb _ deleted) eqn:E; [done|].
    intros _. by apply String.eqb_neq.
Qed.

Lemma onMessageDeleted_outcome_witness :
  ids_of (Chat.messages
            (Chat.onMessageDeleted (JObj [("messageId", JStr "m1")]) SampleMessages.listed))
  = ["m2"].
Proof.
  destruct (onMessageDeleted_outcome (JObj [("messageId", JStr "m1")])
              SampleMessages.listed) as (H & _); [reflexivity | discriminate |].
  rewrite H. vm_compute. reflexivity.
Defined.

Lemma replaceReactions_lookup next id reactions l i :
  Chat.replaceReactions next id reactions l !! i
  = (λ message,
       if String.eqb (msg_id (val message)) id
       then {| addr := next + i; val := set_field "reactions" reactions (val message) |}
       else message) <$> l !! i.
Proof.
  revert next i. induction l as [|message l IH]; intros next [|i]; try done.
  - simpl. by rewrite Nat.add_0_r.
  - simpl. rewrite IH. by replace (S next + i) with (next + S i) by lia.
Qed.

(** After a message:reaction-updated event that names a message and
    carries a reaction list, the list has the same length; every message
    with another id is the object it was; and a message with that id is
    replaced, at its position, by a copy that carries the event's reaction
    list and agrees with the old object on every other field. *)
Theorem onReactionUpdated_outcome
    (payload : jsval) (s : Chat.State) (i : nat) (e : mref) :
  truthy (get "messageId" payload) = true →
  is_array (get "reactions" payload) = true →
  Chat.messages s !! i = Some e →
  let s' := Chat.onReactionUpdated payload s in
  length (Chat.messages s') = length (Chat.messages s)
  ∧ (msg_id (val e) ≠ js_String (get "messageId" payload) →
     Chat.messages s' !! i = Some e)
  ∧ (msg_id (val e) = js_String (get "messageId" payload) →
     ∃ e', Chat.messages s' !! i = Some e'
           ∧ assoc "reactions" (val e') = get "reactions" payload
           ∧ ∀ field, field ≠ "reactions" → assoc field (val e') = assoc field (val e)).
Proof.
  intros Hid Harr He s'. subst s'. unfold Chat.onReactionUpdated.
  rewrite Hid, Harr. cbn [negb orb]. unfold Chat.applyReactions.
  cbn [Chat.messages Chat.allocate Chat.setMessages].
  split; [|split].
  - rewrite <- !(length_fmap (λ e, msg_id (val e))).
    change (length (ids_of (Chat.replaceReactions (Chat.nextAddr s)
                              (js_String (get "messageId" payload))
                              (get "reactions" payload) (Chat.messages s)))
            = length (ids_of (Chat.messages s))).
    by rewrite replaceReactions_ids.
  - intros Hne. rewrite replaceReactions_lookup, He. simpl.
    apply String.eqb_neq in Hne. by rewrite Hne.
  - intros Heq. rewrite replaceReactions_lookup, He. simpl.
    apply String.eqb_eq in Heq. rewrite Heq.
    eexists. split; [done|]. cbn [val]. split.
    + apply assoc_set_field_eq.
    + intros field Hfield. by apply assoc_set_field_ne.
Qed.

Lemma onReactionUpdated_outcome_witness :
  ∃ e', Chat.messages
          (Chat.onReactionUpdated
             (JObj [("messageId", JStr "m1");
                    ("reactions", JArr [JObj [("user", JStr "bob"); ("emoji", JStr "+1")]])])
             SampleMessages.listed) !! 0 = Some e'
        ∧ assoc "reactions" (val e')
          = JArr [JObj [("user", JStr "bob"); ("emoji", JStr "+1")]].
Proof.
  destruct (onReactionUpdated_outcome
              (JObj [("messageId", JStr "m1");
                     ("reactions", JArr [JObj [("user", JStr "bob"); ("emoji", JStr "+1")]])])
              SampleMessages.listed 0 SampleMessages.e1)
    as (_ & _ & H); [reflexivity | reflexivity | reflexivity |].
  destruct H as (e' & H1 & H2 & _); [reflexivity|].
  exists e'. split; [exact H1 | exact H2].
Defined.

(** ** Conversation keys *)

Lemma buildDmNotificationKey_inj a b :
  buildDmNotificationKey a = buildDmNotificationKey b → a = b.
Proof. unfold buildDmNotificationKey. simpl. by intros [=]. Qed.

Lemma buildRoomNotificationKey_inj a b :
  buildRoomNotificationKey a = buildRoomNotificationKey b → a = b.
Proof. unfold buildRoomNotificationKey. simpl. by intros [=]. Qed.

Lemma notification_keys_disjoint a b : buildDmNotificationKey a ≠ buildRoomNotificationKey b.
Proof. done. Qed.

(** The key a pushed message is filed under tells its conversation apart:
    it is the direct-message key of an id exactly when that id is the
    sender, the sender is somebody else and the target is the current
    user; it is the room key of an id exactly when that id is the target,
    the sender is somebody else and the target is not the current user.  A
    direct-message key is never a room key, so a room and a user with the
    same id keep separate counters. *)
Theorem notification_key_tells_conversation (s : Chat.State) (message : jsval) (id : string) :
  let sender := toId (get "senderUserId" message) in
  let target := toId (get "receiverUserIdOrRoomId" message) in
  let self := Chat.currentUserId s in
  let key := Chat.getMessageNotificationKey s message in
  (key = buildDmNotificationKey id
   ↔ id = sender ∧ sender ≠ "" ∧ self ≠ "" ∧ sender ≠ self ∧ target = self)
  ∧ (key = buildRoomNotificationKey id
     ↔ id = target ∧ sender ≠ "" ∧ target ≠ "" ∧ self ≠ "" ∧ sender ≠ self ∧ target ≠ self)
  ∧ buildDmNotificationKey id ≠ buildRoomNotificationKey id.
Proof.
  intros sender target self key. subst key. unfold Chat.getMessageNotificationKey.
  fold sender target self.
  destruct (String.eqb sender "") eqn:E1; cbn [orb];
    [apply String.eqb_eq in E1|apply String.eqb_neq in E1].
  { split; [|split; [|done]]; (split; [done|]); intros (_ & H & _); done. }
  destruct (String.eqb target "") eqn:E2; cbn [orb];
    [apply String.eqb_eq in E2|apply String.eqb_neq in E2].
  { split; [|split; [|done]]; (split; [done|]).
    - intros (_ & _ & H1 & _ & H2). congruence.
    - intros (_ & _ & H & _). done. }
  destruct (String.eqb self "") eqn:E3; cbn [orb];
    [apply String.eqb_eq in E3|apply String.eqb_neq in E3].
  { split; [|split; [|done]]; (split; [done|]).
    - intros (_ & _ & H & _). done.
    - intros (_ & _ & _ & H & _). done. }
  destruct (String.eqb sender self) eqn:E4;
    [apply String.eqb_eq in E4|apply String.eqb_neq in E4].
  { split; [|split; [|done]]; (split; [done|]).
    - intros (_ & _ & _ & H & _). done.
    - intros (_ & _ & _ & _ & H & _). done. }
  destruct (String.eqb target self) eqn:E5;
    [apply String.eqb_eq in E5|apply String.eqb_neq in E5].
  - split; [|split; [|done]]; split.
    + intros H. apply buildDmNotificationKey_inj in H. by subst id.
    + by intros (-> & _).
    + intros H. by destruct (notification_keys_disjoint _ _ H).
    + intros (_ & _ & _ & _ & _ & H). done.
  - split; [|split; [|done]]; split.
    + intros H. symmetry in H. by destruct (notification_keys_disjoint _ _ H).
    + intros (_ & _ & _ & _ & H). done.
    + intros H. apply buildRoomNotificationKey_inj in H. by subst id.
    + by intros (-> & _).
Qed.

Lemma clearUnreadForKey_absent key s :
  Chat.unreadCounts s !! key = None ∨ Chat.unreadCounts s !! key = Some 0 →
  Chat.clearUnreadForKey key s = s.
Proof.
  intros H. unfold Chat.clearUnreadForKey.
  destruct (String.eqb key ""); [done|]. unfold Chat.setUnreadCounts.
  destruct H as [-> | ->]; by destruct s.
Qed.

Lemma clearUnreadForKey_cleared key s :
  key ≠ "" →
  Chat.unreadCounts (Chat.clearUnreadForKey key s) !! key = None
  ∨ Chat.unreadCounts (Chat.clearUnreadForKey key s) !! key = Some 0.
Proof.
  intros Hkey. unfold Chat.clearUnreadForKey.
  apply String.eqb_neq in Hkey. rewrite Hkey. simpl.
  destruct (Chat.unreadCounts s !! key) as [[|n]|] eqn:E; simpl; auto.
  left. apply lookup_delete_eq.
Qed.

Lemma clearUnreadForKey_keeps_cleared key other s :
  Chat.unreadCounts s !! other = None ∨ Chat.unreadCounts s !! other = Some 0 →
  Chat.unreadCounts (Chat.clearUnreadForKey key s) !! other = None
  ∨ Chat.unreadCounts (Chat.clearUnreadForKey key s) !! other = Some 0.
Proof.
  intros H. destruct (clearUnreadForKey_unread key s) as [E | [_ E]]; rewrite E; [done|].
  destruct (decide (other = key)) as [-> | Hne].
  - left. apply lookup_delete_eq.
  - by rewrite lookup_delete_ne.
Qed.

(** When the user clears the conversation that is open at the time of the
    call, the list and the reply composer are emptied and both keys of
    that target lose their counters as soon as the request has succeeded,
    in whatever state that moment finds; the conversation:cleared event
    that then arrives for the same target finds nothing left to do and
    returns the state as it is. *)
Theorem clear_then_echo (payload : jsval) (atCall s : Chat.State) :
  let target :=
    or_else (get "_id" (Chat.selectedRoom atCall)) (get "_id" (Chat.selectedUser atCall)) in
  truthy target = true →
  Chat.currentUserId atCall ≠ "" →
  Chat.clearedTarget payload = js_String target →
  let cleared := Chat.handleClearActiveConversation atCall s in
  Chat.messages cleared = []
  ∧ Chat.replyToMessage cleared = JNull
  ∧ Chat.onConversationCleared payload cleared = cleared.
Proof.
  intros target Htarget Hself Hpayload cleared.
  assert (Hcleared : cleared
    = Chat.clearUnreadForKey (buildDmNotificationKey (js_String target))
        (Chat.clearUnreadForKey (buildRoomNotificationKey (js_String target))
           (Chat.setReplyToMessage (λ _, JNull) (Chat.setMessages (λ _, []) s)))).
  { subst cleared. unfold Chat.handleClearActiveConversation. fold target.
    rewrite Htarget. apply String.eqb_neq in Hself. by rewrite Hself. }
  assert (Hmessages : Chat.messages cleared = []).
  { rewrite Hcleared.
    destruct (clearUnreadForKey_frame (buildDmNotificationKey (js_String target))
                (Chat.clearUnreadForKey (buildRoomNotificationKey (js_String target))
                   (Chat.setReplyToMessage (λ _, JNull) (Chat.setMessages (λ _, []) s))))
      as (-> & _).
    by destruct (clearUnreadForKey_frame (buildRoomNotificationKey (js_String target))
                   (Chat.setReplyToMessage (λ _, JNull) (Chat.setMessages (λ _, []) s)))
      as (-> & _). }
  assert (Hreply : Chat.replyToMessage cleared = JNull).
  { rewrite Hcleared.
    destruct (clearUnreadForKey_frame (buildDmNotificationKey (js_String target))
                (Chat.clearUnreadForKey (buildRoomNotificationKey (js_String target))
                   (Chat.setReplyToMessage (λ _, JNull) (Chat.setMessages (λ _, []) s))))
      as (_ & -> & _).
    by destruct (clearUnreadForKey_frame (buildRoomNotificationKey (js_String target))
                   (Chat.setReplyToMessage (λ _, JNull) (Chat.setMessages (λ _, []) s)))
      as (_ & -> & _). }
  split; [done|]. split; [done|].
  assert (Hdm : Chat.clearUnreadForKey (buildDmNotificationKey (js_String target)) cleared
                = cleared).
  { apply clearUnreadForKey_absent. rewrite Hcleared.
    apply clearUnreadForKey_cleared, buildDmNotificationKey_nonempty. }
  assert (Hroom : Chat.clearUnreadForKey (buildRoomNotificationKey (js_String target)) cleared
                  = cleared).
  { apply clearUnreadForKey_absent. rewrite Hcleared.
    apply clearUnreadForKey_keeps_cleared, clearUnreadForKey_cleared,
      buildRoomNotificationKey_nonempty. }
  unfold Chat.onConversationCleared. rewrite Hpayload.
  destruct (String.eqb (js_String target) ""); [done|].
  cbv zeta. rewrite Hdm, Hroom.
  destruct (_ || _); [|done].
  destruct cleared. simpl in *. by subst.
Qed.

(** The witness clears room r1 after the user has gone on to room r2, where
    a message has arrived in the meantime. *)
Lemma clear_then_echo_witness :
  Chat.onConversationCleared (JObj [("receiverUserIdOrRoomId", JStr "r1")])
    (Chat.handleClearActiveConversation SampleMessages.listed
       (Chat.fetchMessages (Some [SampleMessages.m2])
          (Chat.select (SampleChat.room "r2") JNull SampleMessages.listed)))
  = Chat.handleClearActiveConversation SampleMessages.listed
      (Chat.fetchMessages (Some [SampleMessages.m2])
         (Chat.select (SampleChat.room "r2") JNull SampleMessages.listed)).
Proof.
  destruct (clear_then_echo (JObj [("receiverUserIdOrRoomId", JStr "r1")])
              SampleMessages.listed
              (Chat.fetchMessages (Some [SampleMessages.m2])
                 (Chat.select (SampleChat.room "r2") JNull SampleMessages.listed)))
    as (_ & _ & H); [reflexivity | discriminate | reflexivity |].
  exact H.
Defined.

(** ** Repeated polls *)

(** A poll that answers a snapshot with pairwise distinct ids, every message
    of which is field-equal to itself (its compared fields are primitive
    values), leaves a list that the same snapshot, polled again, gives
    back object by object: the second reconcile cycle returns the very
    list, and no message object is replaced. *)
Theorem reconcile_same_snapshot_again
    (next next' : nat) (previous : list mref) (snapshot : list obj) :
  distinct_snapshot snapshot →
  (∀ m, m ∈ snapshot → field_equal (normalizeMessage m) (normalizeMessage m)) →
  reconcileMessages next' (reconcileMessages next previous snapshot) snapshot
  = reconcileMessages next previous snapshot.
Proof.
  intros Hnd Hself.
  set (first := reconcileMessages next previous snapshot).
  assert (Hids : ids_of first = msg_id <$> snapshot) by apply reconcile_from_ids.
  apply list_eq. intros i. unfold reconcileMessages at 1.
  destruct (snapshot !! i) as [m|] eqn:Hm.
  - rewrite (reconcile_from_lookup _ _ _ _ _ Hm).
    assert (Hfirst : first !! i = Some (reconcileOne (previousById previous) (next + i) m))
      by apply (reconcile_from_lookup _ _ _ _ _ Hm).
    rewrite Hfirst. f_equal.
    set (kept := reconcileOne (previousById previous) (next + i) m) in *.
    assert (Hlook : previousById first !! msg_id m = Some kept).
    { rewrite <- (reconcileOne_id (previousById previous) (next + i) m).
      apply previousById_lookup_elem.
      - rewrite Hids. exact Hnd.
      - by apply list_elem_of_lookup_2 in Hfirst. }
    assert (Hkept : field_equal (val kept) (normalizeMessage m)).
    { subst kept.
      destruct (reconcileOne_cases (previousById previous) (next + i) m)
        as [(e & _ & Heq & ->) | [_ ->]]; [done|].
      apply Hself. by apply list_elem_of_lookup_2 in Hm. }
    destruct (reconcileOne_cases (previousById first) (next' + i) m)
      as [(e & He & _ & ->) | [Hno _]]; [congruence|].
    by destruct (Hno kept Hlook).
  - assert (Hlen : length snapshot ≤ i) by by apply lookup_ge_None.
    rewrite !lookup_ge_None_2; [done| |].
    + subst first. unfold reconcileMessages. by rewrite reconcile_from_length.
    + by rewrite reconcile_from_length.
Qed.

Lemma reconcile_same_snapshot_again_witness :
  reconcileMessages 2 (reconcileMessages 0 [] [SampleMessages.m1; SampleMessages.m2])
    [SampleMessages.m1; SampleMessages.m2]
  = [SampleMessages.e1; SampleMessages.e2].
Proof.
  rewrite (reconcile_same_snapshot_again 0 2 [] [SampleMessages.m1; SampleMessages.m2]).
  - reflexivity.
  - apply (bool_decide_unpack _). vm_compute. exact I.
  - intros m Hm. apply shouldReuseMessage_field_equal; [apply normalizeMessage_reactions|].
    apply elem_of_cons in Hm as [-> | Hm]; [vm_compute; reflexivity|].
    apply list_elem_of_singleton in Hm as ->. vm_compute. reflexivity.
Defined.

(** ** Normal forms of messages *)

Lemma or_else_idemp a b : truthy b = false → or_else (or_else a b) b = or_else a b.
Proof. intros Hb. unfold or_else. destruct (truthy a) eqn:E; by rewrite ?E, ?Hb. Qed.

Lemma js_String_or_else_empty a :
  js_String (or_else (JStr (js_String (or_else a (JStr "")))) (JStr ""))
  = js_String (or_else a (JStr "")).
Proof.
  unfold or_else at 1. cbn [truthy].
  by destruct (String.eqb (js_String (or_else a (JStr ""))) "") eqn:E;
    [apply String.eqb_eq in E|].
Qed.

Lemma toId_normalized_preview id sender body created :
  toId (JObj [("_id", JStr id); ("senderUserId", sender);
              ("messageContent", body); ("createdAt", created)]) = id.
Proof.
  unfold toId. cbn [truthy negb is_object get assoc String.eqb Ascii.eqb Bool.eqb andb js_String].
  by destruct (String.eqb id "") eqn:E; [apply String.eqb_eq in E|].
Qed.

(** The reply preview is a normal form: normalising a normalised preview
    gives it back, whatever the quoted message was. *)
Lemma normalizeReplyPreview_idemp replyToMessage :
  normalizeReplyPreview (normalizeReplyPreview replyToMessage)
  = normalizeReplyPreview replyToMessage.
Proof.
  unfold normalizeReplyPreview at 2 3.
  destruct (negb (truthy replyToMessage) || negb (is_object replyToMessage)); [done|].
  unfold normalizeReplyPreview. cbn [truthy is_object negb orb].
  rewrite toId_normalized_preview.
  cbn [get assoc String.eqb Ascii.eqb Bool.eqb].
  rewrite js_String_or_else_empty, !or_else_idemp by done. done.
Qed.

Lemma filter_filter_same (k : string) (o : obj) :
  filter (λ p, p.1 ≠ k) (filter (λ p, p.1 ≠ k) o) = filter (λ p, p.1 ≠ k) o.
Proof. rewrite list_filter_filter. apply list_filter_iff. intros p. tauto. Qed.

Lemma filter_filter_swap (k k' : string) (o : obj) :
  filter (λ p, p.1 ≠ k) (filter (λ p, p.1 ≠ k') o)
  = filter (λ p, p.1 ≠ k') (filter (λ p, p.1 ≠ k) o).
Proof. rewrite !list_filter_filter. apply list_filter_iff. intros p. tauto. Qed.

Lemma set_field_filter k k' v (o : obj) :
  k ≠ k' →
  filter (λ p, p.1 ≠ k') (set_field k v o) = set_field k v (filter (λ p, p.1 ≠ k') o).
Proof.
  intros Hne. induction o as [|[k0 v0] o IH]; cbn [set_field].
  - rewrite filter_cons. cbn [fst]. by destruct (decide (k ≠ k')).
  - destruct (String.eqb k0 k) eqn:E.
    + apply String.eqb_eq in E. subst k0. rewrite !filter_cons. cbn [fst].
      destruct (decide (k ≠ k')) as [_|H]; [|by destruct H].
      cbn [set_field]. rewrite String.eqb_refl. f_equal. apply filter_filter_swap.
    + rewrite !filter_cons. cbn [fst].
      destruct (decide (k0 ≠ k')); [|done].
      cbn [set_field]. by rewrite E, IH.
Qed.

Lemma set_field_same k v o : set_field k v (set_field k v o) = set_field k v o.
Proof.
  induction o as [|[k0 v0] o IH]; cbn [set_field].
  - by rewrite String.eqb_refl.
  - destruct (String.eqb k0 k) eqn:E; cbn [set_field].
    + by rewrite String.eqb_refl, filter_filter_same.
    + by rewrite E, IH.
Qed.

(** Setting another key leaves a key that is set as it is. *)
Lemma set_field_settled k k' v v' o :
  k ≠ k' → set_field k v o = o → set_field k v (set_field k' v' o) = set_field k' v' o.
Proof.
  intros Hne. pose proof Hne as Hne'. apply String.eqb_neq in Hne'.
  induction o as [|[k0 v0] o IH]; cbn [set_field]; [done|].
  destruct (String.eqb k0 k) eqn:E.
  - apply String.eqb_eq in E. subst k0. intros [= -> Hrest].
    rewrite Hne'. cbn [set_field]. rewrite String.eqb_refl. f_equal.
    rewrite set_field_filter by done. by rewrite Hrest.
  - intros [= Hrest]. destruct (String.eqb k0 k') eqn:E'; cbn [set_field].
    + apply String.eqb_eq in E'. subst k0. rewrite E. f_equal.
      rewrite <- set_field_filter by done. by rewrite Hrest.
    + rewrite E. f_equal. by apply IH.
Qed.

(** The in-memory form of a message is a normal form: every object the
    list holds after an append or a poll normalises to itself, with its
    fields in the same order. *)
Theorem normalizeMessage_idemp (message : obj) :
  normalizeMessage (normalizeMessage message) = normalizeMessage message.
Proof.
  set (reactions := if is_array (assoc "reactions" message)
                    then assoc "reactions" message else JArr []).
  set (reply := normalizeReplyPreview (assoc "replyTo" message)).
  assert (Hnormal : normalizeMessage message
                    = set_field "replyTo" reply (set_field "reactions" reactions message))
    by done.
  assert (Hreply : assoc "replyTo" (normalizeMessage message) = reply)
    by apply assoc_set_field_eq.
  assert (Hreact : assoc "reactions" (normalizeMessage message) = reactions).
  { rewrite Hnormal, assoc_set_field_ne by done. apply assoc_set_field_eq. }
  assert (Harr : is_array reactions = true).
  { subst reactions. by destruct (is_array (assoc "reactions" message)) eqn:E. }
  unfold normalizeMessage at 1. rewrite Hreply, Hreact, Harr.
  subst reply. rewrite normalizeReplyPreview_idemp. rewrite Hnormal.
  rewrite (set_field_settled "reactions" "replyTo") by (done || apply set_field_same).
  apply set_field_same.
Qed.

(** ** Room list *)

Lemma isRoomMember_object room userId :
  Rooms.isRoomMember room userId = true → ∃ fields, room = JObj fields.
Proof.
  unfold Rooms.isRoomMember. destruct room; simpl; try done.
  - by destruct b.
  - by destruct (n =? 0)%Z.
  - by destruct (String.eqb s "").
  - eauto.
Qed.

Lemma commitSelection_frame before s :
  Chat.selectedRoom (Chat.commitSelection before s) = Chat.selectedRoom s
  ∧ Chat.selectedUser (Chat.commitSelection before s) = Chat.selectedUser s
  ∧ Chat.currentUserId (Chat.commitSelection before s) = Chat.currentUserId s.
Proof.
  unfold Chat.commitSelection.
  set (key := Chat.activeNotificationKey s).
  destruct (clearUnreadForKey_frame key (Chat.setActiveNotificationKeyRef key s))
    as (_ & _ & Hroom & Huser & Hself & _).
  destruct (String.eqb key _), (negb (truthy (Chat.selectedRoom s)) && _), (_ && _);
    simpl; rewrite ?Hroom, ?Huser, ?Hself; done.
Qed.

Lemma removeRoomFromUi_currentUserId roomId s :
  Chat.currentUserId (Chat.removeRoomFromUi roomId s) = Chat.currentUserId s.
Proof.
  unfold Chat.removeRoomFromUi. destruct (negb (truthy roomId)); [done|].
  cbv zeta. destruct (truthy (Chat.selectedRoom s) && _); [|done].
  by destruct (commitSelection_frame s
    (Chat.setUnreadCounts
       (λ previous,
          match previous !! buildRoomNotificationKey (js_String roomId) with
          | Some 0 | None => previous
          | Some (S _) => delete (buildRoomNotificationKey (js_String roomId)) previous
          end) (Chat.setSelection JNull (Chat.selectedUser s) s))) as (_ & _ & ->).
Qed.

Lemma Forall_filter_keep {A} (P Q : A → Prop) `{∀ x, Decision (Q x)} (l : list A) :
  Forall P l → Forall P (filter Q l).
Proof.
  rewrite !Forall_forall. intros Hall x Hx.
  apply list_elem_of_filter in Hx as [_ Hx]. by apply Hall.
Qed.

Lemma removeRoomFromUi_listed roomId s :
  Rooms.listed s → Rooms.listed (Rooms.removeRoomFromUi roomId s).
Proof.
  intros [Hmembers Hids]. unfold Rooms.removeRoomFromUi.
  destruct (negb (truthy roomId)); [done|]. split; cbn [Rooms.chat Rooms.rooms].
  - rewrite removeRoomFromUi_currentUserId. by apply Forall_filter_keep.
  - apply (sublist_NoDup _ _ Hids). apply fmap_sublist, sublist_filter.
Qed.

Lemma replace_by_id_ids (updated : jsval) (l : list jsval) :
  Rooms.room_id
    <$> map (λ room, if String.eqb (Rooms.room_id room) (Rooms.room_id updated)
                     then updated else room) l
  = Rooms.room_id <$> l.
Proof.
  induction l as [|room l IH]; [done|]. cbn [map]. rewrite !fmap_cons, IH. f_equal.
  by destruct (String.eqb _ _) eqn:E; [apply String.eqb_eq in E|].
Qed.

Lemma existsb_room_id id (l : list jsval) :
  existsb (λ room, String.eqb (Rooms.room_id room) id) l = false
  ↔ id ∉ Rooms.room_id <$> l.
Proof.
  induction l as [|room l IH]; simpl.
  - split; [|done]. intros _ H. by apply elem_of_nil in H.
  - rewrite orb_false_iff, IH, not_elem_of_cons, String.eqb_neq.
    split; intros [H1 H2]; (split; [|done]); intros E; by apply H1.
Qed.

(** The room events keep the sidebar consistent: if the current user is a
    member of every listed room and no two listed rooms share an id, the
    same holds after a room:membership_changed event and after a
    room:removed event, whatever their payloads, and neither event changes
    who the current user is. *)
Theorem room_events_keep_list_consistent (payload : jsval) (s : Rooms.State) :
  Rooms.listed s →
  Rooms.listed (Rooms.onRoomMembershipChanged payload s)
  ∧ Rooms.listed (Rooms.onRoomRemoved payload s)
  ∧ Chat.currentUserId (Rooms.chat (Rooms.onRoomMembershipChanged payload s))
    = Chat.currentUserId (Rooms.chat s)
  ∧ Chat.currentUserId (Rooms.chat (Rooms.onRoomRemoved payload s))
    = Chat.currentUserId (Rooms.chat s).
Proof.
  intros Hlisted.
  assert (Hremoved : ∀ roomId,
    Chat.currentUserId (Rooms.chat (Rooms.removeRoomFromUi roomId s))
    = Chat.currentUserId (Rooms.chat s)).
  { intros roomId. unfold Rooms.removeRoomFromUi.
    destruct (negb (truthy roomId)); [done|]. apply removeRoomFromUi_currentUserId. }
  assert (Hself :
    Chat.currentUserId (Rooms.chat (Rooms.onRoomMembershipChanged payload s))
    = Chat.currentUserId (Rooms.chat s)).
  { unfold Rooms.onRoomMembershipChanged.
    destruct (negb (truthy _)); [done|].
    destruct (negb (Rooms.isRoomMember _ _)); [apply Hremoved|].
    cbn [Rooms.chat]. destruct (_ && _); [|done].
    unfold Chat.select.
    by destruct (commitSelection_frame (Rooms.chat s)
      (Chat.setSelection (get "room" payload) (Chat.selectedUser (Rooms.chat s))
         (Rooms.chat s))) as (_ & _ & ->). }
  split; [|split; [by apply removeRoomFromUi_listed
                  |split; [done|unfold Rooms.onRoomRemoved; apply Hremoved]]].
  unfold Rooms.onRoomMembershipChanged in *.
  destruct (negb (truthy (get "_id" (get "room" payload)))); [done|].
  destruct (Rooms.isRoomMember (get "room" payload) (Chat.currentUserId (Rooms.chat s)))
    eqn:Hmember; cbn [negb]; [|by apply removeRoomFromUi_listed].
  cbn [negb] in Hself. destruct Hlisted as [Hmembers Hids].
  split; cbn [Rooms.rooms]; [rewrite Hself|].
  - destruct (existsb _ _); cbn [negb].
    + apply Forall_fmap. eapply Forall_impl; [exact Hmembers|].
      intros room Hroom. unfold compose.
      by destruct (String.eqb (Rooms.room_id room) _).
    + by apply Forall_cons.
  - destruct (existsb _ _) eqn:Hexists; cbn [negb].
    + by rewrite replace_by_id_ids.
    + rewrite fmap_cons. apply NoDup_cons. split; [|done].
      by apply existsb_room_id.
Qed.

Lemma room_events_keep_list_consistent_witness :
  Rooms.listed
    (Rooms.onRoomMembershipChanged
       (JObj [("room", JObj [("_id", JStr "r2"); ("members", JArr [JStr "alice"])])])
       {| Rooms.chat := SampleChat.in_room;
          Rooms.rooms := [JObj [("_id", JStr "r1"); ("members", JArr [JStr "alice"])]] |}).
Proof.
  apply (room_events_keep_list_consistent
           (JObj [("room", JObj [("_id", JStr "r2"); ("members", JArr [JStr "alice"])])])
           {| Rooms.chat := SampleChat.in_room;
              Rooms.rooms := [JObj [("_id", JStr "r1"); ("members", JArr [JStr "alice"])]] |}).
  split.
  - apply Forall_cons. split; [reflexivity | apply Forall_nil_2].
  - apply (bool_decide_unpack _). vm_compute. exact I.
Defined.

Lemma commitSelection_keeps_cleared before s key :
  Chat.unreadCounts s !! key = None ∨ Chat.unreadCounts s !! key = Some 0 →
  Chat.unreadCounts (Chat.commitSelection before s) !! key = None
  ∨ Chat.unreadCounts (Chat.commitSelection before s) !! key = Some 0.
Proof.
  intros H. unfold Chat.commitSelection.
  set (active := Chat.activeNotificationKey s).
  pose proof (clearUnreadForKey_keeps_cleared active key
                (Chat.setActiveNotificationKeyRef active s) H) as Hcleared.
  destruct (String.eqb active _), (negb (truthy (Chat.selectedRoom s)) && _), (_ && _);
    simpl; done.
Qed.

Lemma removeRoomFromUi_outcome roomId s :
  truthy roomId = true →
  (truthy (Chat.selectedRoom (Chat.removeRoomFromUi roomId s)) = true →
   js_String (get "_id" (Chat.selectedRoom (Chat.removeRoomFromUi roomId s)))
   ≠ js_String roomId)
  ∧ (Chat.unreadCounts (Chat.removeRoomFromUi roomId s)
       !! buildRoomNotificationKey (js_String roomId) = None
     ∨ Chat.unreadCounts (Chat.removeRoomFromUi roomId s)
         !! buildRoomNotificationKey (js_String roomId) = Some 0).
Proof.
  intros Hid. unfold Chat.removeRoomFromUi. rewrite Hid. cbn [negb]. cbv zeta.
  set (key := buildRoomNotificationKey (js_String roomId)).
  set (forget := λ previous : gmap string nat,
         match previous !! key with
         | Some 0 | None => previous
         | Some (S _) => delete key previous
         end).
  assert (Hforget : ∀ s0, Chat.unreadCounts (Chat.setUnreadCounts forget s0) !! key = None
                          ∨ Chat.unreadCounts (Chat.setUnreadCounts forget s0) !! key = Some 0).
  { intros s0. cbn [Chat.unreadCounts Chat.setUnreadCounts]. subst forget. cbn beta.
    destruct (Chat.unreadCounts s0 !! key) as [[|n]|] eqn:E; auto.
    left. apply lookup_delete_eq. }
  destruct (truthy (Chat.selectedRoom s)
            && String.eqb (js_String (get "_id" (Chat.selectedRoom s))) (js_String roomId))
    eqn:Hdeselect.
  - split.
    + destruct (commitSelection_frame s
        (Chat.setUnreadCounts forget (Chat.setSelection JNull (Chat.selectedUser s) s)))
        as (-> & _). done.
    + by apply commitSelection_keeps_cleared.
  - split; [|done]. cbn [Chat.selectedRoom Chat.setUnreadCounts]. intros Hroom.
    rewrite Hroom in Hdeselect. by apply String.eqb_neq.
Qed.

(** What a room:membership_changed event for a room does.  When the
    current user is not among the members any more, the room leaves the
    sidebar, it is not the selected room afterwards, and no unread count
    is left under its key.  When the current user is a member, the room of
    the event is listed, it is the only listed room with its id, the rooms
    with other ids are listed as before, and if the selected room has its
    id the selected room is the room of the event. *)
Theorem membership_change_outcome (payload : jsval) (s : Rooms.State) :
  Rooms.listed s →
  truthy (get "_id" (get "room" payload)) = true →
  let room := get "room" payload in
  let self := Chat.currentUserId (Rooms.chat s) in
  let s' := Rooms.onRoomMembershipChanged payload s in
  (Rooms.isRoomMember room self = false →
   (Rooms.room_id room ∉ Rooms.room_id <$> Rooms.rooms s')
   ∧ (truthy (Chat.selectedRoom (Rooms.chat s')) = true →
      Rooms.room_id (Chat.selectedRoom (Rooms.chat s')) ≠ Rooms.room_id room)
   ∧ (Chat.unreadCounts (Rooms.chat s') !! buildRoomNotificationKey (Rooms.room_id room)
      = None
      ∨ Chat.unreadCounts (Rooms.chat s') !! buildRoomNotificationKey (Rooms.room_id room)
        = Some 0))
  ∧ (Rooms.isRoomMember room self = true →
     room ∈ Rooms.rooms s'
     ∧ (∀ other, other ∈ Rooms.rooms s' → Rooms.room_id other = Rooms.room_id room →
                 other = room)
     ∧ (∀ other, Rooms.room_id other ≠ Rooms.room_id room →
                 (other ∈ Rooms.rooms s' ↔ other ∈ Rooms.rooms s))
     ∧ (truthy (Chat.selectedRoom (Rooms.chat s)) = true →
        Rooms.room_id (Chat.selectedRoom (Rooms.chat s)) = Rooms.room_id room →
        Chat.selectedRoom (Rooms.chat s') = room)).
Proof.
  intros _ Hid room self s'. subst room self s'. unfold Rooms.onRoomMembershipChanged.
  set (room := get "room" payload) in *. set (self := Chat.currentUserId (Rooms.chat s)).
  rewrite Hid. cbn [negb]. split.
  - intros Hmember. rewrite Hmember. cbn [negb]. unfold Rooms.removeRoomFromUi.
    rewrite Hid. cbn [negb Rooms.rooms Rooms.chat].
    destruct (removeRoomFromUi_outcome (get "_id" room) (Rooms.chat s) Hid)
      as [Hselected Hunread].
    split; [|split; [exact Hselected | exact Hunread]].
    intros Hin. apply list_elem_of_fmap in Hin as (other & Heq & Hin).
    apply list_elem_of_filter in Hin as [Hne _]. by apply Hne.
  - intros Hmember. rewrite Hmember. cbn [negb Rooms.rooms Rooms.chat].
    destruct (existsb (λ other, String.eqb (Rooms.room_id other) (Rooms.room_id room))
                (Rooms.rooms s)) eqn:Hexists; cbn [negb].
    + split; [|split; [|split]].
      * apply existsb_exists in Hexists as (other & Hin & Heq).
        apply list_elem_of_fmap. exists other. rewrite Heq.
        split; [done|]. by apply list_elem_of_In.
      * intros other Hin Hsame. apply list_elem_of_fmap in Hin as (old & -> & Hin).
        destruct (String.eqb (Rooms.room_id old) (Rooms.room_id room)) eqn:E; [done|].
        apply String.eqb_neq in E. done.
      * intros other Hne. split.
        -- intros Hin. apply list_elem_of_fmap in Hin as (old & -> & Hin).
           destruct (String.eqb (Rooms.room_id old) (Rooms.room_id room)) eqn:E; done.
        -- intros Hin. apply list_elem_of_fmap. exists other.
           apply String.eqb_neq in Hne. by rewrite Hne.
      * intros Hselected Hsame. rewrite Hselected, Hsame, String.eqb_refl. cbn [andb].
        unfold Chat.select.
        by destruct (commitSelection_frame (Rooms.chat s)
          (Chat.setSelection room (Chat.selectedUser (Rooms.chat s)) (Rooms.chat s)))
          as (-> & _).
    + apply existsb_room_id in Hexists.
      split; [|split; [|split]].
      * apply list_elem_of_here.
      * intros other Hin Hsame. apply elem_of_cons in Hin as [-> | Hin]; [done|].
        destruct Hexists. rewrite <- Hsame. apply list_elem_of_fmap. by exists other.
      * intros other Hne. rewrite elem_of_cons. split; [|by right].
        intros [-> | Hin]; done.
      * intros Hselected Hsame. rewrite Hselected, Hsame, String.eqb_refl. cbn [andb].
        unfold Chat.select.
        by destruct (commitSelection_frame (Rooms.chat s)
          (Chat.setSelection room (Chat.selectedUser (Rooms.chat s)) (Rooms.chat s)))
          as (-> & _).
Qed.

Lemma membership_change_outcome_witness :
  "r1" ∉ Rooms.room_id
           <$> Rooms.rooms
                 (Rooms.onRoomMembershipChanged
                    (JObj [("room", JObj [("_id", JStr "r1"); ("members", JArr [JStr "bob"])])])
                    {| Rooms.chat := SampleChat.in_room;
                       Rooms.rooms :=
                         [JObj [("_id", JStr "r1"); ("members", JArr [JStr "alice"])]] |}).
Proof.
  destruct (membership_change_outcome
              (JObj [("room", JObj [("_id", JStr "r1"); ("members", JArr [JStr "bob"])])])
              {| Rooms.chat := SampleChat.in_room;
                 Rooms.rooms := [JObj [("_id", JStr "r1"); ("members", JArr [JStr "alice"])]] |})
    as [H _].
  - split.
    + apply Forall_cons. split; [reflexivity | apply Forall_nil_2].
    + apply (bool_decide_unpack _). vm_compute. exact I.
  - reflexivity.
  - destruct H as (H & _); [reflexivity | exact H].
Defined.

(** ** Conversation channel *)

Lemma ltb_asym a b : String.ltb a b = true → String.ltb b a = false.
Proof.
  unfold String.ltb. rewrite (String.compare_antisym a b).
  by destruct (String.compare b a).
Qed.

Lemma ltb_connected a b : String.ltb a b = false → String.ltb b a = false → a = b.
Proof.
  unfold String.ltb. intros H1 H2. apply String.compare_eq_iff.
  rewrite (String.compare_antisym b a) in H2.
  by destruct (String.compare a b).
Qed.

Lemma join_colon_pair a b :
  truthy a = true → truthy b = true →
  Channel.join_colon [a; b] = js_String a +:+ ":" +:+ js_String b.
Proof. intros Ha Hb. unfold Channel.join_colon. by destruct a, b. Qed.

Lemma buildDmChannel_truthy a b :
  truthy a = true → truthy b = true →
  Channel.buildDmChannel a b
  = "dm:" +:+ (if String.ltb (js_String b) (js_String a)
               then js_String b +:+ ":" +:+ js_String a
               else js_String a +:+ ":" +:+ js_String b).
Proof.
  intros Ha Hb. unfold Channel.buildDmChannel. f_equal.
  assert (Hsort : Channel.sort2 a b
                  = if String.ltb (js_String b) (js_String a) then [b; a] else [a; b]).
  { unfold Channel.sort2. by destruct a, b. }
  rewrite Hsort. destruct (String.ltb _ _); by apply join_colon_pair.
Qed.

(** Two users who have each other's direct conversation open subscribe to
    one and the same channel: the channel name is built from the two ids
    in sorted order, so it does not depend on which of the two computes
    it. *)
Theorem peers_share_dm_channel (mine theirs : Chat.State) :
  Chat.currentUserId mine ≠ "" →
  Chat.currentUserId theirs ≠ "" →
  truthy (get "_id" (Chat.selectedRoom mine)) = false →
  truthy (get "_id" (Chat.selectedRoom theirs)) = false →
  truthy (get "_id" (Chat.selectedUser mine)) = true →
  truthy (get "_id" (Chat.selectedUser theirs)) = true →
  js_String (get "_id" (Chat.selectedUser mine)) = Chat.currentUserId theirs →
  js_String (get "_id" (Chat.selectedUser theirs)) = Chat.currentUserId mine →
  Channel.conversationChannel mine = Channel.conversationChannel theirs
  ∧ Channel.conversationChannel mine
    = Some (Channel.buildDmChannel (JStr (Chat.currentUserId mine))
              (JStr (Chat.currentUserId theirs))).
Proof.
  intros Hmine Htheirs Hroom Hroom' Huser Huser' Hpeer Hpeer'.
  assert (Hme : truthy (JStr (Chat.currentUserId mine)) = true)
    by by apply negb_true_iff, String.eqb_neq.
  assert (Hthem : truthy (JStr (Chat.currentUserId theirs)) = true)
    by by apply negb_true_iff, String.eqb_neq.
  unfold Channel.conversationChannel.
  apply String.eqb_neq in Hmine, Htheirs.
  rewrite Hmine, Htheirs, Hroom, Hroom', Huser, Huser'.
  rewrite !buildDmChannel_truthy by done. cbn [js_String].
  rewrite Hpeer, Hpeer'. split; [|done]. do 2 f_equal.
  destruct (String.ltb (Chat.currentUserId theirs) (Chat.currentUserId mine)) eqn:E.
  - by rewrite (ltb_asym _ _ E).
  - destruct (String.ltb (Chat.currentUserId mine) (Chat.currentUserId theirs)) eqn:E';
      [done|].
    by rewrite (ltb_connected _ _ E E').
Qed.

Lemma peers_share_dm_channel_witness :
  Channel.conversationChannel
    (Chat.select JNull (JObj [("_id", JStr "bob")]) (Chat.initial "alice"))
  = Channel.conversationChannel
      (Chat.select JNull (JObj [("_id", JStr "alice")]) (Chat.initial "bob")).
Proof.
  destruct (peers_share_dm_channel
              (Chat.select JNull (JObj [("_id", JStr "bob")]) (Chat.initial "alice"))
              (Chat.select JNull (JObj [("_id", JStr "alice")]) (Chat.initial "bob")))
    as [H _]; [discriminate | discriminate | reflexivity | reflexivity | reflexivity
              | reflexivity | reflexivity | reflexivity |].
  exact H.
Defined.

Lemma conversationChannel_truthy chat :
  Channel.truthy_channel (Channel.conversationChannel chat)
  = bool_decide (Channel.conversationChannel chat ≠ None).
Proof.
  unfold Channel.conversationChannel.
  destruct (String.eqb _ ""); [done|].
  destruct (truthy _); [done|]. by destruct (truthy _).
Qed.

Lemma joined_channels_snoc log event :
  Channel.joined_channels (log ++ [event])
  = match event with
    | Channel.conversation_join c => Channel.joined_channels log ∪ {[c]}
    | Channel.conversation_leave c => Channel.joined_channels log ∖ {[c]}
    end.
Proof. unfold Channel.joined_channels. by rewrite foldl_app. Qed.

Lemma syncConversation_in_sync chat s :
  Channel.joinedConversationRef s ≠ Some "" →
  channel_in_sync s →
  channel_in_sync (Channel.syncConversation (Channel.conversationChannel chat) s)
  ∧ Channel.joinedConversationRef
      (Channel.syncConversation (Channel.conversationChannel chat) s) ≠ Some ""
  ∧ (Channel.socketRef s ≠ None →
     Channel.joinedConversationRef
       (Channel.syncConversation (Channel.conversationChannel chat) s)
     = Channel.conversationChannel chat).
Proof.
  intros Hnonempty Hsync. unfold channel_in_sync, Channel.syncConversation in *.
  pose proof (conversationChannel_truthy chat) as Htruthy.
  destruct (Channel.socketRef s) as [log|] eqn:Hsocket; [|by rewrite Hsocket, Hsync].
  destruct (Channel.conversationChannel chat) as [channel|] eqn:Hchannel;
    destruct (Channel.joinedConversationRef s) as [previous|] eqn:Hprevious.
  - rewrite bool_decide_eq_true_2 in Htruthy by done.
    assert (Hp : Channel.truthy_channel (Some previous) = true).
    { simpl. apply negb_true_iff, String.eqb_neq. congruence. }
    rewrite Htruthy, Hp. cbn [andb negb default from_option id].
    destruct (bool_decide (Some previous ≠ Some channel)) eqn:Hne.
    + cbn [Channel.socketRef Channel.joinedConversationRef].
      rewrite !joined_channels_snoc, Hsync, difference_diag_L, union_empty_l_L.
      split; [done|]. split; [|done].
      intros [= ->]. simpl in Htruthy. done.
    + cbn [Channel.socketRef Channel.joinedConversationRef].
      apply bool_decide_eq_false_1 in Hne.
      assert (Heq : Some previous = Some channel).
      { destruct (decide (Some previous = Some channel)); [done|]. by destruct Hne. }
      split; [done|]. split; [done|]. by intros _.
  - rewrite bool_decide_eq_true_2 in Htruthy by done.
    rewrite Htruthy, !bool_decide_eq_true_2 by done.
    cbn [andb Channel.truthy_channel default from_option id].
    cbn [Channel.socketRef Channel.joinedConversationRef].
    rewrite joined_channels_snoc, Hsync, union_empty_l_L.
    split; [done|]. split; [|done].
    intros [= ->]. simpl in Htruthy. done.
  - assert (Hp : Channel.truthy_channel (Some previous) = true).
    { simpl. apply negb_true_iff, String.eqb_neq. congruence. }
    rewrite Hp, bool_decide_eq_true_2 by done.
    cbn [andb negb Channel.truthy_channel default from_option id Channel.socketRef
         Channel.joinedConversationRef].
    rewrite joined_channels_snoc, Hsync, difference_diag_L. done.
  - cbn [andb negb Channel.truthy_channel Channel.socketRef Channel.joinedConversationRef].
    done.
Qed.

Lemma reachable_in_sync s :
  Channel.reachable s → channel_in_sync s ∧ Channel.joinedConversationRef s ≠ Some "".
Proof.
  induction 1 as [|s s' _ [IH Hne] Hstep]; [done|].
  destruct Hstep as [s Hsocket | s | chat s].
  - unfold channel_in_sync in *. rewrite Hsocket in IH. simpl. by rewrite IH.
  - done.
  - by destruct (syncConversation_in_sync chat s Hne IH) as (H1 & H2 & _).
Qed.

(** However the socket effect and the channel effect interleave, the
    socket is in at most one conversation channel on the server's side,
    and it is the one the channel reference holds: replaying the joins and
    leaves emitted on the current socket leaves exactly that channel, or
    none when the reference is null; without a socket the reference is
    null. *)
Theorem socket_joined_to_one_channel (s : Channel.State) :
  Channel.reachable s →
  match Channel.socketRef s with
  | Some log =>
      Channel.joined_channels log
      = match Channel.joinedConversationRef s with Some c => {[c]} | None => ∅ end
  | None => Channel.joinedConversationRef s = None
  end.
Proof. intros Hreach. by destruct (reachable_in_sync s Hreach). Qed.

Lemma socket_joined_to_one_channel_witness :
  Channel.joined_channels
    [Channel.conversation_join "room:r1"; Channel.conversation_leave "room:r1";
     Channel.conversation_join "dm:alice:bob"]
  = {["dm:alice:bob"]}.
Proof.
  apply (socket_joined_to_one_channel
           (Channel.syncConversation
              (Channel.conversationChannel
                 (Chat.select JNull (JObj [("_id", JStr "bob")]) (Chat.initial "alice")))
              (Channel.syncConversation (Channel.conversationChannel SampleChat.in_room)
                 (Channel.connect Channel.initial)))).
  eapply Channel.reachable_step; [|apply Channel.step_channel].
  eapply Channel.reachable_step; [|apply Channel.step_channel].
  eapply Channel.reachable_step; [apply Channel.reachable_initial|].
  by apply Channel.step_connect.
Defined.

(** Once the channel effect has run on a connected client, the channel
    reference holds the channel of the open conversation, and the socket
    is in that channel and in no other. *)
Theorem channel_effect_joins_open_conversation (chat : Chat.State) (s : Channel.State) :
  Channel.reachable s →
  Channel.socketRef s ≠ None →
  let s' := Channel.syncConversation (Channel.conversationChannel chat) s in
  Channel.joinedConversationRef s' = Channel.conversationChannel chat
  ∧ ∃ log, Channel.socketRef s' = Some log
           ∧ Channel.joined_channels log
             = match Channel.conversationChannel chat with Some c => {[c]} | None => ∅ end.
Proof.
  intros Hreach Hsocket s'.
  destruct (reachable_in_sync s Hreach) as [Hsync Hne].
  destruct (syncConversation_in_sync chat s Hne Hsync) as (Hsync' & _ & Hjoined).
  specialize (Hjoined Hsocket). fold s' in Hsync', Hjoined. split; [done|].
  unfold channel_in_sync in Hsync'. rewrite Hjoined in Hsync'.
  destruct (Channel.socketRef s') as [log|] eqn:Hlog; [by exists log|].
  subst s'. unfold Channel.syncConversation in Hlog.
  destruct (Channel.socketRef s); [|done].
  destruct (Channel.truthy_channel (Channel.conversationChannel chat) && _); [done|].
  by destruct (negb _).
Qed.

Lemma channel_effect_joins_open_conversation_witness :
  Channel.joinedConversationRef
    (Channel.syncConversation (Channel.conversationChannel SampleChat.in_room)
       (Channel.connect Channel.initial))
  = Some "room:r1".
Proof.
  destruct (channel_effect_joins_open_conversation SampleChat.in_room
              (Channel.connect Channel.initial)) as [H _].
  - eapply Channel.reachable_step; [apply Channel.reachable_initial|].
    by apply Channel.step_connect.
  - discriminate.
  - exact H.
Defined.

(** ** Unread badge *)

Lemma unread_sum_insert (m : gmap string nat) key count :
  m !! key = None →
  map_fold (λ _ count sum, sum + count) 0 (<[key := count]> m)
  = map_fold (λ _ count sum, sum + count) 0 m + count.
Proof.
  intros Hnone. rewrite map_fold_insert_L; [done| |done].
  intros. lia.
Qed.

Lemma unread_sum_delete (m : gmap string nat) key count :
  m !! key = Some count →
  map_fold (λ _ count sum, sum + count) 0 m
  = map_fold (λ _ count sum, sum + count) 0 (delete key m) + count.
Proof.
  intros Hsome. rewrite <- (insert_delete_id m key count Hsome) at 1.
  apply unread_sum_insert, lookup_delete_eq.
Qed.

Lemma unread_sum_increment (m : gmap string nat) key :
  map_fold (λ _ count sum, sum + count) 0 (<[key := default 0 (m !! key) + 1]> m)
  = map_fold (λ _ count sum, sum + count) 0 m + 1.
Proof.
  destruct (m !! key) as [count|] eqn:E; simpl.
  - rewrite <- insert_delete_eq, unread_sum_insert by apply lookup_delete_eq.
    rewrite (unread_sum_delete m key count E). lia.
  - by rewrite unread_sum_insert.
Qed.

(** The number on the unread badge is the sum of the counters: a pushed
    message that the router classifies to a key other than the active one
    raises it by exactly one. *)
Theorem unread_badge_counts_push (s : Chat.State) (payload : jsval) (key : string) :
  classified s payload key →
  key ≠ Chat.activeNotificationKeyRef s →
  totalUnreadCount (Chat.onNewMessage payload s) = totalUnreadCount s + 1.
Proof.
  intros (Hid & Hnew & <- & Hkey) Hactive. unfold totalUnreadCount.
  rewrite (onNewMessage_unread payload s Hid Hnew Hkey Hactive).
  apply unread_sum_increment.
Qed.

Lemma unread_badge_counts_push_witness :
  totalUnreadCount SampleChat.with_unread = 1.
Proof.
  apply (unread_badge_counts_push SampleChat.in_room
           (SampleChat.push (SampleChat.message "m7" "bob" "r2" "hi")) "room:r2").
  - split; [discriminate|]. split; [|split; [reflexivity | discriminate]].
    apply (bool_decide_unpack _). vm_compute. exact I.
  - discriminate.
Defined.

(** Clearing a key takes exactly its counter off the badge, and clearing
    the empty key takes nothing off. *)
Theorem unread_badge_after_clear (s : Chat.State) (key : string) :
  totalUnreadCount (Chat.clearUnreadForKey key s)
  + (if String.eqb key "" then 0 else default 0 (Chat.unreadCounts s !! key))
  = totalUnreadCount s.
Proof.
  unfold totalUnreadCount, Chat.clearUnreadForKey.
  destruct (String.eqb key ""); [lia|].
  cbn [Chat.unreadCounts Chat.setUnreadCounts].
  destruct (Chat.unreadCounts s !! key) as [[|count]|] eqn:E; simpl; try lia.
  by rewrite (unread_sum_delete _ key (S count) E).
Qed.

(** ** ICE servers *)

Lemma trimmed_trim value : trim (IceServers.trimmed value) = IceServers.trimmed value.
Proof. apply trim_idemp. Qed.

Lemma normalizeIceServerConfig_usable rawServer server :
  IceServers.normalizeIceServerConfig rawServer = Some server → IceServers.usable server.
Proof.
  unfold IceServers.normalizeIceServerConfig.
  destruct (negb (truthy rawServer) || negb (is_object rawServer)); [done|].
  set (urls := filter (λ url, url ≠ "") _).
  destruct (length urls =? 0) eqn:Hlen; [done|].
  intros [= <-]. apply Nat.eqb_neq in Hlen.
  unfold IceServers.usable.
  cbn [IceServers.urls IceServers.username IceServers.credential].
  split; [|split; [|split]].
  - intros Hnil. by rewrite Hnil in Hlen.
  - apply Forall_forall. intros url Hurl. subst urls.
    apply list_elem_of_filter in Hurl as [Hne Hurl]. split; [done|].
    apply list_elem_of_fmap in Hurl as (value & -> & _). apply trimmed_trim.
  - destruct (String.eqb (IceServers.trimmed (get "username" rawServer)) "") eqn:E;
      cbn [negb]; [done|].
    apply String.eqb_neq in E. congruence.
  - destruct (String.eqb (IceServers.trimmed (get "credential" rawServer)) "") eqn:E;
      cbn [negb]; [done|].
    apply String.eqb_neq in E. congruence.
Qed.

Lemma DEFAULT_WEBRTC_ICE_SERVERS_usable :
  Forall IceServers.usable IceServers.DEFAULT_WEBRTC_ICE_SERVERS.
Proof.
  unfold IceServers.DEFAULT_WEBRTC_ICE_SERVERS, IceServers.usable.
  repeat apply Forall_cons_2; try apply Forall_nil_2;
    cbn [IceServers.urls IceServers.username IceServers.credential];
    (split; [done|]); (split; [|done]);
    repeat apply Forall_cons_2; try apply Forall_nil_2;
    (split; [done|]); vm_compute; reflexivity.
Qed.

(** Whatever the environment variable holds and whatever parsing it
    gives, the peer connection is configured with at least one ICE
    server, and every configured server has at least one url, only
    non-empty urls without surrounding white space, and no empty user name
    or credential; a variable that is absent, blank, unparsable or without
    a usable entry yields the built-in servers. *)
Theorem ice_servers_always_usable (JSON_parse : string → option jsval) (env : jsval) :
  let servers := IceServers.parseIceServersFromEnv JSON_parse env in
  servers ≠ []
  ∧ Forall IceServers.usable servers
  ∧ (IceServers.trimmed env = ""
     ∨ JSON_parse (IceServers.trimmed env) = None
     ∨ (∃ parsed, JSON_parse (IceServers.trimmed env) = Some parsed
                  ∧ ∀ entry, entry ∈ match parsed with JArr items => items | _ => [parsed] end →
                             IceServers.normalizeIceServerConfig entry = None) →
     servers = IceServers.DEFAULT_WEBRTC_ICE_SERVERS).
Proof.
  intros servers. subst servers. unfold IceServers.parseIceServersFromEnv.
  pose proof DEFAULT_WEBRTC_ICE_SERVERS_usable as Hdefault.
  destruct (String.eqb (IceServers.trimmed env) "") eqn:Henv.
  { split; [done|]. split; [done|]. done. }
  apply String.eqb_neq in Henv.
  destruct (JSON_parse (IceServers.trimmed env)) as [parsed|] eqn:Hparse.
  2:{ split; [done|]. split; [done|]. done. }
  set (entries := match parsed with JArr items => items | _ => [parsed] end).
  destruct (0 <? length (omap IceServers.normalizeIceServerConfig entries)) eqn:Hlen.
  - apply Nat.ltb_lt in Hlen. split; [|split].
    + intros Hnil. rewrite Hnil in Hlen. simpl in Hlen. lia.
    + apply Forall_forall. intros server Hserver.
      apply list_elem_of_omap in Hserver as (entry & _ & Hentry).
      by apply (normalizeIceServerConfig_usable entry).
    + intros [H | [H | (parsed' & [= <-] & Hnone)]]; [done|done|].
      destruct (omap IceServers.normalizeIceServerConfig entries) as [|server rest] eqn:E;
        [simpl in Hlen; lia|].
      assert (Hin : server ∈ omap IceServers.normalizeIceServerConfig entries)
        by (rewrite E; apply list_elem_of_here).
      apply list_elem_of_omap in Hin as (entry & Hentry & Hsome).
      rewrite (Hnone entry Hentry) in Hsome. done.
  - split; [done|]. split; [done|]. done.
Qed.

(** ** Reaction summary *)

Lemma sum_list_app_nat (l1 l2 : list nat) : sum_list (l1 ++ l2) = sum_list l1 + sum_list l2.
Proof. induction l1 as [|n l1 IH]; simpl; [done|]. rewrite IH. lia. Qed.

Lemma strict_eq_sym a b : strict_eq a b = strict_eq b a.
Proof.
  destruct a, b; simpl; try done.
  - by destruct b, b0.
  - apply Z.eqb_sym.
  - apply String.eqb_sym.
Qed.

Lemma aggregate_set_new key entry aggregate :
  MessageItem.aggregate_get key aggregate = None →
  MessageItem.aggregate_set key entry aggregate = aggregate ++ [(key, entry)]
  ∧ Forall (λ k, strict_eq k key = false) aggregate.*1.
Proof.
  induction aggregate as [|[k e] aggregate IH]; simpl; [done|].
  destruct (strict_eq k key) eqn:E; [done|]. intros Hnone.
  destruct (IH Hnone) as [-> Hall]. split; [done|]. by apply Forall_cons.
Qed.

Lemma aggregate_set_old key entry aggregate old :
  MessageItem.aggregate_get key aggregate = Some old →
  ∃ before k after,
    aggregate = before ++ (k, old) :: after
    ∧ strict_eq k key = true
    ∧ MessageItem.aggregate_set key entry aggregate = before ++ (k, entry) :: after.
Proof.
  induction aggregate as [|[k e] aggregate IH]; simpl; [done|].
  destruct (strict_eq k key) eqn:E.
  - intros [= ->]. by exists [], k, aggregate.
  - intros Hsome. destruct (IH Hsome) as (before & k' & after & -> & Hk & ->).
    by exists ((k, e) :: before), k', after.
Qed.

Lemma pairwise_distinct_snoc values value :
  pairwise_distinct values →
  Forall (λ v, strict_eq v value = false) values →
  pairwise_distinct (values ++ [value]).
Proof.
  intros Hdistinct Hall i j a b Hi Hj Heq. rewrite Forall_forall in Hall.
  apply lookup_snoc_Some in Hi as [[Hi Ha] | [-> <-]];
    apply lookup_snoc_Some in Hj as [[Hj Hb] | [-> <-]].
  - by apply (Hdistinct i j a b).
  - apply list_elem_of_lookup_2 in Ha. rewrite (Hall a Ha) in Heq. done.
  - apply list_elem_of_lookup_2 in Hb. rewrite strict_eq_sym, (Hall b Hb) in Heq. done.
  - done.
Qed.

Lemma countReaction_Some currentUserId aggregate reaction aggregate' :
  MessageItem.countReaction currentUserId (Some aggregate) reaction = Some aggregate' →
  aggregate'
  = MessageItem.aggregate_set (get "emoji" reaction)
      {| MessageItem.emoji :=
           MessageItem.emoji
             (default {| MessageItem.emoji := get "emoji" reaction;
                         MessageItem.count := 0; MessageItem.reactedByMe := false |}
                      (MessageItem.aggregate_get (get "emoji" reaction) aggregate));
         MessageItem.count :=
           MessageItem.count
             (default {| MessageItem.emoji := get "emoji" reaction;
                         MessageItem.count := 0; MessageItem.reactedByMe := false |}
                      (MessageItem.aggregate_get (get "emoji" reaction) aggregate)) + 1;
         MessageItem.reactedByMe :=
           if reactedBy currentUserId reaction then true
           else MessageItem.reactedByMe
                  (default {| MessageItem.emoji := get "emoji" reaction;
                              MessageItem.count := 0; MessageItem.reactedByMe := false |}
                           (MessageItem.aggregate_get (get "emoji" reaction) aggregate)) |}
      aggregate.
Proof. unfold MessageItem.countReaction. destruct reaction; by intros [= <-]. Qed.

Lemma countReaction_summarises currentUserId aggregate reactions reaction aggregate' :
  summarises currentUserId aggregate reactions →
  MessageItem.countReaction currentUserId (Some aggregate) reaction = Some aggregate' →
  summarises currentUserId aggregate' (reactions ++ [reaction]).
Proof.
  intros [Hsum Hkeyed Hdistinct Hflags] Hstep.
  apply countReaction_Some in Hstep. subst aggregate'.
  destruct (MessageItem.aggregate_get (get "emoji" reaction) aggregate) as [old|] eqn:Hget;
    cbn [default from_option id].
  - destruct (aggregate_set_old _
                {| MessageItem.emoji := MessageItem.emoji old;
                   MessageItem.count := MessageItem.count old + 1;
                   MessageItem.reactedByMe :=
                     if reactedBy currentUserId reaction then true
                     else MessageItem.reactedByMe old |} _ _ Hget)
      as (before & k & after & -> & Hk & ->).
    set (entry := {| MessageItem.emoji := MessageItem.emoji old;
                     MessageItem.count := MessageItem.count old + 1;
                     MessageItem.reactedByMe :=
                       if reactedBy currentUserId reaction then true
                       else MessageItem.reactedByMe old |}).
    assert (Hold : (before ++ (k, old) :: after).*2 = before.*2 ++ old :: after.*2)
      by by rewrite fmap_app, fmap_cons.
    assert (Hnew : (before ++ (k, entry) :: after).*2 = before.*2 ++ entry :: after.*2)
      by by rewrite fmap_app, fmap_cons.
    assert (Hkeys : (before ++ (k, entry) :: after).*1 = (before ++ (k, old) :: after).*1)
      by by rewrite !fmap_app, !fmap_cons.
    rewrite Hold in Hsum, Hflags.
    rewrite fmap_app, fmap_cons, sum_list_app_nat in Hsum.
    cbn [sum_list sum_list_with] in Hsum.
    apply Forall_app in Hkeyed as [Hbefore Hafter].
    apply Forall_cons in Hafter as [[Hemoji Hcount] Hafter].
    cbn [fst snd] in *.
    split.
    + rewrite Hnew, fmap_app, fmap_cons, sum_list_app_nat, length_app.
      cbn [sum_list sum_list_with]. subst entry. cbn [MessageItem.count].
      unfold id in *. simpl. lia.
    + apply Forall_app. split; [done|]. apply Forall_cons. split; [|done].
      subst entry. cbn [fst snd MessageItem.emoji MessageItem.count]. split; [done|lia].
    + by rewrite Hkeys.
    + rewrite Hnew. subst entry. split.
      * intros (entry & Hin & Hflag).
        apply elem_of_app in Hin as [Hin | Hin];
          [|apply elem_of_cons in Hin as [-> | Hin]].
        -- destruct (proj1 Hflags) as (r & Hr & Hmine).
           { exists entry. split; [|done]. apply elem_of_app. by left. }
           exists r. split; [|done]. apply elem_of_app. by left.
        -- cbn [MessageItem.reactedByMe] in Hflag.
           destruct (reactedBy currentUserId reaction) eqn:Hmine.
           ++ exists reaction. split; [|done].
              apply elem_of_app. right. by apply list_elem_of_singleton.
           ++ destruct (proj1 Hflags) as (r & Hr & Hmine').
              { exists old. split; [|done]. apply elem_of_app. right.
                apply list_elem_of_here. }
              exists r. split; [|done]. apply elem_of_app. by left.
        -- destruct (proj1 Hflags) as (r & Hr & Hmine).
           { exists entry. split; [|done]. apply elem_of_app. right.
             by apply elem_of_cons; right. }
           exists r. split; [|done]. apply elem_of_app. by left.
      * intros (r & Hr & Hmine). apply elem_of_app in Hr as [Hr | Hr].
        -- destruct (proj2 Hflags) as (entry & Hin & Hflag); [by exists r|].
           apply elem_of_app in Hin as [Hin | Hin];
             [|apply elem_of_cons in Hin as [-> | Hin]].
           ++ exists entry. split; [|done]. apply elem_of_app. by left.
           ++ eexists. split.
              ** apply elem_of_app. right. apply list_elem_of_here.
              ** cbn [MessageItem.reactedByMe]. rewrite Hflag.
                 by destruct (reactedBy currentUserId reaction).
           ++ exists entry. split; [|done]. apply elem_of_app. right.
              by apply elem_of_cons; right.
        -- apply list_elem_of_singleton in Hr as ->. eexists. split.
           ++ apply elem_of_app. right. apply list_elem_of_here.
           ++ cbn [MessageItem.reactedByMe]. by rewrite Hmine.
  - destruct (aggregate_set_new _
                {| MessageItem.emoji := get "emoji" reaction;
                   MessageItem.count := 0 + 1;
                   MessageItem.reactedByMe :=
                     if reactedBy currentUserId reaction then true else false |} _ Hget)
      as [Hset Hnew].
    cbn [MessageItem.emoji MessageItem.count MessageItem.reactedByMe].
    rewrite Hset. split.
    + rewrite !fmap_app, sum_list_app_nat, length_app, Hsum. simpl. unfold id. lia.
    + apply Forall_app. split; [done|]. apply Forall_cons. split; [|done].
      cbn [fst snd MessageItem.emoji MessageItem.count]. split; [done|lia].
    + rewrite fmap_app. by apply pairwise_distinct_snoc.
    + rewrite fmap_app. split.
      * intros (entry & Hin & Hflag). apply elem_of_app in Hin as [Hin | Hin].
        -- destruct (proj1 Hflags) as (r & Hr & Hmine); [by exists entry|].
           exists r. split; [|done]. apply elem_of_app. by left.
        -- apply list_elem_of_singleton in Hin as ->.
           cbn [snd MessageItem.reactedByMe] in Hflag.
           exists reaction. split.
           ++ apply elem_of_app. right. by apply list_elem_of_singleton.
           ++ by destruct (reactedBy currentUserId reaction).
      * intros (r & Hr & Hmine). apply elem_of_app in Hr as [Hr | Hr].
        -- destruct (proj2 Hflags) as (entry & Hin & Hflag); [by exists r|].
           exists entry. split; [|done]. apply elem_of_app. by left.
        -- apply list_elem_of_singleton in Hr as ->. eexists. split.
           ++ apply elem_of_app. right. by apply list_elem_of_singleton.
           ++ cbn [snd MessageItem.reactedByMe]. by rewrite Hmine.
Qed.

Lemma countReaction_None currentUserId reaction :
  MessageItem.countReaction currentUserId None reaction = None.
Proof. done. Qed.

Lemma foldl_countReaction_summarises currentUserId reactions aggregate :
  foldl (MessageItem.countReaction currentUserId) (Some []) reactions = Some aggregate →
  summarises currentUserId aggregate reactions.
Proof.
  revert aggregate. induction reactions as [|reaction reactions IH] using rev_ind;
    intros aggregate.
  - intros [= <-]. split; [done|done| |].
    + by intros i j a b Hi.
    + split.
      * intros (entry & Hin & _). by apply elem_of_nil in Hin.
      * intros (r & Hin & _). by apply elem_of_nil in Hin.
  - rewrite foldl_app. cbn [foldl].
    destruct (foldl (MessageItem.countReaction currentUserId) (Some []) reactions)
      as [previous|]; [|done].
    intros Hstep. apply (countReaction_summarises _ previous); [by apply IH | done].
Qed.

(** When the summary of a reaction list is built, its counts add up to the
    number of reactions, every entry counts at least one reaction, no two
    entries are for the same emoji, and some entry is flagged as the
    current user's exactly when the current user reacted. *)
Theorem reaction_summary_counts_every_reaction
    (reactions : list jsval) (currentUserId : jsval)
    (summary : list MessageItem.SummaryEntry) :
  MessageItem.buildReactionSummary reactions currentUserId = Some summary →
  sum_list (MessageItem.count <$> summary) = length reactions
  ∧ Forall (λ entry, 0 < MessageItem.count entry) summary
  ∧ pairwise_distinct (MessageItem.emoji <$> summary)
  ∧ ((∃ entry, entry ∈ summary ∧ MessageItem.reactedByMe entry = true)
     ↔ (∃ reaction, reaction ∈ reactions ∧ reactedBy currentUserId reaction = true)).
Proof.
  unfold MessageItem.buildReactionSummary.
  destruct (foldl _ _ _) as [aggregate|] eqn:Hfold; [|done].
  intros [= <-]. apply foldl_countReaction_summarises in Hfold.
  destruct Hfold as [Hsum Hkeyed Hdistinct Hflags].
  split; [done|]. split; [|split; [|done]].
  - apply Forall_fmap. eapply Forall_impl; [exact Hkeyed|]. by intros p [_ H].
  - assert (Hkeys : MessageItem.emoji <$> aggregate.*2 = aggregate.*1); [|by rewrite Hkeys].
    clear -Hkeyed. induction Hkeyed as [|p aggregate [Hp _] _ IH]; [done|].
    rewrite !fmap_cons. by rewrite IH, Hp.
Qed.

Lemma reaction_summary_counts_every_reaction_witness :
  MessageItem.buildReactionSummary
    [JObj [("user", JStr "alice"); ("emoji", JStr "+1")];
     JObj [("user", JStr "bob"); ("emoji", JStr "heart")];
     JObj [("user", JObj [("_id", JStr "carol")]); ("emoji", JStr "+1")]]
    (JStr "alice")
  = Some [ {| MessageItem.emoji := JStr "+1"; MessageItem.count := 2;
              MessageItem.reactedByMe := true |};
           {| MessageItem.emoji := JStr "heart"; MessageItem.count := 1;
              MessageItem.reactedByMe := false |} ]
  ∧ 2 + (1 + 0) = 3.
Proof.
  split; [reflexivity|].
  by destruct (reaction_summary_counts_every_reaction
                 [JObj [("user", JStr "alice"); ("emoji", JStr "+1")];
                  JObj [("user", JStr "bob"); ("emoji", JStr "heart")];
                  JObj [("user", JObj [("_id", JStr "carol")]); ("emoji", JStr "+1")]]
                 (JStr "alice") _ eq_refl) as (H & _).
Defined.

(** ** Message previews *)

Lemma utf16_length_append a b :
  utf16_length (a +:+ b) = utf16_length a + utf16_length b.
Proof. induction a as [|c a IH]; simpl; [done|]. rewrite IH. lia. Qed.

Lemma code_units_bound c : code_units c ≤ 2.
Proof. unfold code_units. cbv zeta. destruct (_ && _); [lia|]. destruct (240 <=? _); lia. Qed.

Lemma code_units_of_nat n :
  n < 256 →
  code_units (Ascii.ascii_of_nat n)
  = if (128 <=? n) && (n <=? 191) then 0 else if 240 <=? n then 2 else 1.
Proof. intros Hn. unfold code_units. by rewrite Ascii.nat_ascii_embedding. Qed.

Lemma utf16_length_high_surrogate a rest : utf16_length (high_surrogate a rest) = 1.
Proof.
  unfold high_surrogate. cbv zeta.
  set (v := _ - 64).
  assert (Hv : v / 64 ≤ 30).
  { assert (Ha : Ascii.nat_of_ascii a mod 8 < 8) by (apply Nat.mod_upper_bound; lia).
    assert (Hb : byte_at 0 rest mod 64 < 64) by (apply Nat.mod_upper_bound; lia).
    assert (Hc : (byte_at 1 rest mod 64) / 16 ≤ 3).
    { assert (byte_at 1 rest mod 64 < 64) by (apply Nat.mod_upper_bound; lia).
      apply Nat.lt_succ_r, Nat.Div0.div_lt_upper_bound. lia. }
    apply Nat.lt_succ_r, Nat.Div0.div_lt_upper_bound. subst v. lia. }
  assert (Hm : v mod 64 < 64) by (apply Nat.mod_upper_bound; lia).
  cbn [utf16_length]. rewrite !code_units_of_nat by lia.
  replace (128 <=? 237) with true by done. replace (237 <=? 191) with false by done.
  replace (240 <=? 237) with false by done. cbn [andb].
  assert (H2 : (128 <=? 160 + v / 64) && (160 + v / 64 <=? 191) = true).
  { apply andb_true_iff. split; apply Nat.leb_le; lia. }
  assert (H3 : (128 <=? 128 + v mod 64) && (128 + v mod 64 <=? 191) = true).
  { apply andb_true_iff. split; apply Nat.leb_le; lia. }
  by rewrite H2, H3.
Qed.

Lemma utf16_length_take_units n text :
  utf16_length (take_units n text) = n `min` utf16_length text.
Proof.
  revert n. induction text as [|a rest IH]; intros n; cbn [take_units utf16_length].
  - lia.
  - pose proof (code_units_bound a) as Hbound.
    destruct (code_units a =? 0) eqn:E0.
    + apply Nat.eqb_eq in E0. cbn [utf16_length]. rewrite IH, E0. lia.
    + apply Nat.eqb_neq in E0. destruct (code_units a <=? n) eqn:E1.
      * apply Nat.leb_le in E1. cbn [utf16_length]. rewrite IH. lia.
      * apply Nat.leb_gt in E1. destruct (n =? 0) eqn:E2.
        -- apply Nat.eqb_eq in E2. subst n. simpl. lia.
        -- apply Nat.eqb_neq in E2. rewrite utf16_length_high_surrogate. lia.
Qed.

(** A preview never overflows its budget and is never empty, lengths
    being counted as the code counts them, in UTF-16 code units: for a
    budget of at least 19 (the callers use 90 and 120) the preview is at
    most as long as the budget; a text that fits is shown unchanged, and
    a longer one is cut to the budget, its last three code units being
    the ellipsis. *)
Theorem preview_fits_budget (content : jsval) (maxLength : Z) :
  (19 ≤ maxLength)%Z →
  let text := trim (js_String (or_else content (JStr ""))) in
  let preview := MessageItem.getMessageTextPreview content maxLength in
  (Z.of_nat (utf16_length preview) ≤ maxLength)%Z
  ∧ preview ≠ ""
  ∧ (text ≠ "" → (Z.of_nat (utf16_length text) ≤ maxLength)%Z → preview = text)
  ∧ ((maxLength < Z.of_nat (utf16_length text))%Z →
     Z.of_nat (utf16_length preview) = maxLength
     ∧ preview = take_units (Z.to_nat (maxLength - 3)) text +:+ "...").
Proof.
  intros Hbudget text preview. subst preview. unfold MessageItem.getMessageTextPreview.
  fold text. destruct (String.eqb text "") eqn:Hempty.
  - apply String.eqb_eq in Hempty. rewrite Hempty.
    change (utf16_length "Message unavailable") with 19. change (utf16_length "") with 0.
    split; [lia|]. split; [done|]. split; [done|]. lia.
  - apply String.eqb_neq in Hempty.
    destruct (Z.of_nat (utf16_length text) <=? maxLength)%Z eqn:Hfits.
    + apply Z.leb_le in Hfits. split; [done|]. split; [done|]. split; [done|]. lia.
    + apply Z.leb_gt in Hfits.
      assert (Hslice : MessageItem.slice_to (maxLength - 3) text
                       = take_units (Z.to_nat (maxLength - 3)) text).
      { unfold MessageItem.slice_to.
        destruct (maxLength - 3 <? 0)%Z eqn:E; [apply Z.ltb_lt in E; lia|].
        by rewrite Z.min_l by lia. }
      rewrite Hslice.
      assert (Hlen : utf16_length (take_units (Z.to_nat (maxLength - 3)) text +:+ "...")
                     = Z.to_nat maxLength).
      { rewrite utf16_length_append, utf16_length_take_units.
        change (utf16_length "...") with 3. lia. }
      split; [lia|]. split; [|split; [lia|]].
      * intros Hnil. rewrite Hnil in Hlen. simpl in Hlen. lia.
      * intros _. split; [lia|done].
Qed.

(** The witness is a text of twenty characters, the first sixteen with an
    umlaut each and so of two bytes: it fits a budget of 20 and is shown
    whole, although it has 36 bytes. *)
Lemma preview_fits_budget_witness :
  MessageItem.getMessageTextPreview
    (JStr "  see you at the station at nine  ") 19
  = "see you at the s..."
  ∧ MessageItem.getMessageTextPreview (JStr "üüüüüüüüüüüüüüüüabcd") 20
    = "üüüüüüüüüüüüüüüüabcd".
Proof.
  split.
  - destruct (preview_fits_budget (JStr "  see you at the station at nine  ") 19)
      as (_ & _ & _ & H); [lia|].
    destruct H as [_ H]; [vm_compute; reflexivity|].
    rewrite H. vm_compute. reflexivity.
  - destruct (preview_fits_budget (JStr "üüüüüüüüüüüüüüüüabcd") 20)
      as (_ & _ & H & _); [lia|].
    apply H; [discriminate | vm_compute; discriminate].
Defined.

(** ** Sign-up and login forms *)

Lemma existsb_reverse {A} (f : A → bool) (l : list A) : existsb f (rev l) = existsb f l.
Proof.
  induction l as [|x l IH]; [done|]. simpl.
  rewrite existsb_app, IH. simpl. rewrite orb_false_r. apply orb_comm.
Qed.

Lemma is_space2_high a b :
  is_space2 a b = true → 128 ≤ Ascii.nat_of_ascii a ∧ 128 ≤ Ascii.nat_of_ascii b.
Proof.
  unfold is_space2. rewrite andb_true_iff, !Nat.eqb_eq. lia.
Qed.

Lemma is_space3_high a b c :
  is_space3 a b c = true →
  128 ≤ Ascii.nat_of_ascii a ∧ 128 ≤ Ascii.nat_of_ascii b ∧ 128 ≤ Ascii.nat_of_ascii c.
Proof.
  unfold is_space3. cbv zeta.
  rewrite !orb_true_iff, !andb_true_iff, !orb_true_iff, !andb_true_iff, !Nat.eqb_eq,
    !Nat.leb_le.
  lia.
Qed.

(** An ASCII character that is not white space is in the trimmed text
    exactly when it is in the text. *)
Lemma includes_char_trim c text :
  is_space c = false → Ascii.nat_of_ascii c < 128 →
  includes_char c (trim text) = includes_char c text.
Proof.
  intros Hc Hascii. unfold includes_char.
  assert (Hsame : ∀ a, Ascii.eqb c a = true → a = c).
  { intros a H. by apply Ascii.eqb_eq in H. }
  assert (Hother : ∀ a, 128 ≤ Ascii.nat_of_ascii a → Ascii.eqb c a = false).
  { intros a Ha. destruct (Ascii.eqb c a) eqn:E; [|done].
    apply Hsame in E. subst a. lia. }
  assert (Hone : ∀ a, is_space a = true → Ascii.eqb c a = false).
  { intros a Ha. destruct (Ascii.eqb c a) eqn:E; [|done].
    apply Hsame in E. congruence. }
  rewrite list_of_trim, existsb_reverse. unfold drop_spaces_backwards, drop_spaces.
  rewrite drop_leading_existsb; [rewrite existsb_reverse, drop_leading_existsb| | |];
    try done.
  - intros a b H. apply is_space2_high in H as [Ha Hb]. split; by apply Hother.
  - intros a b d H. apply is_space3_high in H as (Ha & Hb & Hd).
    repeat split; by apply Hother.
  - intros b a H. apply is_space2_high in H as [Ha Hb]. split; by apply Hother.
  - intros d b a H. apply is_space3_high in H as (Ha & Hb & Hd).
    repeat split; by apply Hother.
Qed.

(** What the sign-up form registers, the login form accepts: when the
    sign-up form posts a body, the login form filled in with the posted
    e-mail address and password raises no error and posts exactly that
    address and password; and the posted user name has at least three
    UTF-16 code units, which is how the form counts, and no surrounding
    white space. *)
Theorem signup_credentials_pass_login (data : Signup.Data) (body : Signup.Body.t) :
  Signup.handleSubmit data = inr body →
  Login.handleSubmit {| Login.email := Signup.Body.email body;
                        Login.password := Signup.Body.password body |}
  = inr {| Login.email := Signup.Body.email body;
           Login.password := Signup.Body.password body |}
  ∧ 3 ≤ utf16_length (Signup.Body.username body)
  ∧ 6 ≤ utf16_length (Signup.Body.password body)
  ∧ trim (Signup.Body.username body) = Signup.Body.username body
  ∧ Signup.Body.name body = Signup.Body.username body
  ∧ Signup.password data = Signup.confirm data.
Proof.
  unfold Signup.handleSubmit.
  destruct (utf16_length (trim (Signup.username data)) <? 3) eqn:Hname; [done|].
  destruct (includes_char at_sign (Signup.email data)) eqn:Hat; [|done].
  destruct (utf16_length (Signup.password data) <? 6) eqn:Hlen; [done|].
  destruct (String.eqb (Signup.password data) (Signup.confirm data)) eqn:Hsame; [|done].
  intros [= <-]. cbn [negb Signup.Body.email Signup.Body.password Signup.Body.username
                      Signup.Body.name].
  split; [|split; [|split; [|split; [|split]]]].
  - unfold Login.handleSubmit. cbn [Login.email Login.password].
    rewrite includes_char_trim by (done || (vm_compute; lia)). rewrite Hat, Hlen. cbn [negb].
    by rewrite trim_idemp.
  - by apply Nat.ltb_ge in Hname.
  - by apply Nat.ltb_ge in Hlen.
  - apply trim_idemp.
  - done.
  - by apply String.eqb_eq.
Qed.

(** The witness: a user name of three characters between no-break spaces
    and a password of six characters, two of them of two bytes. *)
Lemma signup_credentials_pass_login_witness :
  Login.handleSubmit {| Login.email := "zoe@example.org"; Login.password := "pässwö" |}
  = inr {| Login.email := "zoe@example.org"; Login.password := "pässwö" |}.
Proof.
  destruct (signup_credentials_pass_login
              {| Signup.username := no_break_space +:+ "Zoë" +:+ no_break_space;
                 Signup.email := " zoe@example.org" +:+ line_separator;
                 Signup.password := "pässwö"; Signup.confirm := "pässwö" |}
              {| Signup.Body.username := "Zoë"; Signup.Body.name := "Zoë";
                 Signup.Body.email := "zoe@example.org";
                 Signup.Body.password := "pässwö" |}) as [H _];
    [vm_compute; reflexivity|].
  exact H.
Defined.
